(** * PowerGrid: the viewport windowing and incremental patch engine

    A shallow embedding of the row-windowing logic of the [PowerGrid] class
    (viewport tracking, row group rendering, the [rowsadded] / [rowsremoved]
    handlers, the data subscription queue) and of [SummarizingDataSource].

    Conventions of the embedding.
    - JavaScript numbers that hold row indices, counts and pixel offsets are
      integers here ([Z]); the one place where the program computes [NaN]
      (a number minus an object) is modelled with [JsNumber].
    - A row node stands for the row's parts in every container of its row
      group (left, scrolling, right): the engine creates, relabels and
      removes the parts of one row together, part by part, with the same
      arithmetic. A row group is the list of its rows in document order.
    - Nodes are objects: every row carries the identity [node] it was
      allocated with, so that a deferred callback reaches the very nodes it
      captured, wherever they are by then. The entries of the working set
      are objects in the same way.
    - The results of the queries on the document are arrays of nodes, with
      the array methods the code calls on them ([slice], [forEach]) and the
      selectors it writes ([:gt], [:eq]) in their jQuery meaning.
    - Exceptions are results: a function that can throw returns [result].
    - The grid is modelled from the moment its record count, working set
      and viewport exist (the callback of [renderData] creates them); the
      data source answers [getData(start, end)] with the records of the rows
      [start .. end-1], at once or through a promise.
    - [utils.js] is not among the sources: [overlap], [SubscriptionQueue]
      and [map] are modelled from the specification, [empty] removes the
      children of an element.

    Beside the windowing engine the development covers the column layout
    of the grid ([columnWidth], [adjustWidths], [adjustColumnPositions],
    [_hideColumns]), the load order of its extensions ([sortByLoadOrder]),
    the event queue of touch scrolling, the render queue, and two more data
    sources: [SyncTreeGridDataSource], which flattens a tree, and the
    [ArrayDataSource] of the tests. There, strings are lists of UTF-16 code
    units, and an object used as a map is the list of its own properties. *)

From Stdlib Require Import ZArith List Bool Lia Permutation.
Import ListNotations.
Open Scope Z_scope.

(** ** Exceptions *)

Inductive JsError : Type :=
| IndexMismatch        (* throw "Index mismatch" *)
| RangeError           (* new Array(n) with a negative n *)
| TypeError.           (* property access on undefined *)

Inductive result (A : Type) : Type :=
| OK (a : A)
| Throw (e : JsError).
Arguments OK {A} a.
Arguments Throw {A} e.

Definition bind {A B : Type} (m : result A) (k : A -> result B) : result B :=
  match m with
  | OK a => k a
  | Throw e => Throw e
  end.

Notation "x <- m ;; k" := (bind m (fun x => k))
  (at level 61, m at next level, right associativity).

(** ** JavaScript arithmetic and arrays *)

(** [a % b] truncates towards zero. *)
Definition js_mod (a b : Z) : Z := Z.rem a b.

(** [a || b] on numbers: [0] is falsy. *)
Definition js_or (a b : Z) : Z := if a =? 0 then b else a.

Inductive JsNumber : Type :=
| JsNum (z : Z)
| JsNaN.

(** The conversion every array method applies to an index argument:
    [NaN] becomes [0]. *)
Definition toInteger (n : JsNumber) : Z :=
  match n with
  | JsNum z => z
  | JsNaN => 0
  end.

(** An index argument of [slice] / [splice], relative to the end when
    negative, clamped to the array. *)
Definition relative_index (len k : Z) : Z :=
  if k <? 0 then Z.max (len + k) 0 else Z.min k len.

Definition js_slice {A : Type} (l : list A) (from to : Z) : list A :=
  let len := Z.of_nat (length l) in
  let f := relative_index len from in
  let t := relative_index len to in
  firstn (Z.to_nat (t - f)) (skipn (Z.to_nat f) l).

(** [l.slice(from)] *)
Definition js_slice_from {A : Type} (l : list A) (from : Z) : list A :=
  js_slice l from (Z.of_nat (length l)).

(** [l.splice(start, deleteCount)]: what is left of [l]. *)
Definition js_splice {A : Type} (l : list A) (start deleteCount : Z) : list A :=
  let len := Z.of_nat (length l) in
  let s := relative_index len start in
  let d := Z.min (Z.max deleteCount 0) (len - s) in
  firstn (Z.to_nat s) l ++ skipn (Z.to_nat (s + d)) l.

(** [new Array(n)]: [n] holes, or a RangeError. *)
Definition new_Array {A : Type} (n : Z) : result (list (option A)) :=
  if n <? 0 then Throw RangeError else OK (repeat None (Z.to_nat n)).

(** [a[i] = v]: assignment past the end extends the array with holes. *)
Fixpoint array_set_nat {A : Type} (a : list (option A)) (i : nat) (v : A)
  : list (option A) :=
  match i, a with
  | O, [] => [Some v]
  | O, _ :: t => Some v :: t
  | S n, [] => None :: array_set_nat [] n v
  | S n, h :: t => h :: array_set_nat t n v
  end.

Definition array_set {A : Type} (a : list (option A)) (i : Z) (v : A)
  : list (option A) :=
  if i <? 0 then a else array_set_nat a (Z.to_nat i) v.

(** [a[i]]: [None] is [undefined] (a hole, or out of the array). *)
Definition array_get {A : Type} (a : list (option A)) (i : Z) : option A :=
  if i <? 0 then None
  else match nth_error a (Z.to_nat i) with
       | Some (Some v) => Some v
       | _ => None
       end.

(** The indices [start, start+1, ..] visited by [for (x = start; x < end; x++)]. *)
Fixpoint count_from (start : Z) (n : nat) : list Z :=
  match n with
  | O => []
  | S k => start :: count_from (start + 1) k
  end.

Definition index_range (start end_ : Z) : list Z :=
  count_from start (Z.to_nat (end_ - start)).

(** ** Data model *)

Record Range : Type := mkRange { begin : Z; end_ : Z }.

(** A record of the data source; the engine only ever reads its [id]. *)
Record DataRecord : Type := mkRecord { rec_id : Z; rec_value : Z }.

(** An entry of the working set: the object [{}] stored at request time,
    whose [record] is filled in when the data arrives. *)
Record WorkingSetEntry : Type := mkEntry {
  entry : nat;                       (* identity of the entry object *)
  record : option DataRecord
}.

(** A row node with its [data-row-idx] and [data-row-id] attributes. *)
Record Row : Type := mkRow {
  node : nat;                        (* identity of the DOM node *)
  row_idx : Z;                       (* data-row-idx *)
  row_id : option Z                  (* data-row-id, absent on an empty shell *)
}.

Record Options : Type := mkOptions {
  virtualScrollingExcess : Z;
  frozenRowsTop : Z;
  frozenRowsBottom : Z;
  rowHeightOption : Z
}.

Definition defaultOptions : Options :=
  {| virtualScrollingExcess := 10;
     frozenRowsTop := 0;
     frozenRowsBottom := 0;
     rowHeightOption := 31 |}.

(** The data source seen from the grid: [getData(start, end)] answers with an
    array or with a promise; the records of an honest source are those of
    rows [start .. end-1]. *)
Record DataSource : Type := mkDataSource {
  synchronous : bool;
  source_row : Z -> DataRecord
}.

Inductive RowGroup : Type := HeaderGroup | ScrollingGroup | FooterGroup.

(** ** The data subscription queue *)

(** Modelled from the spec: [utils.SubscriptionQueue] ([utils.js] is not
    among the sources). The queue holds a generation counter that [cancel]
    increments; [queue callback] wraps the callback with the generation
    current at wrapping time; invoking the wrapper runs the callback only if
    that generation is still the queue's current one, and drops the result
    otherwise. *)
Record SubscriptionQueue : Type := mkQueue { generation : nat }.

Definition new_SubscriptionQueue : SubscriptionQueue := {| generation := 0 |}.

Definition cancel (q : SubscriptionQueue) : SubscriptionQueue :=
  {| generation := S (generation q) |}.

(** The two closures the grid passes to [queue], as data: [populateRows] of
    [renderRowGroupContents] with the [start], [end] and [rows] it closes
    over ([rows[x]] is the node created for index [x]), and the callback of
    [renderData]. *)
Inductive Callback : Type :=
| PopulateRows (start end_ : Z) (rows : list (Z * nat))
| RenderDataCallback.

(** A wrapped callback: the queue object it belongs to (a reference into the
    grid's store of queue objects) and the captured generation. *)
Record Wrapped : Type := mkWrapped {
  w_queue : nat;
  w_generation : nat;
  w_callback : Callback
}.

Definition queue (ref : nat) (q : SubscriptionQueue) (cb : Callback) : Wrapped :=
  {| w_queue := ref; w_generation := generation q; w_callback := cb |}.

(** Is the wrapper's generation still current in its queue? *)
Definition still_current (queues : list SubscriptionQueue) (w : Wrapped) : bool :=
  match nth_error queues (w_queue w) with
  | Some q => Nat.eqb (generation q) (w_generation w)
  | None => false
  end.

(** A promise the grid is waiting for, with its continuations. *)
Inductive Pending : Type :=
| PendingData (workingDataSubset : list nat) (continuation : Wrapped)
    (* getData(..).then(processData).then(queue(populateRows)).catch(..) *)
| PendingRecordCount (continuation : Wrapped).
    (* Promise.resolve(recordCount()).then(queue(..)) *)

(** What a promise resolves to. *)
Inductive Payload : Type :=
| DataPayload (records : list DataRecord)
| CountPayload (count : Z).

(** ** The grid *)

Record Grid : Type := mkGrid {
  options : Options;
  dataSource : DataSource;
  recordCount : Z;
  workingSet : list (option WorkingSetEntry);
  viewport : Range;
  headergroup : list Row;
  scrollinggroup : list Row;
  footergroup : list Row;
  scrollTop : Z;                     (* scroller.scrollTop *)
  scrollAreaHeight : Z;              (* offsetHeight of the scrolling row group *)
  nextNode : nat;                    (* row nodes created so far *)
  nextEntry : nat;                   (* working set entries created so far *)
  disposed : list Row;               (* row nodes removed from the document so far *)
  queues : list SubscriptionQueue;   (* the queue objects ever created *)
  dataSubscriptions : option nat;    (* this.dataSubscriptions *)
  pending : list Pending;            (* unresolved promises *)
  updateViewportQueued : bool        (* renderQueue.updateViewport *)
}.

Definition set_recordCount (v : Z) (s : Grid) : Grid :=
  mkGrid (options s) (dataSource s) v (workingSet s) (viewport s)
    (headergroup s) (scrollinggroup s) (footergroup s) (scrollTop s)
    (scrollAreaHeight s) (nextNode s) (nextEntry s) (disposed s) (queues s)
    (dataSubscriptions s) (pending s) (updateViewportQueued s).

Definition set_workingSet (v : list (option WorkingSetEntry)) (s : Grid) : Grid :=
  mkGrid (options s) (dataSource s) (recordCount s) v (viewport s)
    (headergroup s) (scrollinggroup s) (footergroup s) (scrollTop s)
    (scrollAreaHeight s) (nextNode s) (nextEntry s) (disposed s) (queues s)
    (dataSubscriptions s) (pending s) (updateViewportQueued s).

Definition set_viewport (v : Range) (s : Grid) : Grid :=
  mkGrid (options s) (dataSource s) (recordCount s) (workingSet s) v
    (headergroup s) (scrollinggroup s) (footergroup s) (scrollTop s)
    (scrollAreaHeight s) (nextNode s) (nextEntry s) (disposed s) (queues s)
    (dataSubscriptions s) (pending s) (updateViewportQueued s).

Definition set_headergroup (v : list Row) (s : Grid) : Grid :=
  mkGrid (options s) (dataSource s) (recordCount s) (workingSet s) (viewport s)
    v (scrollinggroup s) (footergroup s) (scrollTop s)
    (scrollAreaHeight s) (nextNode s) (nextEntry s) (disposed s) (queues s)
    (dataSubscriptions s) (pending s) (updateViewportQueued s).

Definition set_scrollinggroup (v : list Row) (s : Grid) : Grid :=
  mkGrid (options s) (dataSource s) (recordCount s) (workingSet s) (viewport s)
    (headergroup s) v (footergroup s) (scrollTop s)
    (scrollAreaHeight s) (nextNode s) (nextEntry s) (disposed s) (queues s)
    (dataSubscriptions s) (pending s) (updateViewportQueued s).

Definition set_footergroup (v : list Row) (s : Grid) : Grid :=
  mkGrid (options s) (dataSource s) (recordCount s) (workingSet s) (viewport s)
    (headergroup s) (scrollinggroup s) v (scrollTop s)
    (scrollAreaHeight s) (nextNode s) (nextEntry s) (disposed s) (queues s)
    (dataSubscriptions s) (pending s) (updateViewportQueued s).

Definition set_nextNode (v : nat) (s : Grid) : Grid :=
  mkGrid (options s) (dataSource s) (recordCount s) (workingSet s) (viewport s)
    (headergroup s) (scrollinggroup s) (footergroup s) (scrollTop s)
    (scrollAreaHeight s) v (nextEntry s) (disposed s) (queues s)
    (dataSubscriptions s) (pending s) (updateViewportQueued s).

Definition set_nextEntry (v : nat) (s : Grid) : Grid :=
  mkGrid (options s) (dataSource s) (recordCount s) (workingSet s) (viewport s)
    (headergroup s) (scrollinggroup s) (footergroup s) (scrollTop s)
    (scrollAreaHeight s) (nextNode s) v (disposed s) (queues s)
    (dataSubscriptions s) (pending s) (updateViewportQueued s).

Definition set_disposed (v : list Row) (s : Grid) : Grid :=
  mkGrid (options s) (dataSource s) (recordCount s) (workingSet s) (viewport s)
    (headergroup s) (scrollinggroup s) (footergroup s) (scrollTop s)
    (scrollAreaHeight s) (nextNode s) (nextEntry s) v (queues s)
    (dataSubscriptions s) (pending s) (updateViewportQueued s).

Definition set_queues (v : list SubscriptionQueue) (s : Grid) : Grid :=
  mkGrid (options s) (dataSource s) (recordCount s) (workingSet s) (viewport s)
    (headergroup s) (scrollinggroup s) (footergroup s) (scrollTop s)
    (scrollAreaHeight s) (nextNode s) (nextEntry s) (disposed s) v
    (dataSubscriptions s) (pending s) (updateViewportQueued s).

Definition set_dataSubscriptions (v : option nat) (s : Grid) : Grid :=
  mkGrid (options s) (dataSource s) (recordCount s) (workingSet s) (viewport s)
    (headergroup s) (scrollinggroup s) (footergroup s) (scrollTop s)
    (scrollAreaHeight s) (nextNode s) (nextEntry s) (disposed s) (queues s)
    v (pending s) (updateViewportQueued s).

Definition set_pending (v : list Pending) (s : Grid) : Grid :=
  mkGrid (options s) (dataSource s) (recordCount s) (workingSet s) (viewport s)
    (headergroup s) (scrollinggroup s) (footergroup s) (scrollTop s)
    (scrollAreaHeight s) (nextNode s) (nextEntry s) (disposed s) (queues s)
    (dataSubscriptions s) v (updateViewportQueued s).

Definition set_updateViewportQueued (v : bool) (s : Grid) : Grid :=
  mkGrid (options s) (dataSource s) (recordCount s) (workingSet s) (viewport s)
    (headergroup s) (scrollinggroup s) (footergroup s) (scrollTop s)
    (scrollAreaHeight s) (nextNode s) (nextEntry s) (disposed s) (queues s)
    (dataSubscriptions s) (pending s) v.

Definition group_rows (g : RowGroup) (s : Grid) : list Row :=
  match g with
  | HeaderGroup => headergroup s
  | ScrollingGroup => scrollinggroup s
  | FooterGroup => footergroup s
  end.

Definition set_group_rows (g : RowGroup) (v : list Row) (s : Grid) : Grid :=
  match g with
  | HeaderGroup => set_headergroup v s
  | ScrollingGroup => set_scrollinggroup v s
  | FooterGroup => set_footergroup v s
  end.

(** ** Viewport tracker *)

(** Modelled from the spec: [utils.overlap] ([utils.js] is not among the
    sources). Two half-open ranges overlap when each begins before the other
    ends. *)
Definition overlap (a b : Range) : bool :=
  (begin a <? end_ b) && (begin b <? end_ a).

(** [getRecordCount()]; the grid is modelled from the moment its record
    count is known, so the "Record count currently unknown." exception has no
    state to arise in. *)
Definition getRecordCount (s : Grid) : Z := recordCount s.

(** [rowHeight(x)], one row. *)
Definition rowHeight (s : Grid) (x : Z) : Z := rowHeightOption (options s).

(** [rowHeight(start, end)], the rows [start .. end-1]. *)
Definition rowHeightBetween (s : Grid) (start end_ : Z) : Z :=
  (end_ - start) * rowHeightOption (options s).

(** The loop of [rowsInView]: [n] is the number of indices left before [l];
    the result is [(begin, x)] where the loop stops. *)
Fixpoint rowsInView_loop (s : Grid) (top bottom : Z) (n : nat) (x ct begin_ : Z)
  : Z * Z :=
  match n with
  | O => (begin_, x)
  | S k =>
      let ct := ct + rowHeight s x in
      if (top <=? ct) && (begin_ =? -1)
      then rowsInView_loop s top bottom k (x + 1) ct x
      else if bottom <? ct
           then (begin_, x)
           else rowsInView_loop s top bottom k (x + 1) ct begin_
  end.

Definition rowsInView (s : Grid) (top bottom start end_ : Z) : Range :=
  let x0 := js_or start 0 in
  let l := js_or end_ (getRecordCount s) in
  let '(begin_, x) := rowsInView_loop s top bottom (Z.to_nat (l - x0)) x0 0 (-1) in
  if -1 <? begin_
  then {| begin := begin_ - (js_mod begin_ 2 - js_mod (frozenRowsTop (options s)) 2);
          end_ := x |}
  else {| begin := 0; end_ := 0 |}.

Definition viewRange (s : Grid) : Range :=
  let start := frozenRowsTop (options s) in
  let end' := getRecordCount s - frozenRowsBottom (options s) in
  let range := rowsInView s (scrollTop s) (scrollTop s + scrollAreaHeight s) start end' in
  let begin_ := Z.max start (begin range - virtualScrollingExcess (options s)) in
  {| begin := begin_ - js_mod begin_ 2;
     end_ := Z.min end' (end_ range + virtualScrollingExcess (options s)) |}.

(** ** Working set store *)

(** [dataSource.getData(start, end)] of an honest source. *)
Definition source_getData (ds : DataSource) (start end_ : Z) : list DataRecord :=
  map (source_row ds) (index_range start end_).

Inductive DataResult : Type :=
| SyncData (records : list DataRecord)
| AsyncData (workingDataSubset : list nat).

Definition set_entry_record (e : nat) (r : DataRecord)
    (ws : list (option WorkingSetEntry)) : list (option WorkingSetEntry) :=
  map (fun o => match o with
                | Some en => if Nat.eqb (entry en) e
                             then Some {| entry := e; record := Some r |}
                             else o
                | None => None
                end) ws.

(** [processData]: [workingDataSubset[x].record = result[x]] for every [x] of
    the result; the flag is [false] when the loop hits an undefined entry
    (a TypeError), with the assignments made so far in place. *)
Fixpoint processData (workingDataSubset : list nat) (result_ : list DataRecord)
    (ws : list (option WorkingSetEntry)) : list (option WorkingSetEntry) * bool :=
  match result_, workingDataSubset with
  | [], _ => (ws, true)
  | r :: rs, e :: es => processData es rs (set_entry_record e r ws)
  | _ :: _, [] => (ws, false)
  end.

(** [PowerGrid.getData(start, end)] with [start] defined. *)
Definition getData (start end_ : Z) (s : Grid) : result (DataResult * Grid) :=
  _ <- new_Array (A := WorkingSetEntry) (js_or end_ (getRecordCount s) - start) ;;
  let xs := index_range start end_ in
  let ids := seq (nextEntry s) (length xs) in
  let ws := fold_left
              (fun ws xe => array_set ws (fst xe) {| entry := snd xe; record := None |})
              (combine xs ids) (workingSet s) in
  let s1 := set_nextEntry (nextEntry s + length xs)%nat (set_workingSet ws s) in
  if synchronous (dataSource s)
  then let data := source_getData (dataSource s) start end_ in
       let '(ws', ok) := processData ids data (workingSet s1) in
       if ok then OK (SyncData data, set_workingSet ws' s1) else Throw TypeError
  else OK (AsyncData ids, s1).

(** [getRow(index)] *)
Definition getRow (s : Grid) (index : Z) : option DataRecord :=
  match array_get (workingSet s) index with
  | Some e => record e
  | None => None
  end.

(** ** Row group renderer *)

Inductive InsertMethod : Type :=
| Append
| Prepend
| Before (atIndex : Z)
| After (atIndex : Z).

Definition insert_method (prepend : bool) (atIndex : option Z) : InsertMethod :=
  match atIndex with
  | None => if prepend then Prepend else Append
  | Some i =>
      if (i =? -1) && negb prepend then Prepend
      else if prepend then Before i else After i
  end.

(** The row that [:eq(i)] selects among the rows of a part, if any. *)
Definition eq_target (len i : Z) : option nat :=
  let j := if i <? 0 then len + i else i in
  if (0 <=? j) && (j <? len) then Some (Z.to_nat j) else None.

(** [target[method](fragment)]; with an empty [:eq] match nothing is inserted. *)
Definition attach (m : InsertMethod) (fragment rows : list Row) : list Row :=
  match m with
  | Append => rows ++ fragment
  | Prepend => fragment ++ rows
  | Before i =>
      match eq_target (Z.of_nat (length rows)) i with
      | Some j => firstn j rows ++ fragment ++ skipn j rows
      | None => rows
      end
  | After i =>
      match eq_target (Z.of_nat (length rows)) i with
      | Some j => firstn (S j) rows ++ fragment ++ skipn (S j) rows
      | None => rows
      end
  end.

(** The shells of the rows [start .. end-1]: fresh nodes tagged with their
    index. *)
Definition shells (first : nat) (xs : list Z) : list Row :=
  map (fun xn => {| node := snd xn; row_idx := fst xn; row_id := None |})
      (combine xs (seq first (length xs))).

Definition set_row_id (n : nat) (id : Z) (l : list Row) : list Row :=
  map (fun r => if Nat.eqb (node r) n
                then {| node := node r; row_idx := row_idx r; row_id := Some id |}
                else r) l.

Fixpoint lookup_row (x : Z) (rows : list (Z * nat)) : option nat :=
  match rows with
  | [] => None
  | (y, n) :: t => if y =? x then Some n else lookup_row x t
  end.

Definition nth_record (l : list DataRecord) (i : Z) : option DataRecord :=
  if i <? 0 then None else nth_error l (Z.to_nat i).

(** The bounds of the loop of [populateRows]: a range inside the frozen top
    or bottom rows is populated in full, any other only where it meets the
    viewport. *)
Definition populate_bounds (start end' : Z) (s : Grid) : Z * Z :=
  let frozen := (end' <=? frozenRowsTop (options s))
                || (recordCount s - frozenRowsBottom (options s) <=? start) in
  (if frozen then start else Z.max start (begin (viewport s)),
   if frozen then end' else Z.min end' (end_ (viewport s))).

(** The loop of [populateRows] over the indices [xs], acting on the nodes
    [rows[x]] wherever they occur in [l]. The flag is [false] when the loop
    stops at an undefined record or row (a TypeError), with the rows before
    it populated. *)
Fixpoint populate_loop (dataSubset : list DataRecord) (start : Z)
    (rows : list (Z * nat)) (xs : list Z) (l : list Row) : list Row * bool :=
  match xs with
  | [] => (l, true)
  | x :: xs' =>
      match nth_record dataSubset (x - start), lookup_row x rows with
      | Some rec, Some n =>
          populate_loop dataSubset start rows xs' (set_row_id n (rec_id rec) l)
      | _, _ => (l, false)
      end
  end.

(** [populateRows(dataSubset)] on the rows of one container, with the
    viewport, record count and options of the grid at the time of the call. *)
Definition populateRows (dataSubset : list DataRecord) (start end' : Z)
    (rows : list (Z * nat)) (s : Grid) (l : list Row) : list Row * bool :=
  let '(x, vpEnd) := populate_bounds start end' s in
  populate_loop dataSubset start rows (index_range x vpEnd) l.

Definition renderRowGroupContents (start end' : Z) (rowgroup : RowGroup)
    (prepend : bool) (atIndex : option Z) (s : Grid) : result Grid :=
  let method := insert_method prepend atIndex in
  r <- getData (if start <? 0 then 0 else start) end' s ;;
  let '(dataSubset, s1) := r in
  _ <- new_Array (A := Row) (end' - start) ;;
  let xs := index_range start end' in
  let fragment := shells (nextNode s1) xs in
  let rows := combine xs (seq (nextNode s1) (length xs)) in
  let s2 := set_nextNode (nextNode s1 + length xs)%nat s1 in
  match dataSubset with
  | SyncData data =>
      let '(fragment', ok) := populateRows data start end' rows s2 fragment in
      if ok
      then OK (set_group_rows rowgroup
                 (attach method fragment' (group_rows rowgroup s2)) s2)
      else Throw TypeError
  | AsyncData workingDataSubset =>
      match dataSubscriptions s2 with
      | None => Throw TypeError
      | Some ref =>
          match nth_error (queues s2) ref with
          | None => Throw TypeError
          | Some q =>
              let continuation := queue ref q (PopulateRows start end' rows) in
              OK (set_group_rows rowgroup
                    (attach method fragment (group_rows rowgroup s2))
                    (set_pending
                       (pending s2 ++ [PendingData workingDataSubset continuation])
                       s2))
          end
      end
  end.

Definition is_among (rows : list Row) (r : Row) : bool :=
  existsb (fun d => Nat.eqb (node d) (node r)) rows.

Definition detach (rows : list Row) (l : list Row) : list Row :=
  filter (fun r => negb (is_among rows r)) l.

(** [destroyRows(rows)]: every node leaves its parent. *)
Definition destroyRows (rows : list Row) (s : Grid) : Grid :=
  set_disposed (disposed s ++ rows)
    (set_footergroup (detach rows (footergroup s))
       (set_scrollinggroup (detach rows (scrollinggroup s))
          (set_headergroup (detach rows (headergroup s)) s))).

(** [group.all.forEach(empty)] *)
Definition empty_group (g : RowGroup) (s : Grid) : Grid :=
  set_disposed (disposed s ++ group_rows g s) (set_group_rows g [] s).

Definition increment_idx (start offset : Z) (r : Row) : Row :=
  if start <=? row_idx r
  then {| node := node r; row_idx := row_idx r + offset; row_id := row_id r |}
  else r.

(** [_incrementRowIndexes(start, offset)]: the query reaches the rows of
    every row group of the container. *)
Definition _incrementRowIndexes (start offset : Z) (s : Grid) : Grid :=
  set_footergroup (map (increment_idx start offset) (footergroup s))
    (set_scrollinggroup (map (increment_idx start offset) (scrollinggroup s))
       (set_headergroup (map (increment_idx start offset) (headergroup s)) s)).

(** ** The consistency check of the grid *)



Definition is_undefined {A : Type} (a : list (option A)) (i : Z) : bool :=
  match array_get a i with
  | Some _ => false
  | None => true
  end.

(** [verify()] itself fails, with a TypeError, when the row count matches and
    the working set has no entry at the index of one of the rows: the check
    reads [this.workingSet[viewport.begin + r].record]. *)
Definition verify_TypeError (s : Grid) : bool :=
  (Z.of_nat (length (scrollinggroup s)) =? end_ (viewport s) - begin (viewport s))
  && existsb (fun r => is_undefined (workingSet s) (begin (viewport s) + r))
       (index_range 0 (Z.of_nat (length (scrollinggroup s)))).

(** [if (debug) this.verify()], with [debug] the constant [true] of the
    module: errors found are logged, and the state is left as it is. *)
Definition debug_verify (s : Grid) : result Grid :=
  if verify_TypeError s then Throw TypeError else OK s.

(** ** Render batch scheduler (the one flag the handlers below set) *)

Definition queueUpdateViewport (s : Grid) : Grid := set_updateViewportQueued true s.

(** ** Viewport update *)

(** [this.previousViewport]: a property no method of the class ever assigns
    (the constant [previousViewport] of [setViewport] is a local binding). *)
Definition this_previousViewport (s : Grid) : option Range := None.

Definition setViewport (range : Range) (s : Grid) : result Grid :=
  let start := frozenRowsTop (options s) in
  let end' := getRecordCount s - frozenRowsBottom (options s) in
  let previousViewport := viewport s in
  let s := set_viewport range s in
  s <- (if match this_previousViewport s with None => true | Some _ => false end
           || negb (begin range =? begin previousViewport)
           || negb (end_ range =? end_ previousViewport)
        then
          if overlap range previousViewport
          then
            s1 <- (if begin range <? begin previousViewport
                   then renderRowGroupContents
                          (Z.max start (begin range))
                          (Z.min (end_ range) (begin previousViewport))
                          ScrollingGroup true None s
                   else if begin previousViewport <? begin range
                   then OK (destroyRows
                              (js_slice (scrollinggroup s) 0
                                        (begin range - begin previousViewport)) s)
                   else OK s) ;;
            if (end_ range <? end_ previousViewport)
               && (begin previousViewport <? end_ range)
            then OK (destroyRows
                       (js_slice_from (scrollinggroup s1) (end_ range - begin range)) s1)
            else if end_ previousViewport <? end_ range
            then renderRowGroupContents
                   (Z.max (end_ previousViewport) (begin range))
                   (Z.min (end_ range) end')
                   ScrollingGroup false None s1
            else OK s1
          else
            let s1 := empty_group ScrollingGroup s in
            let scrollingStart := Z.max start (begin range) in
            let scrollingEnd := Z.min (end_ range) end' in
            if scrollingStart <? scrollingEnd
            then renderRowGroupContents scrollingStart scrollingEnd
                   ScrollingGroup false None s1
            else OK s1
        else OK s) ;;
  debug_verify s.

(** The two ranges [updateViewportImmediate] computes from the scroll
    position. *)
Definition visibleRows (s : Grid) : Range :=
  rowsInView s (scrollTop s) (scrollTop s + scrollAreaHeight s)
    (frozenRowsTop (options s))
    (getRecordCount s - frozenRowsBottom (options s)).

Definition rowsInViewWithExcess (s : Grid) : Range :=
  {| begin := Z.max (frozenRowsTop (options s))
                (begin (visibleRows s) - virtualScrollingExcess (options s));
     end_ := Z.min (getRecordCount s - frozenRowsBottom (options s))
               (end_ (visibleRows s) + virtualScrollingExcess (options s)) |}.

(** [updateViewportImmediate(renderExcess)]. The first pass also schedules
    the second, [updateViewportImmediate(true)], for the next time slot. *)
Definition updateViewportImmediate (renderExcess : bool) (s : Grid) : result Grid :=
  let rowsInView := visibleRows s in
  let range :=
    if negb renderExcess
    then if overlap (viewport s) (rowsInViewWithExcess s)
         then {| begin := Z.min (begin rowsInView) (begin (viewport s));
                 end_ := Z.max (end_ rowsInView) (end_ (viewport s)) |}
         else rowsInView
    else rowsInViewWithExcess s in
  setViewport range s.

(** ** Mutation handler *)

(** [n - o] where [o] is an object: the object converts to [NaN], and so
    does the difference. *)
Definition minus_object (n : Z) (o : Range) : JsNumber := JsNaN.

Definition _removeRows (start end' : Z) (s : Grid) : result Grid :=
  if (recordCount s <? end') || (end' <? start) then Throw IndexMismatch
  else
    let s := set_recordCount (recordCount s - (end' - start)) s in
    let s := set_workingSet (js_splice (workingSet s) start (end' - start)) s in
    let s :=
      if end' <=? begin (viewport s)
      then
        (* deleted rows come before the viewport *)
        let s := set_viewport {| begin := begin (viewport s) - (end' - start);
                                 end_ := end_ (viewport s) - (end' - start) |} s in
        _incrementRowIndexes start (start - end') s
      else if (begin (viewport s) <? end') && (start <? end_ (viewport s))
      then
        (* deleted block has overlap with the current viewport *)
        let children := scrollinggroup s in
        let children :=
          if end' <? end_ (viewport s)
          then js_slice children 0 (end' - begin (viewport s))
          else children in
        let children :=
          if begin (viewport s) <? start
          then js_slice_from children (toInteger (minus_object start (viewport s)))
          else children in
        let s := destroyRows children s in
        let s :=
          if end' <? end_ (viewport s)
          then _incrementRowIndexes start (start - end') s
          else s in
        let s :=
          if start <? begin (viewport s)
          then set_viewport {| begin := start; end_ := end_ (viewport s) |} s
          else s in
        if end_ (viewport s) <=? end'
        then set_viewport {| begin := begin (viewport s);
                             end_ := Z.max start (begin (viewport s)) |} s
        else set_viewport {| begin := begin (viewport s);
                             end_ := end_ (viewport s) - (end' - start) |} s
      else s in
    s <- debug_verify s ;;
    OK (queueUpdateViewport s).

(** The branch of [_addRows] for new rows within the current viewport: the
    rows are added to the grid; excess rows are truncated by the viewport
    update that follows. *)
Definition addRows_within_viewport (start end' : Z) (s : Grid) : result Grid :=
  (* adding rows can have an effect on the viewport, so predict it *)
  let viewRange := viewRange s in
  let renderEnd := Z.min (Z.max (end_ viewRange) (end_ (viewport s))) end' in
  let renderStart := Z.max (begin (viewport s)) start in
  let renderCount := renderEnd - renderStart in
  let s :=
    if negb (renderEnd =? renderStart + end' - start)
    then
      (* not contiguous: remove all rows from the insertion point on *)
      let startIndexForDeletion := renderStart - begin (viewport s) in
      let rows :=
        if 0 <? startIndexForDeletion
        then (* ".pg-row:gt(startIndexForDeletion - 1)" *)
             skipn (Z.to_nat startIndexForDeletion) (scrollinggroup s)
        else scrollinggroup s in
      let s := destroyRows rows s in
      set_viewport {| begin := begin (viewport s); end_ := renderStart |} s
    else s in
  let s := _incrementRowIndexes start (end' - start) s in
  let s := set_viewport {| begin := begin (viewport s);
                           end_ := end_ (viewport s) + renderCount |} s in
  if renderEnd =? end_ (viewport s)
  then renderRowGroupContents renderStart renderEnd ScrollingGroup false None s
  else renderRowGroupContents renderStart renderEnd ScrollingGroup true
         (Some (renderStart - begin (viewport s))) s.

Definition _addRows (start end' : Z) (s : Grid) : result Grid :=
  if recordCount s <? start then Throw IndexMismatch
  else
    let s := set_recordCount (recordCount s + (end' - start)) s in
    holes <- new_Array (end' - start) ;;
    let s := set_workingSet
               (js_slice (workingSet s) 0 start ++ holes
                ++ js_slice_from (workingSet s) start) s in
    s <- (if (begin (viewport s) <=? end') && (start <? end_ (viewport s))
          then addRows_within_viewport start end' s
          else if end' <? begin (viewport s)
          then
            (* the new rows are inserted before the current viewport *)
            let s := set_viewport {| begin := begin (viewport s) + (end' - start);
                                     end_ := end_ (viewport s) + (end' - start) |} s in
            OK (_incrementRowIndexes start (end' - start) s)
          else OK s) ;;
    s <- debug_verify s ;;
    OK (queueUpdateViewport s).

(** The listeners [init] registers on the data source: the handler's
    exception is the listener's. *)
Definition on_rowsremoved (start end' : Z) (s : Grid) : result Grid :=
  s <- _removeRows start end' s ;;
  OK (queueUpdateViewport s).

Definition on_rowsadded (start end' : Z) (s : Grid) : result Grid :=
  s <- _addRows start end' s ;;
  OK (queueUpdateViewport s).

(** ** Data subscriptions and rendering of the data *)

Fixpoint cancel_at (ref : nat) (qs : list SubscriptionQueue) : list SubscriptionQueue :=
  match ref, qs with
  | _, [] => []
  | O, q :: t => cancel q :: t
  | S k, q :: t => q :: cancel_at k t
  end.

Definition resetDataSubscriptions (s : Grid) : Grid :=
  let qs := match dataSubscriptions s with
            | Some ref => cancel_at ref (queues s)
            | None => queues s
            end in
  set_dataSubscriptions (Some (length qs)) (set_queues (qs ++ [new_SubscriptionQueue]) s).

(** [this.dataSubscriptions.queue(callback)] *)
Definition queue_callback (cb : Callback) (s : Grid) : result Wrapped :=
  match dataSubscriptions s with
  | None => Throw TypeError
  | Some ref =>
      match nth_error (queues s) ref with
      | None => Throw TypeError
      | Some q => OK (queue ref q cb)
      end
  end.

Definition has_headergroup (s : Grid) : bool := negb (frozenRowsTop (options s) =? 0).
Definition has_footergroup (s : Grid) : bool := negb (frozenRowsBottom (options s) =? 0).

(** [renderData()]: the work is the callback of the record count promise. *)
Definition renderData (s : Grid) : result Grid :=
  w <- queue_callback RenderDataCallback s ;;
  OK (set_pending (pending s ++ [PendingRecordCount w]) s).

(** The callback of [renderData], called with the record count. *)
Definition renderData_callback (recordCount' : Z) (s : Grid) : result Grid :=
  let s := if has_headergroup s then empty_group HeaderGroup s else s in
  let s := if has_footergroup s then empty_group FooterGroup s else s in
  let s := set_recordCount recordCount' s in
  let s := resetDataSubscriptions s in
  ws <- new_Array recordCount' ;;
  let s := set_workingSet ws s in
  s <- setViewport {| begin := 0; end_ := 0 |} s ;;
  s <- (if has_headergroup s
        then renderRowGroupContents 0 (frozenRowsTop (options s)) HeaderGroup false None s
        else OK s) ;;
  s <- (if has_footergroup s
        then renderRowGroupContents (recordCount' - frozenRowsBottom (options s))
               recordCount' FooterGroup false None s
        else OK s) ;;
  OK (queueUpdateViewport s).

(** [populateRows] called later, on the rows wherever they are attached. *)
Definition populateRows_attached (dataSubset : list DataRecord) (start end' : Z)
    (rows : list (Z * nat)) (s : Grid) : Grid :=
  set_footergroup (fst (populateRows dataSubset start end' rows s (footergroup s)))
    (set_scrollinggroup (fst (populateRows dataSubset start end' rows s (scrollinggroup s)))
       (set_headergroup (fst (populateRows dataSubset start end' rows s (headergroup s))) s)).

(** Invoking a wrapped callback: the callback runs only if its generation is
    still the current one of its queue. *)
Definition invoke (w : Wrapped) (run : Callback -> Grid -> result Grid) (s : Grid)
  : result Grid :=
  if still_current (queues s) w then run (w_callback w) s else OK s.

Definition remove_nth {A : Type} (k : nat) (l : list A) : list A :=
  firstn k l ++ skipn (S k) l.

(** The [k]-th pending promise resolves with an array of records:
    [processData] runs first (it is not queued), then the wrapped
    [populateRows]; an exception of either is logged by the [catch]. *)
Definition resolve_data (k : nat) (data : list DataRecord) (s : Grid) : result Grid :=
  match nth_error (pending s) k with
  | Some (PendingData workingDataSubset w) =>
      let s := set_pending (remove_nth k (pending s)) s in
      let '(ws, ok) := processData workingDataSubset data (workingSet s) in
      let s := set_workingSet ws s in
      if ok
      then invoke w (fun cb s =>
                       match cb with
                       | PopulateRows start end' rows =>
                           OK (populateRows_attached data start end' rows s)
                       | RenderDataCallback => OK s
                       end) s
      else OK s
  | _ => OK s
  end.

(** The [k]-th pending promise resolves with the record count. *)
Definition resolve_recordCount (k : nat) (count : Z) (s : Grid) : result Grid :=
  match nth_error (pending s) k with
  | Some (PendingRecordCount w) =>
      let s := set_pending (remove_nth k (pending s)) s in
      invoke w (fun cb s =>
                  match cb with
                  | RenderDataCallback => renderData_callback count s
                  | PopulateRows _ _ _ => OK s
                  end) s
  | _ => OK s
  end.

(** [scrollTo(x, y)], the vertical part; the viewport update it triggers is
    [updateViewportImmediate], first pass then second. *)
Definition scrollTo (y : Z) (s : Grid) : Grid :=
  mkGrid (options s) (dataSource s) (recordCount s) (workingSet s) (viewport s)
    (headergroup s) (scrollinggroup s) (footergroup s) (Z.max 0 y)
    (scrollAreaHeight s) (nextNode s) (nextEntry s) (disposed s) (queues s)
    (dataSubscriptions s) (pending s) (updateViewportQueued s).

(** ** The invariant of the grid *)

Definition Z_list_eqb (a b : list Z) : bool :=
  (Nat.eqb (length a) (length b))
  && forallb (fun p => fst p =? snd p) (combine a b).



(** ** Summarizing data source *)

Module SummarizingDataSource.

(** Modelled from the spec: [utils.map] ([utils.js] is not among the
    sources). The data source interface answers [recordCount] and [getData]
    with a value or with a promise of it; [map] applies a function to the
    value in either form, and a promise returned by the function is
    chained. *)
Inductive Deferred (A : Type) : Type :=
| Now (a : A)
| Later (a : A).              (* a promise that resolves to [a] *)
Arguments Now {A} a.
Arguments Later {A} a.

Definition resolved {A : Type} (d : Deferred A) : A :=
  match d with Now a => a | Later a => a end.

Definition is_promise {A : Type} (d : Deferred A) : bool :=
  match d with Now _ => false | Later _ => true end.

Definition utils_map {A B : Type} (d : Deferred A) (f : A -> B) : Deferred B :=
  match d with
  | Now a => Now (f a)
  | Later a => Later (f a)
  end.

(** [utils.map] with a function that may itself answer with a promise. *)
Definition utils_map_then {A B : Type} (d : Deferred A) (f : A -> Deferred B)
  : Deferred B :=
  match d with
  | Now a => f a
  | Later a => Later (resolved (f a))
  end.

Inductive RowId : Type :=
| Id (z : Z)
| SUMMARY_ROW_ID.             (* "summary_row" *)

Record SummaryRecord : Type := mkSummaryRecord { id : RowId; value : Z }.

(** What the summarizing data source uses of its delegate; the summary row
    is the one of the summary factory or of the delegate's own
    [getSummaryRow]. *)
Class Delegate (D : Type) : Type := {
  delegate_recordCount : D -> Deferred Z;
  delegate_getData : D -> option Z -> option Z -> Deferred (list SummaryRecord);
  delegate_getSummaryRow : D -> Deferred SummaryRecord
}.

(** [SyncTreeGridDataSource], by its flat [view] of records:
    [recordCount] is [view.length], [getData] is
    [view.slice(start || 0, end)]. *)
Record SyncView : Type := mkSyncView {
  view : list SummaryRecord;
  view_summary : SummaryRecord
}.

Definition view_slice (l : list SummaryRecord) (start end' : option Z)
  : list SummaryRecord :=
  let from := match start with Some a => js_or a 0 | None => 0 end in
  match end' with
  | Some b => js_slice l from b
  | None => js_slice_from l from
  end.

#[global] Instance SyncView_Delegate : Delegate SyncView := {
  delegate_recordCount d := Now (Z.of_nat (length (view d)));
  delegate_getData d start end' := Now (view_slice (view d) start end');
  delegate_getSummaryRow d := Now (view_summary d)
}.

Section Summarizing.
Context {D : Type} `{Delegate D}.

(** [getSummaryRow()]: the row of the delegate, with its id overwritten. *)
Definition getSummaryRow (d : D) : Deferred SummaryRecord :=
  utils_map (delegate_getSummaryRow d)
    (fun sr => {| id := SUMMARY_ROW_ID; value := value sr |}).

Definition recordCount (d : D) : Deferred Z :=
  utils_map (delegate_recordCount d) (fun rc => rc + 1).

Definition getData (d : D) (start end' : option Z)
  : Deferred (list SummaryRecord) :=
  utils_map_then (delegate_recordCount d) (fun rc =>
    if match start with Some a => a =? rc | None => false end
    then utils_map (getSummaryRow d) (fun r => [r])
    else if match start, end' with
            | None, None => true
            | _, Some b => rc <? b
            | _, None => false
            end
    then
      let r := delegate_getData d start end' in
      let s := getSummaryRow d in
      if is_promise r || is_promise s
      then Later (resolved r ++ [resolved s])
      else Now (resolved r ++ [resolved s])
    else delegate_getData d start end').
End Summarizing.

End SummarizingDataSource.

(** ** Scenarios *)

Module Scenario.

(** A synchronous source whose row [i] has the id [1000 + i]. *)
Definition source : DataSource :=
  {| synchronous := true; source_row := fun i => {| rec_id := 1000 + i; rec_value := i |} |}.

Definition promised : DataSource :=
  {| synchronous := false; source_row := fun i => {| rec_id := 1000 + i; rec_value := i |} |}.

(** The grid when [init] has run on a ready data source: no rows, a first
    subscription queue, and the empty viewport. *)
Definition init (o : Options) (ds : DataSource) (height : Z) : Grid :=
  resetDataSubscriptions
    {| options := o; dataSource := ds; recordCount := 0; workingSet := [];
       viewport := {| begin := 0; end_ := 0 |};
       headergroup := []; scrollinggroup := []; footergroup := [];
       scrollTop := 0; scrollAreaHeight := height;
       nextNode := 0; nextEntry := 0; disposed := [];
       queues := []; dataSubscriptions := None; pending := [];
       updateViewportQueued := false |}.

(** A grid of [n] records, [height] pixels high, showing the rows of
    [range]. *)
Definition showing (o : Options) (n height : Z) (range : Range) : result Grid :=
  s <- renderData_callback n (init o source height) ;;
  setViewport range s.

(** The same grid after the scroller has moved to [y]. *)
Definition scrolled (o : Options) (n height : Z) (range : Range) (y : Z) : result Grid :=
  s <- showing o n height range ;;
  OK (scrollTo y s).

(** The same over a source that answers with promises: the rows of [range]
    are empty shells, waiting for their data. *)
Definition fetching (o : Options) (n height : Z) (range : Range) : result Grid :=
  s <- renderData_callback n (init o promised height) ;;
  setViewport range s.


(** Ten records of the source, from row 0. *)
Definition ten_records : list DataRecord := source_getData source 0 10.

Definition no_excess : Options :=
  {| virtualScrollingExcess := 0; frozenRowsTop := 0; frozenRowsBottom := 0;
     rowHeightOption := 31 |}.

Definition one_frozen_row : Options :=
  {| virtualScrollingExcess := 10; frozenRowsTop := 1; frozenRowsBottom := 0;
     rowHeightOption := 31 |}.

End Scenario.

(** ** Conditions on the grid *)

(** The working set has an entry for every row of the viewport. *)
Definition viewport_loaded (s : Grid) : bool :=
  forallb (fun i => negb (is_undefined (workingSet s) i))
    (index_range (begin (viewport s)) (end_ (viewport s))).

(** The grid has its subscription queue. *)
Definition subscribed (s : Grid) : bool :=
  match dataSubscriptions s with
  | Some ref => match nth_error (queues s) ref with
                | Some _ => true
                | None => false
                end
  | None => false
  end.

(** The range lies between the frozen rows. *)
Definition between_frozen_rows (s : Grid) (r : Range) : Prop :=
  frozenRowsTop (options s) <= begin r
  /\ begin r <= end_ r
  /\ end_ r <= recordCount s - frozenRowsBottom (options s).

(** The smallest range that contains both. *)
Definition hull (a b : Range) : Range :=
  {| begin := Z.min (begin a) (begin b); end_ := Z.max (end_ a) (end_ b) |}.

(** The part of the grid that rendering and destroying rows never touch. *)
Definition same_environment (s s' : Grid) : Prop :=
  options s' = options s /\ dataSource s' = dataSource s
  /\ scrollTop s' = scrollTop s /\ scrollAreaHeight s' = scrollAreaHeight s
  /\ queues s' = queues s /\ dataSubscriptions s' = dataSubscriptions s.

(** Rendering rows leaves the record count, the viewport and the destroyed
    rows as they are, too. *)
Definition render_frame (s s' : Grid) : Prop :=
  same_environment s s'
  /\ recordCount s' = recordCount s /\ viewport s' = viewport s
  /\ disposed s' = disposed s /\ updateViewportQueued s' = updateViewportQueued s.

(** The steps of a viewport patch keep the viewport they are given. *)
Definition keeps_viewport (s s' : Grid) : Prop :=
  same_environment s s' /\ viewport s' = viewport s /\ recordCount s' = recordCount s.



(** The wrapper belongs to the current queue of the grid, at its current
    generation. *)
Definition current (w : Wrapped) (s : Grid) : Prop :=
  dataSubscriptions s = Some (w_queue w)
  /\ exists q, nth_error (queues s) (w_queue w) = Some q
               /\ generation q = w_generation w.

(** The row of a fragment after [populateRows] has visited the indices
    [xs]. *)
Definition populated (ds : DataSource) (xs : list Z) (row : Row) : Row :=
  if existsb (Z.eqb (row_idx row)) xs
  then {| node := node row; row_idx := row_idx row;
          row_id := Some (rec_id (source_row ds (row_idx row))) |}
  else row.

(** The rows of the scrolling group are those of [a .. b-1], in order, each
    a node of its own among the nodes created so far. *)
Definition window_materialized (s : Grid) (a b : Z) : Prop :=
  map row_idx (scrollinggroup s) = index_range a b
  /\ NoDup (map node (scrollinggroup s))
  /\ Forall (fun n => (n < nextNode s)%nat) (map node (scrollinggroup s)).

(** No node occurs twice. *)
Fixpoint distinct (l : list nat) : bool :=
  match l with
  | [] => true
  | n :: t => negb (existsb (Nat.eqb n) t) && distinct t
  end.

(** The rows of the scrolling group are those of the viewport, as a check. *)
Definition rows_materialized (s : Grid) : bool :=
  Z_list_eqb (map row_idx (scrollinggroup s))
             (index_range (begin (viewport s)) (end_ (viewport s)))
  && distinct (map node (scrollinggroup s))
  && forallb (fun n => (n <? nextNode s)%nat) (map node (scrollinggroup s)).

(** ** Runs of the grid *)

(** What happens to a grid: the events of the scroller and of the data
    source, the scheduled viewport updates, and the promises that resolve. *)
Inductive Event : Type :=
| Scrolled (y : Z)
| ViewportUpdate (renderExcess : bool)
| ViewportSet (range : Range)
| RowsRemoved (start end' : Z)
| RowsAdded (start end' : Z)
| DataLoaded
| DataRendering
| DataResolved (k : nat) (data : list DataRecord)
| RecordCountResolved (k : nat) (count : Z).

Definition handle (e : Event) (s : Grid) : result Grid :=
  match e with
  | Scrolled y => OK (scrollTo y s)
  | ViewportUpdate renderExcess => updateViewportImmediate renderExcess s
  | ViewportSet range => setViewport range s
  | RowsRemoved start end' => on_rowsremoved start end' s
  | RowsAdded start end' => on_rowsadded start end' s
  | DataLoaded => OK (resetDataSubscriptions s)
  | DataRendering => renderData s
  | DataResolved k data => resolve_data k data s
  | RecordCountResolved k count => resolve_recordCount k count s
  end.

(** A run: a sequence of events whose handlers return. *)
Inductive run : Grid -> Grid -> Prop :=
| run_done (s : Grid) : run s s
| run_event (e : Event) (s s' s'' : Grid) :
    handle e s = OK s' -> run s' s'' -> run s s''.

(** ** More of the grid: synchronous data, rows in view, row groups *)


(** The loop of [getDataSync]: [this.workingSet[i] = {record: result[x]}],
    a new entry object for every record. *)
Fixpoint store_records (ws : list (option WorkingSetEntry)) (i : Z) (e : nat)
    (records : list DataRecord) : list (option WorkingSetEntry) :=
  match records with
  | [] => ws
  | r :: rest =>
      store_records (array_set ws i {| entry := e; record := Some r |}) (i + 1) (S e) rest
  end.

(** [Error("This method requires a synchronous datasource.")] *)
Inductive GetDataSyncError : Type := SynchronousRequired.

(** [getDataSync(start, end)] *)
Definition getDataSync (start end' : Z) (s : Grid)
  : (list DataRecord * Grid) + GetDataSyncError :=
  if synchronous (dataSource s)
  then
    let result_ := source_getData (dataSource s) start end' in
    inl (result_,
         set_nextEntry (nextEntry s + length result_)%nat
           (set_workingSet
              (store_records (workingSet s) (js_or start 0) (nextEntry s) result_) s))
  else inr SynchronousRequired.

(** Every entry of the working set is one of the entry objects created so
    far. *)
Definition entries_allocated (s : Grid) : bool :=
  forallb (fun o => match o with
                    | Some e => (entry e <? nextEntry s)%nat
                    | None => true
                    end) (workingSet s).



(** The lower edge of the row [x], in pixels from the upper edge of the row
    [start]: every row is [rowHeight] high. *)
Definition lower_edge (s : Grid) (start x : Z) : Z :=
  (x - start + 1) * rowHeightOption (options s).

(** [getRowGroupFor(rowIndex)] *)
Definition getRowGroupFor (s : Grid) (rowIndex : Z) : RowGroup :=
  if rowIndex <? frozenRowsTop (options s) then HeaderGroup
  else if getRecordCount s - frozenRowsBottom (options s) <? rowIndex then FooterGroup
  else ScrollingGroup.

(** ** Tree grid data source *)

Module SyncTreeGridDataSource.

(** A record of the tree source. The tree source is a collaborator of this
    data source: it is taken to hold a finite tree, given by its root nodes,
    [children(node)] being the children of the node and [getRecordById] the
    first record with the id in document order. *)
#[warnings="-register-all"]
Inductive TreeRecord : Type :=
| TreeNode (id : Z) (children : list TreeRecord).

Definition id (row : TreeRecord) : Z :=
  match row with TreeNode i _ => i end.

(** [treesource.children(node)] *)
Definition children (row : TreeRecord) : list TreeRecord :=
  match row with TreeNode _ cs => cs end.

(** A node of the view, [{record: node, level: level}], an object. *)
Record ViewNode : Type := mkViewNode {
  obj : nat;                          (* identity of the object *)
  record : TreeRecord;
  level : Z
}.

Inductive Event : Type :=
| dataloaded
| rowsadded (start end_ : Z)
| rowsremoved (start end_ : Z)
| treetoggled (id : Z) (index : Z) (state : bool).

Record DataSource : Type := mkDataSource {
  treesource : list TreeRecord;       (* treesource.getRootNodes() *)
  expandedById : list (Z * bool);
  nodesById : list (Z * ViewNode);
  view : option (list ViewNode);      (* undefined until load() *)
  nextObj : nat;                      (* view nodes created so far *)
  triggered : list Event              (* the events triggered so far *)
}.

(** [o[key]] on an object used as a map: the last value assigned. *)
Fixpoint lookup {A : Type} (key : Z) (o : list (Z * A)) : option A :=
  match o with
  | [] => None
  | (k, v) :: t => if k =? key then Some v else lookup key t
  end.

Definition set_expandedById (v : list (Z * bool)) (s : DataSource) : DataSource :=
  mkDataSource (treesource s) v (nodesById s) (view s) (nextObj s) (triggered s).

Definition set_view (v : list ViewNode) (s : DataSource) : DataSource :=
  mkDataSource (treesource s) (expandedById s) (nodesById s) (Some v) (nextObj s)
    (triggered s).

Definition trigger (e : Event) (s : DataSource) : DataSource :=
  mkDataSource (treesource s) (expandedById s) (nodesById s) (view s) (nextObj s)
    (triggered s ++ [e]).

(** [isExpanded(row)]: [expandedById[row.id] === true] *)
Definition isExpanded (expanded : list (Z * bool)) (row : TreeRecord) : bool :=
  match lookup (id row) expanded with
  | Some true => true
  | _ => false
  end.

(** [findNodeForRowId(id)] *)
Definition findNodeForRowId (s : DataSource) (i : Z) : option ViewNode :=
  lookup i (nodesById s).

(** The list, the index of nodes and the object counter while [flattenTree]
    walks the tree. *)
Record Walk : Type := mkWalk {
  list_ : list ViewNode;
  byId : list (Z * ViewNode);
  next : nat
}.

(** The inner function [flatten] of [flattenTree], for one node of its loop:
    the node is pushed and registered, then its children if it is
    expanded. *)
Fixpoint flatten (expanded : list (Z * bool)) (level : Z) (node : TreeRecord)
    (w : Walk) : Walk :=
  let n := {| obj := next w; record := node; level := level |} in
  let w := {| list_ := list_ w ++ [n]; byId := (id node, n) :: byId w; next := S (next w) |} in
  if isExpanded expanded node
  then match node with
       | TreeNode _ cs =>
           fold_left (fun w c => flatten expanded (level + 1) c w) cs w
       end
  else w.

(** [flattenTree(nodes, level)] *)
Definition flattenTree (nodes : list TreeRecord) (level : Z) (s : DataSource)
  : list ViewNode * DataSource :=
  let w := fold_left (fun w c => flatten (expandedById s) level c w) nodes
             {| list_ := []; byId := nodesById s; next := nextObj s |} in
  (list_ w,
   mkDataSource (treesource s) (expandedById s) (byId w) (view s) (next w) (triggered s)).

(** [load()] *)
Definition load (s : DataSource) : DataSource :=
  let s := mkDataSource (treesource s) (expandedById s) [] (view s) (nextObj s)
             (triggered s) in
  let '(v, s) := flattenTree (treesource s) 0 s in
  trigger dataloaded (set_view v s).

(** The data source when the constructor has run on a ready tree source. *)
Definition SyncTreeGridDataSource (roots : list TreeRecord) : DataSource :=
  load (mkDataSource roots [] [] None 0 []).

(** [isReady()] *)
Definition isReady (s : DataSource) : bool :=
  match view s with Some _ => true | None => false end.

(** [view.indexOf(node)], by the identity of the object; [-1] when the node
    is undefined or not in the view. *)
Fixpoint indexOf_from (o : nat) (v : list ViewNode) (i : Z) : Z :=
  match v with
  | [] => -1
  | n :: t => if Nat.eqb (obj n) o then i else indexOf_from o t (i + 1)
  end.

Definition indexOf (node : option ViewNode) (v : list ViewNode) : Z :=
  match node with
  | Some n => indexOf_from (obj n) v 0
  | None => -1
  end.

(** [getTreeLevel(row)] *)
Definition getTreeLevel (s : DataSource) (row : TreeRecord) : result Z :=
  match findNodeForRowId s (id row) with
  | Some n => OK (level n)
  | None => Throw TypeError
  end.

(** [getData(start, end)] *)
Definition getData (s : DataSource) (start end' : option Z) : result (list TreeRecord) :=
  match view s with
  | None => Throw TypeError
  | Some v =>
      let from := match start with Some a => js_or a 0 | None => 0 end in
      OK (map record (match end' with
                      | Some b => js_slice v from b
                      | None => js_slice_from v from
                      end))
  end.

(** [recordCount()] *)
Definition recordCount (s : DataSource) : result Z :=
  match view s with
  | None => Throw TypeError
  | Some v => OK (Z.of_nat (length v))
  end.

(** [expand(row)] *)
Definition expand (row : TreeRecord) (s : DataSource) : result DataSource :=
  if negb (isExpanded (expandedById s) row)
  then
    let s := set_expandedById ((id row, true) :: expandedById s) s in
    let node := findNodeForRowId s (id row) in
    match view s with
    | None => Throw TypeError
    | Some v =>
        let idx := indexOf node v + 1 in
        s <- (if 0 <? idx
              then match node with
                   | None => Throw TypeError
                   | Some n =>
                       let '(subtree, s) := flattenTree (children row) (level n + 1) s in
                       let s := set_view (js_slice v 0 idx ++ subtree ++ js_slice_from v idx) s in
                       OK (trigger (rowsadded idx (idx + Z.of_nat (length subtree))) s)
                   end
              else OK s) ;;
        OK (trigger (treetoggled (id row) idx true) s)
    end
  else OK s.

(** The loop of [collapse]: the nodes from [endIdx] on that lie deeper than
    the collapsed node. *)
Fixpoint deeper (lvl : Z) (v : list ViewNode) : nat :=
  match v with
  | [] => O
  | n :: t => if lvl <? level n then S (deeper lvl t) else O
  end.

(** [collapse(row)] *)
Definition collapse (row : TreeRecord) (s : DataSource) : result DataSource :=
  if isExpanded (expandedById s) row
  then
    let s := set_expandedById ((id row, false) :: expandedById s) s in
    let node := findNodeForRowId s (id row) in
    match view s with
    | None => Throw TypeError
    | Some v =>
        let startIdx := indexOf node v + 1 in
        s <- (if 0 <? startIdx
              then match node with
                   | None => Throw TypeError
                   | Some n =>
                       let endIdx :=
                         startIdx + Z.of_nat (deeper (level n) (js_slice_from v startIdx)) in
                       let s := set_view (js_splice v startIdx (endIdx - startIdx)) s in
                       OK (trigger (rowsremoved startIdx endIdx) s)
                   end
              else OK s) ;;
        OK (trigger (treetoggled (id row) startIdx false) s)
    end
  else OK s.

(** [treesource.getRecordById(id)] *)
Fixpoint getRecordById_in (i : Z) (node : TreeRecord) : option TreeRecord :=
  match node with
  | TreeNode j cs =>
      if j =? i then Some node
      else (fix among (nodes : list TreeRecord) : option TreeRecord :=
              match nodes with
              | [] => None
              | c :: rest =>
                  match getRecordById_in i c with
                  | Some r => Some r
                  | None => among rest
                  end
              end) cs
  end.

Fixpoint getRecordById_among (i : Z) (nodes : list TreeRecord) : option TreeRecord :=
  match nodes with
  | [] => None
  | c :: rest =>
      match getRecordById_in i c with
      | Some r => Some r
      | None => getRecordById_among i rest
      end
  end.

Definition getRecordById (s : DataSource) (i : Z) : option TreeRecord :=
  getRecordById_among i (treesource s).

(** [toggle(rowId)] *)
Definition toggle (rowId : Z) (s : DataSource) : result DataSource :=
  match getRecordById s rowId with
  | None => Throw TypeError
  | Some row =>
      if isExpanded (expandedById s) row then collapse row s else expand row s
  end.

(** The loop [for (x = 0; x < nodes.length; x++)] of the inner functions of
    [expandAll] and [expandToLevel], [f] being its body. *)
Definition each {A S : Type} (f : A -> S -> result S) : list A -> S -> result S :=
  fix each (nodes : list A) (s : S) : result S :=
    match nodes with
    | [] => OK s
    | node :: rest =>
        match f node s with
        | OK s' => each rest s'
        | Throw e => Throw e
        end
    end.

(** The inner function [expand] of [expandAll], for one node of its loop;
    [hasChildren] is [treesource.hasChildren]. *)
Fixpoint expandAll_node (hasChildren : TreeRecord -> bool) (node : TreeRecord)
    (s : DataSource) : result DataSource :=
  s <- expand node s ;;
  if hasChildren node
  then match node with
       | TreeNode _ cs => each (expandAll_node hasChildren) cs s
       end
  else OK s.

(** [expandAll(rowId)]: without a row id, or with the row id zero, the
    root nodes. *)
Definition expandAll (hasChildren : TreeRecord -> bool) (rowId : option Z)
    (s : DataSource) : result DataSource :=
  let roots := each (expandAll_node hasChildren) (treesource s) s in
  match rowId with
  | None => roots
  | Some i =>
      if i =? 0 then roots
      else match getRecordById s i with
           | Some row => each (expandAll_node hasChildren) [row] s
           | None => Throw TypeError
           end
  end.

(** The inner function [expand] of [expandToLevel], for one node of its
    loop. *)
Fixpoint expandToLevel_node (depth : Z) (node : TreeRecord) (s : DataSource)
  : result DataSource :=
  s <- expand node s ;;
  if 1 <? depth
  then match node with
       | TreeNode _ cs => each (expandToLevel_node (depth - 1)) cs s
       end
  else OK s.

(** [expandToLevel(depth)] *)
Definition expandToLevel (depth : Z) (s : DataSource) : result DataSource :=
  each (expandToLevel_node depth) (treesource s) s.

(** What the view should hold: the nodes of the tree in document order,
    the children of a node only if the node is expanded, each with its
    depth. *)
Fixpoint flat (expanded : list (Z * bool)) (lvl : Z) (node : TreeRecord)
  : list (TreeRecord * Z) :=
  (node, lvl)
  :: (if isExpanded expanded node
      then match node with
           | TreeNode _ cs => flat_map (flat expanded (lvl + 1)) cs
           end
      else []).

Definition expected_view (expanded : list (Z * bool)) (lvl : Z) (nodes : list TreeRecord)
  : list (TreeRecord * Z) :=
  flat_map (flat expanded lvl) nodes.

(** The node objects [flattenTree] creates for a list of records with their
    depths: the next objects, in order. *)
Definition numbered (n0 : nat) (l : list (TreeRecord * Z)) : list ViewNode :=
  map (fun p => {| obj := snd p; record := fst (fst p); level := snd (fst p) |})
      (combine l (seq n0 (length l))).

(** The index of nodes after [flattenTree] has registered the nodes [l] in
    turn. *)
Definition registered (l : list ViewNode) (m : list (Z * ViewNode)) : list (Z * ViewNode) :=
  fold_left (fun m n => (id (record n), n) :: m) l m.

(** Every node of a tree, in document order. *)
Fixpoint nodes_of (node : TreeRecord) : list TreeRecord :=
  node :: match node with
          | TreeNode _ cs => flat_map nodes_of cs
          end.

Fixpoint Z_distinct (l : list Z) : bool :=
  match l with
  | [] => true
  | x :: t => negb (existsb (Z.eqb x) t) && Z_distinct t
  end.

(** No two records of the tree have the same id. *)
Definition unique_ids (roots : list TreeRecord) : bool :=
  Z_distinct (map id (flat_map nodes_of roots)).

(** The view holds the expected nodes, one object each, and the index of
    nodes leads to the nodes of the view. *)
Definition consistent (roots : list TreeRecord) (s : DataSource) : Prop :=
  treesource s = roots
  /\ exists v,
       view s = Some v
       /\ map (fun n => (record n, level n)) v = expected_view (expandedById s) 0 roots
       /\ NoDup (map obj v)
       /\ (forall n, In n v ->
              (obj n < nextObj s)%nat
              /\ findNodeForRowId s (id (record n)) = Some n)
       /\ (forall i n, findNodeForRowId s i = Some n ->
              (obj n < nextObj s)%nat
              /\ id (record n) = i
              /\ forall m, In m v -> obj m = obj n -> m = n).

(** The records that [expandToLevel(depth)] reaches from a node: the node,
    and below it the records of the next [depth - 1] levels. *)
Fixpoint reached (depth : Z) (node : TreeRecord) : list TreeRecord :=
  node :: (if 1 <? depth
           then match node with
                | TreeNode _ cs => flat_map (reached (depth - 1)) cs
                end
           else []).

(** What a call of [expandAll] or [expandToLevel] for the node [t] does,
    [V] being the records it is to expand: it returns, the data source
    stays consistent, the records of [V] are expanded, and the expansion
    state of every other record is what it was. *)
Definition expands (roots : list TreeRecord) (V : list TreeRecord)
    (run : DataSource -> result DataSource) : Prop :=
  forall s,
    consistent roots s ->
    exists s',
      run s = OK s'
      /\ consistent roots s'
      /\ (forall x, In x V -> isExpanded (expandedById s') x = true)
      /\ (forall x, isExpanded (expandedById s) x = true ->
                    isExpanded (expandedById s') x = true)
      /\ (forall x, isExpanded (expandedById s') x = true ->
                    isExpanded (expandedById s) x = true
                    \/ exists v, In v V /\ id v = id x).

(** The calls a grid makes on its data source. *)
Inductive Command : Type :=
| Expand (row : TreeRecord)
| Collapse (row : TreeRecord)
| Toggle (rowId : Z).

Definition execute (c : Command) (s : DataSource) : result DataSource :=
  match c with
  | Expand row => expand row s
  | Collapse row => collapse row s
  | Toggle rowId => toggle rowId s
  end.

Fixpoint execute_all (cs : list Command) (s : DataSource) : result DataSource :=
  match cs with
  | [] => OK s
  | c :: rest => s <- execute c s ;; execute_all rest s
  end.

(** The record a command names is a record of the tree. *)
Definition names_record (roots : list TreeRecord) (c : Command) : Prop :=
  match c with
  | Expand row | Collapse row => In row (flat_map nodes_of roots)
  | Toggle rowId => getRecordById_among rowId roots <> None
  end.

End SyncTreeGridDataSource.

(** A tree source with the tree of the filtering tests, and a run of calls
    on its data source. *)
Module TreeScenario.
Import SyncTreeGridDataSource.

Definition irac : TreeRecord := TreeNode 2 [TreeNode 21 []].

Definition cruft : TreeRecord := TreeNode 1 [irac; TreeNode 3 [TreeNode 31 []]].

Definition nettles : TreeRecord :=
  TreeNode 4 [TreeNode 5 [TreeNode 51 []; TreeNode 52 []]; TreeNode 6 [TreeNode 61 []]].

Definition swish : TreeRecord := TreeNode 7 [TreeNode 8 []].

Definition tree : list TreeRecord := [cruft; nettles; swish].

Definition calls : list Command :=
  [Expand irac; Expand cruft; Toggle 4; Collapse cruft; Toggle 7].

End TreeScenario.

(** ** Columns *)

(** A string, by its UTF-16 code units. *)
Definition JsString : Type := list Z.

Fixpoint JsString_eqb (s t : JsString) : bool :=
  match s, t with
  | [], [] => true
  | a :: s', b :: t' => (a =? b) && JsString_eqb s' t'
  | _, _ => false
  end.

(** [o[key]] on an object used as a map from strings: the own properties,
    the last one assigned first. The keys are taken to be none of the
    names every object inherits. *)
Fixpoint property {A : Type} (key : JsString) (o : list (JsString * A)) : option A :=
  match o with
  | [] => None
  | (k, v) :: t => if JsString_eqb k key then Some v else property key t
  end.

Module Columns.

(** The key of a column: the index that [applyColumnDefaults] gives, or the
    string of the column definition. *)
Inductive Key : Type :=
| Index (i : Z)
| Name (s : JsString).

(** [a === b] on keys *)
Definition Key_eqb (a b : Key) : bool :=
  match a, b with
  | Index i, Index j => i =? j
  | Name s, Name t => JsString_eqb s t
  | _, _ => false
  end.

Record Column : Type := mkColumn {
  key : Key;
  width : Z;
  hidden : option bool;               (* undefined until [_hideColumns] *)
  offsetLeft : option Z               (* undefined until positioned *)
}.

Definition set_hidden (v : bool) (c : Column) : Column :=
  mkColumn (key c) (width c) (Some v) (offsetLeft c).

Definition set_offsetLeft (v : Z) (c : Column) : Column :=
  mkColumn (key c) (width c) (hidden c) (Some v).

Record ColumnOptions : Type := mkColumnOptions {
  columns : list Column;
  frozenColumnsLeft : Z;
  frozenColumnsRight : Z;
  fullWidth : bool;
  autoResize : bool
}.

Definition set_columns (v : list Column) (o : ColumnOptions) : ColumnOptions :=
  mkColumnOptions v (frozenColumnsLeft o) (frozenColumnsRight o) (fullWidth o)
    (autoResize o).

(** [isColumnHidden(column)]: [column.hidden || false] *)
Definition isColumnHidden (c : Column) : bool :=
  match hidden c with
  | Some b => b
  | None => false
  end.

(** [keys.indexOf(key)] *)
Fixpoint indexOf_from (k : Key) (keys : list Key) (i : Z) : Z :=
  match keys with
  | [] => -1
  | h :: t => if Key_eqb h k then i else indexOf_from k t (i + 1)
  end.

Definition indexOf (keys : list Key) (k : Key) : Z := indexOf_from k keys 0.

(** [_hideColumns(keys)] *)
Definition _hideColumns (keys : list Key) (o : ColumnOptions) : ColumnOptions :=
  set_columns (map (fun column => set_hidden (-1 <? indexOf keys (key column)) column)
                   (columns o)) o.

(** [getVisibleColumns()] *)
Definition getVisibleColumns (o : ColumnOptions) : list Column :=
  filter (fun c => negb (isColumnHidden c)) (columns o).

(** [options.columns[x]] *)
Definition column_at (cols : list Column) (x : Z) : option Column :=
  if x <? 0 then None else nth_error cols (Z.to_nat x).

(** The inner function [columnWidth(x)] of [columnWidth], without a
    [transform]: the column [undefined], [isColumnHidden] throws. *)
Definition columnWidth_of (cols : list Column) (x : Z) : result Z :=
  match column_at cols x with
  | None => Throw TypeError
  | Some col => OK (if isColumnHidden col then 0 else width col)
  end.

(** The loop [while (start < end) sum += columnWidth(start++)], with the
    number of rounds it has left. *)
Fixpoint columnWidth_loop (cols : list Column) (n : nat) (start sum : Z) : result Z :=
  match n with
  | O => OK sum
  | S k =>
      w <- columnWidth_of cols start ;;
      columnWidth_loop cols k (start + 1) (sum + w)
  end.

(** [columnWidth(start, end)] *)
Definition columnWidth (o : ColumnOptions) (start : Z) (end' : option Z) : result Z :=
  match end' with
  | None => columnWidth_of (columns o) start
  | Some e => columnWidth_loop (columns o) (Z.to_nat (e - start)) start 0
  end.

(** What [adjustWidths] writes: the style of each column, by the key of
    its rule, and the widths of the three parts, of the scroll filler and,
    with [autoResize], of the container. *)
Inductive ColumnStyle : Type :=
| Stretched (min_width : Z)          (* width: auto; min-width; right: 0 *)
| Fixed (w : Z).                     (* width; right: auto *)

Record Widths : Type := mkWidths {
  columnStyles : list (Key * ColumnStyle);
  leadingWidth : Z;
  middleWidth : Z;
  trailingWidth : Z;
  scrollFillerWidth : Z;
  containerWidth : option Z
}.

(** The loop of [adjustWidths] over the columns behind [x], entered with
    [fullWidth] true: it ends at the first column that is not hidden. *)
Fixpoint fullWidth_loop (cols : list Column) (n : nat) (xx : Z) : result bool :=
  match n with
  | O => OK true
  | S k =>
      match column_at cols xx with
      | None => Throw TypeError
      | Some c =>
          if negb (isColumnHidden c) then OK false
          else fullWidth_loop cols k (xx + 1)
      end
  end.

(** [normalizeCssClass(c)]: every code unit of a string that is no letter
    and no digit becomes an underscore; a number has no [replace]. *)
Definition is_alphanumeric (u : Z) : bool :=
  ((97 <=? u) && (u <=? 122)) || ((65 <=? u) && (u <=? 90)) || ((48 <=? u) && (u <=? 57)).

Definition normalizeCssClass (c : Key) : Key :=
  match c with
  | Name s => Name (map (fun u => if is_alphanumeric u then u else 95) s)
  | Index i => Index i
  end.

(** One round of the loop of [adjustWidths]. *)
Definition adjustWidths_column (o : ColumnOptions) (x : Z)
    (styles : list (Key * ColumnStyle)) : result (list (Key * ColumnStyle)) :=
  let l := Z.of_nat (length (columns o)) in
  match column_at (columns o) x with
  | None => Throw TypeError
  | Some column =>
      w <- columnWidth o x None ;;
      fullWidth <- (if fullWidth o && (x <? l - frozenColumnsRight o)
                    then fullWidth_loop (columns o)
                           (Z.to_nat (l - frozenColumnsRight o - (x + 1))) (x + 1)
                    else OK false) ;;
      OK (styles ++ [(normalizeCssClass (key column),
                      if fullWidth then Stretched w else Fixed w)])
  end.

Fixpoint adjustWidths_columns (o : ColumnOptions) (xs : list Z)
    (styles : list (Key * ColumnStyle)) : result (list (Key * ColumnStyle)) :=
  match xs with
  | [] => OK styles
  | x :: rest =>
      styles <- adjustWidths_column o x styles ;;
      adjustWidths_columns o rest styles
  end.

(** [adjustWidths(temporary)] *)
Definition adjustWidths (o : ColumnOptions) : result Widths :=
  let l := Z.of_nat (length (columns o)) in
  styles <- adjustWidths_columns o (index_range 0 l) [] ;;
  leading <- columnWidth o 0 (Some (frozenColumnsLeft o)) ;;
  middle <- columnWidth o (frozenColumnsLeft o) (Some (l - frozenColumnsRight o)) ;;
  trailing <- columnWidth o (l - frozenColumnsRight o) (Some l) ;;
  container <- (if autoResize o
                then w <- columnWidth o 0 (Some l) ;; OK (Some w)
                else OK None) ;;
  OK {| columnStyles := styles;
        leadingWidth := leading;
        middleWidth := middle;
        trailingWidth := trailing;
        scrollFillerWidth := leading + middle + trailing;
        containerWidth := container |}.

(** [columns[x].offsetLeft = pos] *)
Fixpoint set_offsetLeft_at (cols : list Column) (x : nat) (pos : Z) : list Column :=
  match cols, x with
  | [], _ => []
  | c :: t, O => set_offsetLeft pos c :: t
  | c :: t, S k => c :: set_offsetLeft_at t k pos
  end.

(** The state of the loop of [adjustColumnPositions]. *)
Record Positioning : Type := mkPositioning {
  pos : Z;
  positions : list (option Z);
  positioned : ColumnOptions
}.

(** One round of the loop of [adjustColumnPositions]. *)
Definition adjustColumnPositions_column (l x : Z) (p : Positioning) : result Positioning :=
  let o := positioned p in
  let pos := if (x =? frozenColumnsLeft o) || (l - x =? frozenColumnsRight o)
             then 0 else pos p in
  let positions := array_set (positions p) x pos in
  let o := set_columns (set_offsetLeft_at (columns o) (Z.to_nat x) pos) o in
  w <- columnWidth o x None ;;
  OK {| pos := pos + w; positions := positions; positioned := o |}.

Fixpoint adjustColumnPositions_columns (l : Z) (xs : list Z) (p : Positioning)
  : result Positioning :=
  match xs with
  | [] => OK p
  | x :: rest =>
      p <- adjustColumnPositions_column l x p ;;
      adjustColumnPositions_columns l rest p
  end.

(** [adjustColumnPositions(temporary)]: the positions it returns, the
    options with the columns positioned, and what [adjustWidths] wrote; the
    rule [left] written for a column holds the position stored as its
    [offsetLeft]. [new Array(this.options.length)] is
    [new Array(undefined)], the array [[undefined]]. *)
Definition adjustColumnPositions (o : ColumnOptions)
  : result (list (option Z) * ColumnOptions * Widths) :=
  let l := Z.of_nat (length (columns o)) in
  p <- adjustColumnPositions_columns l (index_range 0 l)
         {| pos := 0; positions := [None]; positioned := o |} ;;
  w <- adjustWidths (positioned p) ;;
  OK (positions p, positioned p, w).


(** The widths of the columns that are not hidden, added up. *)
Definition visible_width (cols : list Column) : Z :=
  fold_right Z.add 0 (map width (filter (fun c => negb (isColumnHidden c)) cols)).

(** The column [x] is the last one before the columns frozen on the right
    that can be seen, or lies behind it. *)
Definition nothing_visible_behind (o : ColumnOptions) (x : Z) : bool :=
  let l := Z.of_nat (length (columns o)) in
  (x <? l - frozenColumnsRight o)
  && forallb isColumnHidden
       (firstn (Z.to_nat (l - frozenColumnsRight o - (x + 1)))
          (skipn (Z.to_nat (x + 1)) (columns o))).

(** The style [adjustWidths] writes for the column [x]. *)
Definition style_of (o : ColumnOptions) (x : Z) (c : Column) : Key * ColumnStyle :=
  let w := if isColumnHidden c then 0 else width c in
  (normalizeCssClass (key c),
   if fullWidth o && nothing_visible_behind o x then Stretched w else Fixed w).





(** The column is one of those [keys] names. *)
Definition named (keys : list Key) (c : Column) : bool :=
  existsb (fun k => Key_eqb k (key c)) keys.

End Columns.

(** Five columns, the second and the fourth hidden, one column frozen on
    each side. *)
Module ColumnScenario.
Import Columns.

Definition options : ColumnOptions :=
  {| columns :=
       [ {| key := Index 0; width := 100; hidden := None; offsetLeft := None |};
         {| key := Name [97; 46; 98]; width := 80; hidden := Some true;
            offsetLeft := None |};
         {| key := Index 2; width := 120; hidden := Some false; offsetLeft := None |};
         {| key := Name [99]; width := 60; hidden := Some true; offsetLeft := None |};
         {| key := Index 4; width := 90; hidden := None; offsetLeft := None |} ];
     frozenColumnsLeft := 1;
     frozenColumnsRight := 1;
     fullWidth := true;
     autoResize := true |}.

End ColumnScenario.

(** ** Load order of the extensions *)

Module Extensions.

(** An extension, by what [sortByLoadOrder] reads of it: the keys of the
    extensions it asks to be loaded first, if it has a [loadFirst]. *)
Record Plugin : Type := mkPlugin {
  loadFirst : option (list JsString)
}.

(** The state of [sortByLoadOrder]: the array [sorted] and the object
    [added]. *)
Record Sorting : Type := mkSorting {
  sorted : list JsString;
  added : list (JsString * bool)
}.

(** [keys.forEach(f)], [f] working on a state and throwing or not. *)
Definition forEach {S : Type} (f : JsString -> S -> result S)
  : list JsString -> S -> result S :=
  fix each (keys : list JsString) (s : S) : result S :=
    match keys with
    | [] => OK s
    | key :: rest =>
        match f key s with
        | OK s' => each rest s'
        | Throw e => Throw e
        end
    end.

(** The inner function [add] of [sortByLoadOrder], on a call stack with
    room for [depth] nested calls: a call beyond them throws the RangeError
    of the exhausted stack. *)
Fixpoint add (depth : nat) (plugins : list (JsString * Plugin)) (key : JsString)
    (s : Sorting) : result Sorting :=
  match depth with
  | O => Throw RangeError
  | S depth' =>
      match property key plugins, property key (added s) with
      | Some plugin, None =>
          s <- (match loadFirst plugin with
                | Some keys => forEach (add depth' plugins) keys s
                | None => OK s
                end) ;;
          OK {| sorted := sorted s ++ [key]; added := (key, true) :: added s |}
      | _, _ => OK s
      end
  end.

(** [sortByLoadOrder(pluginList, plugins)] *)
Definition sortByLoadOrder (depth : nat) (pluginList : list JsString)
    (plugins : list (JsString * Plugin)) : result (list JsString) :=
  s <- forEach (add depth plugins) pluginList {| sorted := []; added := [] |} ;;
  OK (sorted s).

(** [d] stands before [k] in [l]. *)
Definition before (d k : JsString) (l : list JsString) : Prop :=
  exists l1 l2, l = l1 ++ k :: l2 /\ In d l1.

(** [key] asks for [d] to be loaded first, and both are extensions. *)
Definition needs (plugins : list (JsString * Plugin)) (key d : JsString) : Prop :=
  exists plugin keys,
    property key plugins = Some plugin
    /\ loadFirst plugin = Some keys
    /\ In d keys
    /\ property d plugins <> None.

(** The state of [sortByLoadOrder] between two calls of [add]: the keys
    added are the keys sorted, each once, each an extension, each behind
    the extensions it needs. *)
Definition well_sorted (plugins : list (JsString * Plugin)) (s : Sorting) : Prop :=
  (forall k, property k (added s) <> None <-> In k (sorted s))
  /\ NoDup (sorted s)
  /\ (forall k, In k (sorted s) -> property k plugins <> None)
  /\ (forall k d, In k (sorted s) -> needs plugins k d -> before d k (sorted s)).

(** What a call of [add] for [key] does, where it returns. *)
Definition adds (plugins : list (JsString * Plugin)) (rank : JsString -> nat)
    (f : JsString -> Sorting -> result Sorting) (key : JsString) : Prop :=
  forall s,
    well_sorted plugins s ->
    exists s',
      f key s = OK s'
      /\ well_sorted plugins s'
      /\ (exists ext, sorted s' = sorted s ++ ext
                      /\ forall x, In x ext -> (rank x <= rank key)%nat)
      /\ (property key plugins <> None -> In key (sorted s')).

(** No extension of the set [C] is added. *)
Definition clear_of_cycle (C : JsString -> Prop) (s : Sorting) : Prop :=
  forall key, C key -> property key (added s) = None.

End Extensions.

(** Three extensions: editing needs validation, an extension that is not
    there, and selection; validation needs selection. And the same with two
    more extensions that need each other. *)
Module ExtensionScenario.
Import Extensions.

Definition editing : JsString := [101].
Definition validation : JsString := [118].
Definition selection : JsString := [115].
Definition missing : JsString := [109].
Definition left_ : JsString := [108].
Definition right_ : JsString := [114].

Definition plugins : list (JsString * Plugin) :=
  [ (editing, {| loadFirst := Some [validation; missing; selection] |});
    (validation, {| loadFirst := Some [selection] |});
    (selection, {| loadFirst := None |}) ].

Definition entangled : list (JsString * Plugin) :=
  (left_, {| loadFirst := Some [right_] |})
  :: (right_, {| loadFirst := Some [left_] |})
  :: plugins.

(** How deep the dependencies of an extension go. *)
Definition rank (key : JsString) : nat :=
  if JsString_eqb key editing then 2
  else if JsString_eqb key validation then 1
  else 0.

End ExtensionScenario.

(** ** Touch scrolling *)

Module TouchScroll.

(** [a - b] on numbers; [undefined] counts as [NaN]. *)
Definition js_minus (a b : JsNumber) : JsNumber :=
  match a, b with
  | JsNum x, JsNum y => JsNum (x - y)
  | _, _ => JsNaN
  end.

Definition js_plus (a b : JsNumber) : JsNumber :=
  match a, b with
  | JsNum x, JsNum y => JsNum (x + y)
  | _, _ => JsNaN
  end.

(** An entry of the event queue: how far the touch moved, and when. *)
Record Drag : Type := mkDrag { x : JsNumber; y : JsNumber; t : Z }.

Definition timeUnit : Z := 100.

(** The variables of [initTouchScrollEvents], the calls of [scrollBy] and
    the inertial scrolls started: each by the distance and the time that
    the speed is the quotient of. *)
Record Tracker : Type := mkTracker {
  tracking : bool;
  lastX : JsNumber;                   (* NaN: undefined *)
  lastY : JsNumber;
  eventQueue : list Drag;
  scrolledBy : list (JsNumber * JsNumber);
  inertialScrolls : list (JsNumber * JsNumber * Z)
}.

Definition initTouchScrollEvents : Tracker :=
  {| tracking := false; lastX := JsNaN; lastY := JsNaN; eventQueue := [];
     scrolledBy := []; inertialScrolls := [] |}.

(** The loop of [pruneEventQueue] from the index [1] on: the number of
    entries it passes before it breaks or reaches the end. *)
Fixpoint pruneEventQueue_loop (t0 : Z) (q : list Drag) : nat :=
  match q with
  | [] => O
  | e :: rest => if timeUnit <? t0 - t e then O else S (pruneEventQueue_loop t0 rest)
  end.

(** [pruneEventQueue()]: [eventQueue[0].t] throws on the empty queue. *)
Definition pruneEventQueue (q : list Drag) : result (list Drag) :=
  match q with
  | [] => Throw TypeError
  | e0 :: rest =>
      OK (js_slice q 0 (1 + Z.of_nat (pruneEventQueue_loop (t e0) rest)))
  end.

(** A touch event, with the time the handler reads from the clock. *)
Inductive Touch : Type :=
| touchstart (pageX pageY : Z)
| touchmove (now : Z) (pageX pageY : Z)
| touchend (now : Z).

(** The three listeners. *)
Definition listener (e : Touch) (s : Tracker) : result Tracker :=
  match e with
  | touchstart pageX pageY =>
      OK (mkTracker true (JsNum pageX) (JsNum pageY) (eventQueue s) (scrolledBy s)
            (inertialScrolls s))
  | touchmove now newX newY =>
      if tracking s
      then
        let dX := js_minus (lastX s) (JsNum newX) in
        let dY := js_minus (lastY s) (JsNum newY) in
        let e := {| x := dX; y := dY; t := now |} in
        q <- pruneEventQueue (e :: eventQueue s) ;;
        OK (mkTracker (tracking s) (JsNum newX) (JsNum newY) q
              (scrolledBy s ++ [(dX, dY)]) (inertialScrolls s))
      else OK s
  | touchend now =>
      let s := mkTracker false (lastX s) (lastY s) (eventQueue s) (scrolledBy s)
                 (inertialScrolls s) in
      match eventQueue s with
      | [] => OK s
      | e0 :: _ =>
          let timeSinceLastEvent := now - t e0 in
          let started :=
            if timeSinceLastEvent <? timeUnit
            then
              let dX := fold_left (fun a b => js_plus a (x b)) (eventQueue s) (JsNum 0) in
              let dY := fold_left (fun a b => js_plus a (y b)) (eventQueue s) (JsNum 0) in
              let timeBetween := t e0 - t (last (eventQueue s) e0) in
              inertialScrolls s ++ [(dX, dY, timeBetween)]
            else inertialScrolls s in
          OK (mkTracker (tracking s) (lastX s) (lastY s) [] (scrolledBy s) started)
      end
  end.

Fixpoint listeners (es : list Touch) (s : Tracker) : result Tracker :=
  match es with
  | [] => OK s
  | e :: rest => s <- listener e s ;; listeners rest s
  end.

(** The times the handlers read from the clock. *)
Definition clock (es : list Touch) : list Z :=
  flat_map (fun e => match e with
                     | touchstart _ _ => []
                     | touchmove now _ _ => [now]
                     | touchend now => [now]
                     end) es.

(** The clock does not run backwards. *)
Fixpoint monotone (ts : list Z) : bool :=
  match ts with
  | [] => true
  | a :: rest => forallb (fun b => a <=? b) rest && monotone rest
  end.

(** The times of the moves of the touch that is being tracked, the newest
    first: the moves since the last [touchend] that came after a
    [touchstart]. *)
Fixpoint moves (es : list Touch) (tracked : bool) (acc : list Z) : list Z :=
  match es with
  | [] => acc
  | touchstart _ _ :: rest => moves rest true acc
  | touchmove now _ _ :: rest => moves rest tracked (if tracked then now :: acc else acc)
  | touchend _ :: rest => moves rest false []
  end.

(** Of times with the newest first, those at most [timeUnit] before the
    newest. *)
Definition recent (ts : list Z) : list Z :=
  match ts with
  | [] => []
  | t0 :: rest => t0 :: filter (fun u => t0 - u <=? timeUnit) rest
  end.

(** The times fall. *)
Fixpoint descending (ts : list Z) : bool :=
  match ts with
  | [] => true
  | a :: rest => forallb (fun b => b <=? a) rest && descending rest
  end.

(** Every inertial scroll was started with a time between zero and
    [timeUnit] as the divisor of the speed. *)
Definition spans_bounded (s : Tracker) : Prop :=
  forall dX dY span, In (dX, dY, span) (inertialScrolls s) -> 0 <= span <= timeUnit.

End TouchScroll.

(** A touch that moves four times and ends, and a second touch. *)
Module TouchScenario.
Import TouchScroll.

Definition touches : list Touch :=
  [ touchmove 990 5 5;
    touchstart 10 200;
    touchmove 1000 10 190;
    touchmove 1040 10 170;
    touchmove 1090 12 140;
    touchmove 1130 12 100;
    touchend 1150;
    touchstart 40 40;
    touchmove 2000 40 45;
    touchmove 2100 40 60;
    touchmove 2101 40 61 ].

End TouchScenario.

(** ** Render queue *)

Module RenderQueue.

(** [this.renderQueue]: the flags are undefined until a request sets
    them. *)
Record Queue : Type := mkRenderQueue {
  callbacks : list nat;               (* the functions, by their names *)
  syncScroll : bool;
  updateViewport : bool;
  adjustColumnPositions : bool;
  columnPositionsTemporary : option bool;
  adjustHeights : bool
}.

(** The render queue of the grid, the functions handed to
    [utils.inAnimationFrame] that have not run yet, and the work done. *)
Inductive Work : Type :=
| SyncScroll                          (* syncScroll(true) *)
| UpdateViewport
| AdjustColumnPositions (temporary : option bool)
| AdjustHeights
| Callback (f : nat).

Record Renderer : Type := mkRenderer {
  renderQueue : option Queue;
  animationFrames : nat;
  done : list Work
}.

(** [queueRenderUpdate()], followed by the update [f] of the queue that it
    returns. *)
Definition queueRenderUpdate (f : Queue -> Queue) (s : Renderer) : Renderer :=
  match renderQueue s with
  | None =>
      {| renderQueue := Some (f (mkRenderQueue [] false false false None false));
         animationFrames := S (animationFrames s);
         done := done s |}
  | Some q =>
      {| renderQueue := Some (f q);
         animationFrames := animationFrames s;
         done := done s |}
  end.

(** [queueAdjustColumnPositions(temporary)]; [None] is the call without an
    argument. *)
Definition queueAdjustColumnPositions (temporary : option bool) (s : Renderer)
  : Renderer :=
  queueRenderUpdate
    (fun q =>
       let t := match temporary with
                | Some true =>
                    match columnPositionsTemporary q with
                    | None => temporary
                    | Some t => Some t
                    end
                | _ => Some false
                end in
       mkRenderQueue (callbacks q) (syncScroll q) (updateViewport q) true t
         (adjustHeights q)) s.

(** [queueAdjustHeights()] *)
Definition queueAdjustHeights (s : Renderer) : Renderer :=
  queueRenderUpdate
    (fun q => mkRenderQueue (callbacks q) (syncScroll q) (updateViewport q)
                (adjustColumnPositions q) (columnPositionsTemporary q) true) s.

(** [queueUpdateViewport()] *)
Definition queueUpdateViewport (s : Renderer) : Renderer :=
  queueRenderUpdate
    (fun q => mkRenderQueue (callbacks q) (syncScroll q) true
                (adjustColumnPositions q) (columnPositionsTemporary q)
                (adjustHeights q)) s.

(** [queueAfterRender(f)] *)
Definition queueAfterRender (f : nat) (s : Renderer) : Renderer :=
  queueRenderUpdate
    (fun q => mkRenderQueue (callbacks q ++ [f]) (syncScroll q) (updateViewport q)
                (adjustColumnPositions q) (columnPositionsTemporary q)
                (adjustHeights q)) s.

(** [queueSyncScroll()] *)
Definition queueSyncScroll (s : Renderer) : Renderer :=
  queueRenderUpdate
    (fun q => mkRenderQueue (callbacks q) true (updateViewport q)
                (adjustColumnPositions q) (columnPositionsTemporary q)
                (adjustHeights q)) s.



(** The requests of the grid and of its extensions. *)
Inductive Request : Type :=
| AdjustColumnPositionsRequest (temporary : option bool)
| AdjustHeightsRequest
| UpdateViewportRequest
| AfterRenderRequest (f : nat)
| SyncScrollRequest.

Definition queue (r : Request) (s : Renderer) : Renderer :=
  match r with
  | AdjustColumnPositionsRequest temporary => queueAdjustColumnPositions temporary s
  | AdjustHeightsRequest => queueAdjustHeights s
  | UpdateViewportRequest => queueUpdateViewport s
  | AfterRenderRequest f => queueAfterRender f s
  | SyncScrollRequest => queueSyncScroll s
  end.










End RenderQueue.

(** ** Array data source *)

Module ArrayDataSource.

(** A record: its properties, numbers, [id] among them. *)
Definition DataRow : Type := list (JsString * Z).

Definition id_key : JsString := [105; 100].

(** [record.id == id] *)
Definition has_id (id : Z) (record : DataRow) : bool :=
  match property id_key record with
  | Some i => i =? id
  | None => false
  end.

Inductive Event : Type :=
| dataloaded
| datachanged (id : Z) (key : JsString).

Inductive Thrown : Type :=
| DatasourceNotReadyYet               (* Error("Datasource not ready yet") *)
| TypeError_.

Record DataSource : Type := mkDataSource {
  data : list DataRow;
  ready : bool;                       (* undefined until [load] *)
  triggered : list Event
}.

(** [load()] *)
Definition load (s : DataSource) : DataSource :=
  mkDataSource (data s) true (triggered s ++ [dataloaded]).

(** [new ArrayDataSource(data, delay)]: with a delay, [load] runs when the
    timer fires. *)
Definition ArrayDataSource (data : list DataRow) (delay : bool) : DataSource :=
  let s := mkDataSource data false [] in
  if delay then s else load s.

(** [isReady()] *)
Definition isReady (s : DataSource) : bool := ready s.

(** [assertReady()] *)
Definition assertReady {A : Type} (s : DataSource) (k : A + Thrown) : A + Thrown :=
  if isReady s then k else inr DatasourceNotReadyYet.

(** [recordCount()] *)
Definition recordCount (s : DataSource) : Z + Thrown :=
  assertReady s (inl (Z.of_nat (length (data s)))).

(** [getRowByIndex(idx)] *)
Definition getRowByIndex (s : DataSource) (idx : Z) : option DataRow + Thrown :=
  assertReady s (inl (if idx <? 0 then None else nth_error (data s) (Z.to_nat idx))).

(** [getRecordById(id)] *)
Definition getRecordById (s : DataSource) (id : Z) : option DataRow + Thrown :=
  assertReady s (inl (find (has_id id) (data s))).

(** [!x] of an argument: it is missing, or zero. *)
Definition not_ (x : option Z) : bool :=
  match x with
  | None => true
  | Some v => v =? 0
  end.

(** [getData(start, end)] *)
Definition getData (s : DataSource) (start end' : option Z) : list DataRow + Thrown :=
  assertReady s
    (if not_ start && not_ end' then inl (data s)
     else
       let start := match start with
                    | Some v => v
                    | None => 0
                    end in
       match (if not_ end' then recordCount s else inl (match end' with
                                                       | Some v => v
                                                       | None => 0
                                                       end)) with
       | inl e => inl (js_slice (data s) start e)
       | inr t => inr t
       end).

(** [record[key] = value] on the first record with the id. *)
Fixpoint assign (id : Z) (key : JsString) (value : Z) (rows : list DataRow)
  : option (list DataRow) :=
  match rows with
  | [] => None
  | r :: rest =>
      if has_id id r then Some (((key, value) :: r) :: rest)
      else match assign id key value rest with
           | Some rest' => Some (r :: rest')
           | None => None
           end
  end.

(** [setValue(rowId, key, value)] *)
Definition setValue (rowId : Z) (key : JsString) (value : Z) (s : DataSource)
  : DataSource + Thrown :=
  assertReady s
    (match getRecordById s rowId with
     | inl (Some _) =>
         match assign rowId key value (data s) with
         | Some rows =>
             inl (mkDataSource rows (ready s) (triggered s ++ [datachanged rowId key]))
         | None => inr TypeError_
         end
     | inl None => inr TypeError_
     | inr t => inr t
     end).

End ArrayDataSource.

(** Four records with the ids 1..4 and a value each. *)
Module ArrayScenario.
Import ArrayDataSource.

Definition value_key : JsString := [118].

Definition rows : list DataRow :=
  [ [(id_key, 1); (value_key, 10)];
    [(id_key, 2); (value_key, 20)];
    [(id_key, 3); (value_key, 30)];
    [(id_key, 4); (value_key, 40)] ].

End ArrayScenario.

(** * Properties *)

(** The tactics of the proofs: frames, case analysis on conditions, and the
    comparisons of [Z] as propositions. *)
Ltac frame := unfold render_frame, same_environment; simpl; repeat split; reflexivity.


Ltac to_Prop :=
  repeat match goal with
         | H : (_ <? _) = true |- _ => apply Z.ltb_lt in H
         | H : (_ <? _) = false |- _ => apply Z.ltb_ge in H
         | H : (_ <=? _) = true |- _ => apply Z.leb_le in H
         | H : (_ <=? _) = false |- _ => apply Z.leb_gt in H
         | H : (_ =? _) = true |- _ => apply Z.eqb_eq in H
         | H : (_ =? _) = false |- _ => apply Z.eqb_neq in H
         | H : (_ && _) = true |- _ => apply andb_true_iff in H; destruct H
         | H : (_ || _) = false |- _ => apply orb_false_iff in H; destruct H
         | H : negb _ = true |- _ => apply negb_true_iff in H
         | H : negb _ = false |- _ => apply negb_false_iff in H
         end.

Ltac case_if :=
  match goal with
  | |- context [if ?c then _ else _] =>
      let E := fresh "E" in destruct c eqn:E
  end.

(** ** Arrays *)

Lemma js_slice_prefix {A : Type} (l : list A) (k : Z) :
  0 <= k -> js_slice l 0 k = firstn (Z.to_nat k) l.
Proof.
  intros Hk. unfold js_slice, relative_index.
  pose proof (Zle_0_nat (length l)) as Hlen.
  destruct (0 <? 0) eqn:E0; [discriminate|].
  destruct (k <? 0) eqn:Ek; [apply Z.ltb_lt in Ek; lia|].
  rewrite (Z.min_l 0) by lia. rewrite Z.sub_0_r. simpl.
  destruct (Z.le_ge_cases k (Z.of_nat (length l))) as [H|H].
  - rewrite Z.min_l by lia. reflexivity.
  - rewrite Z.min_r by lia. rewrite Nat2Z.id.
    rewrite firstn_all. symmetry. apply firstn_all2. lia.
Qed.

Lemma js_slice_from_suffix {A : Type} (l : list A) (k : Z) :
  0 <= k -> js_slice_from l k = skipn (Z.to_nat k) l.
Proof.
  intros Hk. unfold js_slice_from, js_slice, relative_index.
  pose proof (Zle_0_nat (length l)) as Hlen.
  destruct (k <? 0) eqn:Ek; [apply Z.ltb_lt in Ek; lia|].
  destruct (Z.of_nat (length l) <? 0) eqn:El; [apply Z.ltb_lt in El; lia|].
  rewrite Z.min_id.
  destruct (Z.le_ge_cases k (Z.of_nat (length l))) as [H|H].
  - rewrite Z.min_l by lia. apply firstn_all2. rewrite length_skipn. lia.
  - rewrite Z.min_r by lia. rewrite Z.sub_diag. simpl.
    symmetry. apply skipn_all2. lia.
Qed.

Lemma js_slice_from_0 {A : Type} (l : list A) : js_slice_from l 0 = l.
Proof. rewrite js_slice_from_suffix by lia. reflexivity. Qed.



Lemma In_count_from (x start : Z) (n : nat) :
  In x (count_from start n) <-> start <= x < start + Z.of_nat n.
Proof.
  revert start. induction n as [|n IH]; intros start; simpl.
  - split; [contradiction | lia].
  - rewrite IH. lia.
Qed.

Lemma In_index_range (x start end' : Z) :
  In x (index_range start end') <-> start <= x < end'.
Proof. unfold index_range. rewrite In_count_from. lia. Qed.

Lemma length_count_from (start : Z) (n : nat) : length (count_from start n) = n.
Proof. revert start. induction n; intros; simpl; [|rewrite IHn]; reflexivity. Qed.

Lemma length_index_range (start end' : Z) :
  length (index_range start end') = Z.to_nat (end' - start).
Proof. apply length_count_from. Qed.


(** ** What the operations leave alone *)

Lemma bind_OK {A B : Type} (m : result A) (k : A -> result B) (b : B) :
  bind m k = OK b -> exists a, m = OK a /\ k a = OK b.
Proof. destruct m as [a|e]; simpl; intros E; [eauto | discriminate]. Qed.

Lemma same_environment_refl s : same_environment s s.
Proof. repeat split. Qed.

Lemma same_environment_trans s1 s2 s3 :
  same_environment s1 s2 -> same_environment s2 s3 -> same_environment s1 s3.
Proof.
  unfold same_environment. intros (A1 & A2 & A3 & A4 & A5 & A6) (B1 & B2 & B3 & B4 & B5 & B6).
  repeat split; congruence.
Qed.

Lemma getData_frame start end' s d s' :
  getData start end' s = OK (d, s') ->
  render_frame s s'
  /\ headergroup s' = headergroup s /\ scrollinggroup s' = scrollinggroup s
  /\ footergroup s' = footergroup s /\ nextNode s' = nextNode s
  /\ pending s' = pending s.
Proof.
  unfold getData, new_Array. intros E.
  destruct (js_or end' (getRecordCount s) - start <? 0); simpl in E; [discriminate|].
  destruct (synchronous (dataSource s)); simpl in E.
  - destruct (processData _ _ _) as [ws' [|]]; inversion E; subst.
    split; [frame | repeat split].
  - inversion E; subst. split; [frame | repeat split].
Qed.

Lemma renderRowGroupContents_frame start end' g p a s s' :
  renderRowGroupContents start end' g p a s = OK s' -> render_frame s s'.
Proof.
  unfold renderRowGroupContents. intros E.
  apply bind_OK in E. destruct E as ([d s1] & Hd & E).
  apply getData_frame in Hd.
  destruct Hd as ((Henv & Hrc & Hvp & Hdis & Hq) & _).
  unfold same_environment in Henv. destruct Henv as (H1 & H2 & H3 & H4 & H5 & H6).
  apply bind_OK in E. destruct E as (holes & _ & E).
  assert (G : forall l s2, s2 = set_nextNode (nextNode s1 + length (index_range start end'))%nat s1 ->
              render_frame s (set_group_rows g l s2)).
  { intros l s2 ->. unfold render_frame, same_environment.
    destruct g; simpl; repeat split; assumption. }
  destruct d as [data|ids].
  - destruct (populateRows _ _ _ _ _ _) as [fragment' [|]]; [|discriminate].
    inversion E; subst. apply G. reflexivity.
  - destruct (dataSubscriptions _) as [ref|] eqn:Eds; [|discriminate].
    destruct (nth_error _ ref) as [q|]; [|discriminate].
    inversion E; subst.
    unfold render_frame, same_environment.
    destruct g; simpl in *; repeat split; congruence.
Qed.

Lemma destroyRows_frame rows s :
  same_environment s (destroyRows rows s)
  /\ recordCount (destroyRows rows s) = recordCount s
  /\ viewport (destroyRows rows s) = viewport s
  /\ workingSet (destroyRows rows s) = workingSet s
  /\ nextNode (destroyRows rows s) = nextNode s.
Proof. unfold same_environment. simpl. repeat split. Qed.

Lemma debug_verify_OK s s' : debug_verify s = OK s' -> s' = s.
Proof.
  unfold debug_verify. destruct (verify_TypeError s); intros E; [discriminate|].
  inversion E. reflexivity.
Qed.

Lemma keeps_viewport_refl s : keeps_viewport s s.
Proof. split; [apply same_environment_refl | split; reflexivity]. Qed.

Lemma keeps_viewport_trans s1 s2 s3 :
  keeps_viewport s1 s2 -> keeps_viewport s2 s3 -> keeps_viewport s1 s3.
Proof.
  intros (A & A1 & A2) (B & B1 & B2).
  split; [eapply same_environment_trans; eassumption | split; congruence].
Qed.

Lemma render_keeps_viewport start end' g p a s s' :
  renderRowGroupContents start end' g p a s = OK s' -> keeps_viewport s s'.
Proof.
  intros E. apply renderRowGroupContents_frame in E.
  destruct E as (A & B & C & _). split; [assumption | split; assumption].
Qed.

Lemma destroyRows_keeps_viewport rows s : keeps_viewport s (destroyRows rows s).
Proof. unfold keeps_viewport, same_environment. simpl. repeat split. Qed.

Lemma empty_group_keeps_viewport g s : keeps_viewport s (empty_group g s).
Proof. unfold keeps_viewport, same_environment. destruct g; simpl; repeat split. Qed.

Lemma incrementRowIndexes_keeps_viewport start offset s :
  keeps_viewport s (_incrementRowIndexes start offset s).
Proof. unfold keeps_viewport, same_environment. simpl. repeat split. Qed.

Lemma setViewport_frame range s s' :
  setViewport range s = OK s' ->
  same_environment s s' /\ viewport s' = range /\ recordCount s' = recordCount s.
Proof.
  unfold setViewport. intros E.
  apply bind_OK in E. destruct E as (s2 & E & Hv).
  apply debug_verify_OK in Hv. subst s'.
  assert (K : keeps_viewport (set_viewport range s) s2).
  { simpl in E.
    destruct (overlap range (viewport s)).
    - apply bind_OK in E. destruct E as (s1 & E1 & E2).
      assert (K1 : keeps_viewport (set_viewport range s) s1).
      { destruct (begin range <? begin (viewport s)).
        - eapply render_keeps_viewport; eassumption.
        - destruct (begin (viewport s) <? begin range); inversion E1; subst.
          + apply destroyRows_keeps_viewport.
          + apply keeps_viewport_refl. }
      eapply keeps_viewport_trans; [exact K1|].
      destruct ((end_ range <? end_ (viewport s)) && (begin (viewport s) <? end_ range)).
      + inversion E2; subst. apply destroyRows_keeps_viewport.
      + destruct (end_ (viewport s) <? end_ range).
        * eapply render_keeps_viewport; eassumption.
        * inversion E2; subst. apply keeps_viewport_refl.
    - eapply keeps_viewport_trans; [apply (empty_group_keeps_viewport ScrollingGroup)|].
      match type of E with
      | (if ?c then _ else _) = _ => destruct c
      end.
      + eapply render_keeps_viewport; eassumption.
      + inversion E; subst. apply keeps_viewport_refl. }
  destruct K as (Kenv & Kvp & Krc).
  split; [|split].
  - eapply same_environment_trans; [|exact Kenv].
    unfold same_environment; simpl; repeat split.
  - rewrite Kvp. reflexivity.
  - rewrite Krc. reflexivity.
Qed.

(** ** Deletion that overlaps the viewport *)



(** ** The range of [viewRange] *)

(** C9. With one frozen row at the top, 100 records and the scroller at the
    top, the minimal visible range begins at row 1, and [viewRange] moves its
    begin to row 0, below [frozenRowsTop]: the parity adjustment rounds down
    to an even index after the clamp. *)
Theorem viewRange_begins_below_frozenRowsTop :
  let s := set_recordCount 100 (Scenario.init Scenario.one_frozen_row Scenario.source 310) in
  visibleRows s = {| begin := 1; end_ := 11 |}
  /\ viewRange s = {| begin := 0; end_ := 21 |}
  /\ begin (viewRange s) < frozenRowsTop (options s).
Proof.
  repeat split; vm_compute; reflexivity.
Qed.

(** ** Summarizing data source *)

(** C10. Whatever the delegate, the record count of the summarizing data
    source is the delegate's plus one, as a value or as a promise like the
    delegate's, and the row at the last index of the summarized data set,
    [recordCount - 1], is the summary row. *)
Theorem summary_row_at_final_index
    (D : Type) (Del : SummarizingDataSource.Delegate D) (d : D) (end' : option Z) :
  let rc := SummarizingDataSource.resolved (SummarizingDataSource.delegate_recordCount d) in
  let count := SummarizingDataSource.recordCount d in
  SummarizingDataSource.resolved count = rc + 1
  /\ SummarizingDataSource.is_promise count
     = SummarizingDataSource.is_promise (SummarizingDataSource.delegate_recordCount d)
  /\ map SummarizingDataSource.id
       (SummarizingDataSource.resolved
          (SummarizingDataSource.getData d
             (Some (SummarizingDataSource.resolved count - 1)) end'))
     = [SummarizingDataSource.SUMMARY_ROW_ID].
Proof.
  cbv zeta. unfold SummarizingDataSource.recordCount, SummarizingDataSource.getData.
  destruct (SummarizingDataSource.delegate_recordCount d) as [rc|rc]; simpl;
    (split; [reflexivity|]); (split; [reflexivity|]);
    replace (rc + 1 - 1) with rc by lia; rewrite Z.eqb_refl;
    unfold SummarizingDataSource.getSummaryRow;
    destruct (SummarizingDataSource.delegate_getSummaryRow d); reflexivity.
Qed.

(** Over the flat view of a tree grid data source, the summarized data set
    is the view followed by the summary row. *)
Lemma summarized_view_is_view_then_summary (v : SummarizingDataSource.SyncView) :
  SummarizingDataSource.getData v None None
  = SummarizingDataSource.Now
      (SummarizingDataSource.view v
       ++ [ {| SummarizingDataSource.id := SummarizingDataSource.SUMMARY_ROW_ID;
               SummarizingDataSource.value :=
                 SummarizingDataSource.value (SummarizingDataSource.view_summary v) |} ]).
Proof.
  unfold SummarizingDataSource.getData. simpl.
  unfold SummarizingDataSource.view_slice, js_or. simpl.
  rewrite js_slice_from_0. reflexivity.
Qed.

(** ** Setting the viewport twice *)

Lemma set_viewport_same s : set_viewport (viewport s) s = s.
Proof. destruct s; reflexivity. Qed.

Lemma is_among_self rows r : In r rows -> is_among rows r = true.
Proof.
  intros Hin. unfold is_among. apply existsb_exists.
  exists r. split; [assumption | apply Nat.eqb_refl].
Qed.

Lemma detach_self rows : detach rows rows = [].
Proof.
  unfold detach.
  assert (G : forall l, (forall r, In r l -> In r rows) ->
                        filter (fun r => negb (is_among rows r)) l = []).
  { induction l as [|r l IH]; intros Hsub; simpl; [reflexivity|].
    rewrite is_among_self by (apply Hsub; left; reflexivity). simpl.
    apply IH. intros r' Hr'. apply Hsub. right. assumption. }
  apply G. auto.
Qed.

Lemma empty_group_of_empty s :
  scrollinggroup s = [] -> empty_group ScrollingGroup s = s.
Proof.
  intros E. unfold empty_group. simpl. rewrite E, app_nil_r.
  destruct s; simpl in *; subst; reflexivity.
Qed.

Lemma setViewport_verified range s s' :
  setViewport range s = OK s' -> verify_TypeError s' = false.
Proof.
  unfold setViewport. intros E.
  apply bind_OK in E. destruct E as (s2 & _ & Hv).
  unfold debug_verify in Hv.
  destruct (verify_TypeError s2) eqn:Ev; [discriminate|].
  inversion Hv; subst. assumption.
Qed.

(** Setting the viewport to an empty range leaves no row in the scrolling
    group. *)
Lemma setViewport_empty_range range s s' :
  begin range = end_ range ->
  setViewport range s = OK s' -> scrollinggroup s' = [].
Proof.
  intros Hempty. unfold setViewport. intros E.
  apply bind_OK in E. destruct E as (s2 & E & Hv).
  apply debug_verify_OK in Hv. subst s'.
  simpl in E. unfold overlap in E.
  destruct ((begin range <? end_ (viewport s)) && (begin (viewport s) <? end_ range)) eqn:Eo.
  - apply andb_true_iff in Eo. destruct Eo as (Eo1 & Eo2).
    apply Z.ltb_lt in Eo1, Eo2.
    apply bind_OK in E. destruct E as (s1 & E1 & E2).
    replace (end_ range <? end_ (viewport s)) with true in E2
      by (symmetry; apply Z.ltb_lt; lia).
    replace (begin (viewport s) <? end_ range) with true in E2
      by (symmetry; apply Z.ltb_lt; lia).
    simpl in E2. inversion E2; subst. simpl.
    replace (end_ range - begin range) with 0 by lia.
    rewrite js_slice_from_0. apply detach_self.
  - match type of E with
    | (if ?c then _ else _) = _ => destruct c eqn:Ec
    end.
    + apply Z.ltb_lt in Ec. lia.
    + inversion E; subst. reflexivity.
Qed.

(** C5. For every range [r], a second [setViewport(r)] right after a first
    one is idle: it returns the grid it was given, so no row node is created
    and none is destroyed. *)
Theorem setViewport_twice_is_idle (s s1 : Grid) (r : Range) :
  begin r <= end_ r ->
  setViewport r s = OK s1 ->
  setViewport r s1 = OK s1.
Proof.
  intros Hr E.
  pose proof (setViewport_verified _ _ _ E) as Hverify.
  pose proof (setViewport_frame _ _ _ E) as (_ & Hvp & _).
  assert (Hdone : debug_verify s1 = OK s1)
    by (unfold debug_verify; rewrite Hverify; reflexivity).
  assert (Hrows : begin r = end_ r -> scrollinggroup s1 = [])
    by (intros Hempty; eapply setViewport_empty_range; eassumption).
  clear E. subst r.
  unfold setViewport. rewrite set_viewport_same.
  simpl. unfold overlap.
  rewrite !Z.ltb_irrefl. simpl.
  destruct (begin (viewport s1) <? end_ (viewport s1)) eqn:Eb; simpl.
  - exact Hdone.
  - apply Z.ltb_ge in Eb.
    rewrite empty_group_of_empty by (apply Hrows; lia).
    match goal with
    | |- bind (if ?c then _ else _) _ = _ => destruct c eqn:Ec
    end.
    + apply Z.ltb_lt in Ec. lia.
    + simpl. exact Hdone.
Qed.

(** A concrete instance of C5: a grid of 100 records showing the rows
    [40,60) is given the viewport {50,70} twice. *)
Lemma setViewport_twice_is_idle_witness :
  exists s s1,
    Scenario.showing defaultOptions 100 310 {| begin := 40; end_ := 60 |} = OK s
    /\ setViewport {| begin := 50; end_ := 70 |} s = OK s1
    /\ map row_idx (scrollinggroup s1) = index_range 50 70
    /\ setViewport {| begin := 50; end_ := 70 |} s1 = OK s1.
Proof.
  eexists. eexists.
  split; [vm_compute; reflexivity|].
  match goal with
  | |- ?first /\ _ => assert (E : first) by (vm_compute; reflexivity)
  end.
  split; [exact E|].
  split; [vm_compute; reflexivity|].
  apply (setViewport_twice_is_idle _ _ {| begin := 50; end_ := 70 |}
           ltac:(simpl; lia) E).
Defined.

(** ** Deletion before the viewport *)




(** ** Stale results *)
















(** A callback queued and invoked with no reset in between does run. *)
Lemma current_is_run w s f : current w s -> invoke w f s = f (w_callback w) s.
Proof.
  intros (_ & q & Hq & Hg). unfold invoke, still_current. rewrite Hq, Hg.
  rewrite Nat.eqb_refl. reflexivity.
Qed.



(** The same promise, resolved by the grid: with no reset in between the
    rows get their ids; after a reset they stay empty shells, while
    [processData], which is not queued, has filled the working set. *)
Example stale_fetch_leaves_rows_empty :
  exists s s_fresh s_stale,
    Scenario.fetching defaultOptions 100 310 {| begin := 0; end_ := 10 |} = OK s
    /\ map row_id (scrollinggroup s) = repeat None 10
    /\ resolve_data 0 Scenario.ten_records s = OK s_fresh
    /\ map row_id (scrollinggroup s_fresh)
       = map (fun i => Some (1000 + i)) (index_range 0 10)
    /\ resolve_data 0 Scenario.ten_records (resetDataSubscriptions s) = OK s_stale
    /\ map row_id (scrollinggroup s_stale) = repeat None 10
    /\ map (getRow s_stale) (index_range 0 10)
       = map (fun r => Some r) Scenario.ten_records.
Proof.
  eexists. eexists. eexists.
  split; [vm_compute; reflexivity|].
  split; [vm_compute; reflexivity|].
  split; [vm_compute; reflexivity|].
  split; [vm_compute; reflexivity|].
  split; [vm_compute; reflexivity|].
  split; vm_compute; reflexivity.
Qed.

(** ** Lazy population of rendered rows *)

Lemma processData_ok ids data ws :
  (length data <= length ids)%nat -> snd (processData ids data ws) = true.
Proof.
  revert ids ws. induction data as [|r data IH]; intros ids ws H; simpl.
  - destruct ids; reflexivity.
  - destruct ids as [|e ids]; simpl in H; [lia|].
    apply IH. lia.
Qed.

Lemma length_source_getData ds start end' :
  length (source_getData ds start end') = length (index_range start end').
Proof. unfold source_getData. apply length_map. Qed.

Lemma getData_synchronous start end' s :
  synchronous (dataSource s) = true ->
  0 <= js_or end' (recordCount s) - start ->
  exists s1,
    getData start end' s = OK (SyncData (source_getData (dataSource s) start end'), s1).
Proof.
  intros Hsync Hlen. unfold getData, new_Array, getRecordCount.
  destruct (js_or end' (recordCount s) - start <? 0) eqn:E;
    [apply Z.ltb_lt in E; lia|].
  simpl. rewrite Hsync.
  match goal with
  | |- context [processData ?ids ?data ?ws] =>
      pose proof (processData_ok ids data ws) as Hok;
      destruct (processData ids data ws) as [ws' ok]
  end.
  simpl in Hok. rewrite Hok.
  - eexists. reflexivity.
  - rewrite length_source_getData, length_seq. lia.
Qed.

Lemma nth_error_count_from start n k :
  (k < n)%nat -> nth_error (count_from start n) k = Some (start + Z.of_nat k).
Proof.
  revert start k. induction n as [|n IH]; intros start k H; [lia|].
  destruct k as [|k]; simpl.
  - f_equal. lia.
  - rewrite IH by lia. f_equal. lia.
Qed.

Lemma nth_record_source_getData ds start end' x :
  start <= x < end' ->
  nth_record (source_getData ds start end') (x - start) = Some (source_row ds x).
Proof.
  intros Hx. unfold nth_record, source_getData, index_range.
  destruct (x - start <? 0) eqn:E; [apply Z.ltb_lt in E; lia|].
  rewrite nth_error_map, nth_error_count_from by lia.
  simpl. do 2 f_equal. lia.
Qed.

Lemma lookup_row_combine start n0 k x :
  start <= x < start + Z.of_nat k ->
  lookup_row x (combine (count_from start k) (seq n0 k))
  = Some (n0 + Z.to_nat (x - start))%nat.
Proof.
  revert start n0. induction k as [|k IH]; intros start n0 Hx; [lia|].
  simpl. destruct (start =? x) eqn:E.
  - apply Z.eqb_eq in E. subst. f_equal. lia.
  - apply Z.eqb_neq in E. rewrite IH by lia. f_equal. lia.
Qed.

Lemma populate_loop_fragment ds start end' rows n0 xs :
  (forall x, In x xs -> start <= x < end') ->
  (forall x, start <= x < end' ->
             lookup_row x rows = Some (n0 + Z.to_nat (x - start))%nat) ->
  forall l,
    (forall row, In row l ->
                 start <= row_idx row < end'
                 /\ node row = (n0 + Z.to_nat (row_idx row - start))%nat) ->
    populate_loop (source_getData ds start end') start rows xs l
    = (map (populated ds xs) l, true).
Proof.
  intros Hxs Hrows. induction xs as [|x xs IH]; intros l Hl; simpl.
  - f_equal. rewrite <- (map_id l) at 1. apply map_ext. intros row. reflexivity.
  - assert (Hx : start <= x < end') by (apply Hxs; left; reflexivity).
    rewrite nth_record_source_getData, Hrows by assumption.
    rewrite IH.
    + f_equal. unfold set_row_id. rewrite map_map. apply map_ext_in.
      intros row Hin. destruct (Hl row Hin) as (Hidx & Hnode).
      unfold populated at 2. simpl.
      destruct (Nat.eqb (node row) (n0 + Z.to_nat (x - start))) eqn:En.
      * apply Nat.eqb_eq in En.
        assert (row_idx row = x) by lia. subst x.
        rewrite Z.eqb_refl. simpl.
        unfold populated. simpl. destruct (existsb _ xs); reflexivity.
      * apply Nat.eqb_neq in En.
        assert (Hne : row_idx row <> x)
          by (intros Heq; apply En; rewrite Hnode, Heq; reflexivity).
        apply Z.eqb_neq in Hne. rewrite Hne. simpl. reflexivity.
    + intros x' Hx'. apply Hxs. right. assumption.
    + intros row Hin. unfold set_row_id in Hin. apply in_map_iff in Hin.
      destruct Hin as (row0 & Heq & Hin0). destruct (Hl row0 Hin0) as (H1 & H2).
      destruct (Nat.eqb (node row0) _); subst row; simpl; split; assumption.
Qed.

Lemma shells_rows n0 start k row :
  In row (shells n0 (count_from start k)) ->
  start <= row_idx row < start + Z.of_nat k
  /\ node row = (n0 + Z.to_nat (row_idx row - start))%nat
  /\ row_id row = None.
Proof.
  unfold shells. rewrite length_count_from.
  revert n0 start. induction k as [|k IH]; intros n0 start Hin; simpl in Hin;
    [contradiction|].
  destruct Hin as [Heq|Hin].
  - subst row. simpl. repeat split; lia.
  - apply IH in Hin. destruct Hin as (H1 & H2 & H3).
    repeat split; [lia | lia | | assumption].
    rewrite H2. lia.
Qed.

Lemma shells_tags n0 xs :
  map row_idx (shells n0 xs) = xs
  /\ map node (shells n0 xs) = seq n0 (length xs).
Proof.
  unfold shells. rewrite !map_map. simpl.
  generalize (length_seq (length xs) n0).
  generalize (seq n0 (length xs)) as ns.
  induction xs as [|x xs IH]; intros ns Hlen; destruct ns as [|n ns];
    simpl in *; try discriminate; try (split; reflexivity).
  destruct (IH ns) as (I1 & I2); [congruence|].
  rewrite I1, I2. split; reflexivity.
Qed.

Lemma existsb_index_range x lo hi :
  existsb (Z.eqb x) (index_range lo hi) = (lo <=? x) && (x <? hi).
Proof.
  destruct (existsb (Z.eqb x) (index_range lo hi)) eqn:E.
  - apply existsb_exists in E. destruct E as (y & Hin & Heq).
    apply Z.eqb_eq in Heq. subst y. apply In_index_range in Hin.
    symmetry. apply andb_true_iff. split; [apply Z.leb_le | apply Z.ltb_lt]; lia.
  - destruct ((lo <=? x) && (x <? hi)) eqn:E2; [|reflexivity].
    apply andb_true_iff in E2. destruct E2 as (H1 & H2).
    apply Z.leb_le in H1. apply Z.ltb_lt in H2.
    assert (Hin : In x (index_range lo hi)) by (apply In_index_range; lia).
    assert (Hex : existsb (Z.eqb x) (index_range lo hi) = true)
      by (apply existsb_exists; exists x; split; [assumption | apply Z.eqb_refl]).
    congruence.
Qed.

Lemma populate_bounds_inside start end' s x :
  In x (index_range (fst (populate_bounds start end' s))
                    (snd (populate_bounds start end' s))) ->
  start <= x < end'.
Proof.
  intros Hx. apply In_index_range in Hx. unfold populate_bounds in Hx.
  destruct (_ || _); simpl in Hx; lia.
Qed.

(** Rendering with the records at hand. *)
Lemma renderRowGroupContents_synchronous s start end' rowgroup prepend atIndex :
  synchronous (dataSource s) = true ->
  0 <= start <= end' ->
  0 <= recordCount s ->
  exists s1,
    getData start end' s
    = OK (SyncData (source_getData (dataSource s) start end'), s1)
    /\ renderRowGroupContents start end' rowgroup prepend atIndex s
       = OK (set_group_rows rowgroup
               (attach (insert_method prepend atIndex)
                  (map (populated (dataSource s)
                          (index_range (fst (populate_bounds start end' s))
                                       (snd (populate_bounds start end' s))))
                       (shells (nextNode s) (index_range start end')))
                  (group_rows rowgroup s))
               (set_nextNode (nextNode s + length (index_range start end'))%nat s1)).
Proof.
  intros Hsync Hrange Hcount.
  unfold renderRowGroupContents.
  replace (start <? 0) with false by (symmetry; apply Z.ltb_ge; lia).
  destruct (getData_synchronous start end' s Hsync) as (s1 & Hget).
  { unfold js_or. destruct (end' =? 0) eqn:E; [apply Z.eqb_eq in E|]; lia. }
  exists s1. split; [exact Hget|].
  rewrite Hget. simpl.
  apply getData_frame in Hget.
  destruct Hget as (((Hopt & Hds & _) & Hrc & Hvp & _) & Hh & Hs & Hf & Hnext & _).
  unfold new_Array.
  replace (end' - start <? 0) with false by (symmetry; apply Z.ltb_ge; lia).
  simpl. unfold populateRows.
  assert (Hb : populate_bounds start end'
                 (set_nextNode (nextNode s1 + length (index_range start end'))%nat s1)
               = populate_bounds start end' s).
  { unfold populate_bounds. simpl. rewrite Hopt, Hrc, Hvp. reflexivity. }
  rewrite Hb. rewrite (surjective_pairing (populate_bounds start end' s)).
  rewrite Hnext.
  rewrite (populate_loop_fragment (dataSource s) start end' _ (nextNode s)).
  - cbv beta iota.
    replace (group_rows rowgroup
               (set_nextNode (nextNode s + length (index_range start end'))%nat s1))
      with (group_rows rowgroup s)
      by (destruct rowgroup; simpl; congruence).
    reflexivity.
  - intros x Hx. apply (populate_bounds_inside start end' s). exact Hx.
  - intros x Hx. unfold index_range. rewrite length_count_from.
    apply lookup_row_combine. lia.
  - intros row Hin. unfold index_range in Hin. apply shells_rows in Hin.
    destruct Hin as (H1 & H2 & _). split; [lia | assumption].
Qed.

Lemma populated_tags ds xs l :
  map row_idx (map (populated ds xs) l) = map row_idx l
  /\ map node (map (populated ds xs) l) = map node l.
Proof.
  rewrite !map_map. split; apply map_ext; intros row;
    unfold populated; destruct (existsb _ _); reflexivity.
Qed.

Lemma populated_shell_id ds lo hi n0 start k row :
  In row (map (populated ds (index_range lo hi)) (shells n0 (count_from start k))) ->
  start <= row_idx row < start + Z.of_nat k
  /\ row_id row = if (lo <=? row_idx row) && (row_idx row <? hi)
                  then Some (rec_id (source_row ds (row_idx row)))
                  else None.
Proof.
  intros Hin. apply in_map_iff in Hin. destruct Hin as (row0 & Heq & Hin0).
  apply shells_rows in Hin0. destruct Hin0 as (Hidx & _ & Hid).
  assert (Hi : row_idx row = row_idx row0)
    by (subst row; unfold populated; destruct (existsb _ _); reflexivity).
  rewrite Hi. split; [assumption|].
  subst row. unfold populated. rewrite existsb_index_range.
  destruct ((lo <=? row_idx row0) && (row_idx row0 <? hi)); simpl;
    [reflexivity | assumption].
Qed.



(** ** Working set entries of the viewport *)

Lemma viewport_loaded_spec s :
  viewport_loaded s = true <->
  (forall i, begin (viewport s) <= i < end_ (viewport s) ->
             is_undefined (workingSet s) i = false).
Proof.
  unfold viewport_loaded. rewrite forallb_forall. split.
  - intros H i Hi. apply negb_true_iff. apply H. apply In_index_range. assumption.
  - intros H i Hi. apply negb_true_iff. apply H. apply In_index_range. assumption.
Qed.

Lemma loaded_verifies s : viewport_loaded s = true -> verify_TypeError s = false.
Proof.
  intros H. rewrite viewport_loaded_spec in H. unfold verify_TypeError.
  destruct (Z.of_nat (length (scrollinggroup s)) =? end_ (viewport s) - begin (viewport s)) eqn:E;
    [|reflexivity].
  apply Z.eqb_eq in E. simpl.
  destruct (existsb _ _) eqn:Ex; [|reflexivity].
  apply existsb_exists in Ex. destruct Ex as (r & Hr & Hu).
  apply In_index_range in Hr. rewrite H in Hu by lia. discriminate.
Qed.

Lemma loaded_debug_verify s : viewport_loaded s = true -> debug_verify s = OK s.
Proof. intros H. unfold debug_verify. rewrite loaded_verifies by assumption. reflexivity. Qed.





Lemma array_get_array_set_nat {A : Type} (a : list (option A)) (n m : nat) (v : A) :
  match nth_error (array_set_nat a n v) m with
  | Some (Some x) => Some x
  | _ => None
  end
  = if Nat.eqb m n then Some v
    else match nth_error a m with
         | Some (Some x) => Some x
         | _ => None
         end.
Proof.
  revert a m. induction n as [|n IH]; intros a m.
  - destruct a as [|h t], m as [|m]; simpl; try reflexivity.
    destruct m; reflexivity.
  - destruct a as [|h t], m as [|m]; simpl; try reflexivity.
    + rewrite IH. destruct (Nat.eqb m n); [reflexivity|]. destruct m; reflexivity.
    + apply IH.
Qed.

Lemma is_undefined_array_set {A : Type} (a : list (option A)) (i j : Z) (v : A) :
  0 <= i ->
  is_undefined (array_set a i v) j = if j =? i then false else is_undefined a j.
Proof.
  intros Hi. unfold is_undefined, array_get, array_set.
  destruct (i <? 0) eqn:Ei; [apply Z.ltb_lt in Ei; lia|].
  destruct (j <? 0) eqn:Ej.
  - apply Z.ltb_lt in Ej. destruct (j =? i) eqn:E; [apply Z.eqb_eq in E; lia|reflexivity].
  - apply Z.ltb_ge in Ej. rewrite array_get_array_set_nat.
    destruct (j =? i) eqn:E.
    + apply Z.eqb_eq in E. subst. rewrite Nat.eqb_refl. reflexivity.
    + apply Z.eqb_neq in E.
      replace (Nat.eqb (Z.to_nat j) (Z.to_nat i)) with false
        by (symmetry; apply Nat.eqb_neq; lia).
      reflexivity.
Qed.

Lemma is_undefined_fold_array_set (l : list (Z * nat)) (ws : list (option WorkingSetEntry)) (j : Z) :
  (forall p, In p l -> 0 <= fst p) ->
  is_undefined
    (fold_left (fun ws xe => array_set ws (fst xe) {| entry := snd xe; record := None |}) l ws) j
  = if existsb (fun p => j =? fst p) l then false else is_undefined ws j.
Proof.
  revert ws. induction l as [|p l IH]; intros ws H; simpl; [reflexivity|].
  rewrite IH by (intros q Hq; apply H; right; assumption).
  rewrite is_undefined_array_set by (apply H; left; reflexivity).
  destruct (j =? fst p); simpl; destruct (existsb _ l); reflexivity.
Qed.

Lemma is_undefined_set_entry_record e r ws j :
  is_undefined (set_entry_record e r ws) j = is_undefined ws j.
Proof.
  unfold is_undefined, array_get, set_entry_record.
  destruct (j <? 0); [reflexivity|].
  rewrite nth_error_map.
  destruct (nth_error ws (Z.to_nat j)) as [[en|]|]; simpl; try reflexivity.
  destruct (Nat.eqb (entry en) e); reflexivity.
Qed.

Lemma is_undefined_processData ids data ws j :
  is_undefined (fst (processData ids data ws)) j = is_undefined ws j.
Proof.
  revert ids ws. induction data as [|r data IH]; intros ids ws; simpl.
  - destruct ids; reflexivity.
  - destruct ids as [|e ids]; simpl; [reflexivity|].
    rewrite IH. apply is_undefined_set_entry_record.
Qed.

Lemma existsb_combine_index (xs : list Z) (ids : list nat) (j : Z) :
  length ids = length xs ->
  existsb (fun p : Z * nat => j =? fst p) (combine xs ids) = existsb (Z.eqb j) xs.
Proof.
  revert ids. induction xs as [|x xs IH]; intros ids H; destruct ids as [|n ids];
    simpl in *; try discriminate; [reflexivity|].
  rewrite IH by congruence. reflexivity.
Qed.

(** What [getData] does to the working set: the rows asked for get an
    entry, the others keep theirs. *)
Lemma getData_loaded start end' s d s1 :
  0 <= start ->
  getData start end' s = OK (d, s1) ->
  forall j, is_undefined (workingSet s1) j
            = if (start <=? j) && (j <? end') then false
              else is_undefined (workingSet s) j.
Proof.
  intros Hstart E j. unfold getData, new_Array in E.
  destruct (js_or end' (getRecordCount s) - start <? 0); simpl in E; [discriminate|].
  assert (Hfold : is_undefined
            (fold_left (fun ws xe => array_set ws (fst xe) {| entry := snd xe; record := None |})
               (combine (index_range start end')
                  (seq (nextEntry s) (length (index_range start end'))))
               (workingSet s)) j
          = if (start <=? j) && (j <? end') then false else is_undefined (workingSet s) j).
  { rewrite is_undefined_fold_array_set.
    - rewrite existsb_combine_index by apply length_seq.
      rewrite existsb_index_range. reflexivity.
    - intros [x n] Hp. apply in_combine_l in Hp. apply In_index_range in Hp.
      simpl. lia. }
  destruct (synchronous (dataSource s)).
  - match type of E with
    | context [processData ?ids ?data ?ws] =>
        pose proof (is_undefined_processData ids data ws j) as Hp;
        destruct (processData ids data ws) as [ws' [|]]
    end; [|discriminate].
    inversion E; subst. simpl in *. rewrite Hp. exact Hfold.
  - inversion E; subst. simpl. exact Hfold.
Qed.

(** Rendering returns, and gives the rows it renders their working set
    entries. *)
Lemma renderRowGroupContents_returns s start end' rowgroup prepend atIndex :
  0 <= start <= end' ->
  0 <= recordCount s ->
  subscribed s = true ->
  exists s',
    renderRowGroupContents start end' rowgroup prepend atIndex s = OK s'
    /\ forall j, is_undefined (workingSet s') j
                 = if (start <=? j) && (j <? end') then false
                   else is_undefined (workingSet s) j.
Proof.
  intros Hrange Hcount Hsub.
  destruct (synchronous (dataSource s)) eqn:Hsync.
  - destruct (renderRowGroupContents_synchronous s start end' rowgroup prepend atIndex
                Hsync Hrange Hcount) as (s1 & Hget & Hrender).
    eexists. split; [exact Hrender|].
    intros j. rewrite <- (getData_loaded start end' s _ s1 ltac:(lia) Hget j).
    destruct rowgroup; reflexivity.
  - unfold renderRowGroupContents.
    replace (start <? 0) with false by (symmetry; apply Z.ltb_ge; lia).
    destruct (getData start end' s) as [[d s1]|e] eqn:Hget.
    2:{ exfalso. unfold getData, new_Array in Hget.
        replace (js_or end' (getRecordCount s) - start <? 0) with false in Hget.
        - simpl in Hget. rewrite Hsync in Hget. discriminate.
        - symmetry. apply Z.ltb_ge. unfold js_or, getRecordCount.
          destruct (end' =? 0) eqn:E; [apply Z.eqb_eq in E|]; lia. }
    pose proof (getData_loaded start end' s d s1 ltac:(lia) Hget) as Hws.
    assert (Hd : exists ids, d = AsyncData ids).
    { unfold getData in Hget. destruct (new_Array _); simpl in Hget; [|discriminate].
      rewrite Hsync in Hget. inversion Hget. eexists. reflexivity. }
    destruct Hd as (ids & ->).
    apply getData_frame in Hget.
    destruct Hget as (((_ & _ & _ & _ & Hq & Hds) & _) & _).
    simpl. unfold new_Array.
    replace (end' - start <? 0) with false by (symmetry; apply Z.ltb_ge; lia).
    simpl. unfold subscribed in Hsub. rewrite Hds, Hq.
    destruct (dataSubscriptions s) as [ref|]; [|discriminate].
    destruct (nth_error (queues s) ref) as [q|]; [|discriminate].
    eexists. split; [reflexivity|].
    intros j. rewrite <- Hws. destruct rowgroup; reflexivity.
Qed.

(** ** The viewport patch returns *)

Lemma subscribed_environment s s' :
  same_environment s s' -> subscribed s' = subscribed s.
Proof.
  intros (_ & _ & _ & _ & Hq & Hds). unfold subscribed. rewrite Hq, Hds. reflexivity.
Qed.

(** One rendering step of a patch. *)
Lemma render_step s start end' prepend atIndex :
  0 <= start <= end' ->
  0 <= recordCount s ->
  subscribed s = true ->
  exists s',
    renderRowGroupContents start end' ScrollingGroup prepend atIndex s = OK s'
    /\ render_frame s s'
    /\ forall j, is_undefined (workingSet s') j
                 = if (start <=? j) && (j <? end') then false
                   else is_undefined (workingSet s) j.
Proof.
  intros H1 H2 H3.
  destruct (renderRowGroupContents_returns s start end' ScrollingGroup prepend atIndex
              H1 H2 H3) as (s' & Hs' & Hws).
  exists s'. split; [exact Hs'|]. split; [|exact Hws].
  eapply renderRowGroupContents_frame. exact Hs'.
Qed.

Lemma setViewport_returns s range :
  0 <= frozenRowsTop (options s) ->
  0 <= frozenRowsBottom (options s) ->
  between_frozen_rows s (viewport s) ->
  between_frozen_rows s range ->
  viewport_loaded s = true ->
  subscribed s = true ->
  exists s', setViewport range s = OK s' /\ viewport_loaded s' = true.
Proof.
  intros Htop Hbottom (Hp1 & Hp2 & Hp3) (Hr1 & Hr2 & Hr3) Hloaded Hsub.
  rewrite viewport_loaded_spec in Hloaded.
  unfold setViewport, getRecordCount. simpl.
  set (s0 := set_viewport range s).
  assert (Hs0 : subscribed s0 = true) by exact Hsub.
  assert (Hrc0 : 0 <= recordCount s0) by (simpl; lia).
  assert (Hfinish : forall s2,
             viewport s2 = range ->
             (forall i, begin range <= i < end_ range ->
                        is_undefined (workingSet s2) i = false) ->
             exists s', debug_verify s2 = OK s' /\ viewport_loaded s' = true).
  { intros s2 Hvp Hall.
    assert (Hl : viewport_loaded s2 = true)
      by (apply viewport_loaded_spec; rewrite Hvp; exact Hall).
    exists s2. split; [apply loaded_debug_verify|]; assumption. }
  unfold overlap.
  destruct ((begin range <? end_ (viewport s)) && (begin (viewport s) <? end_ range)) eqn:Eo.
  - to_Prop.
    (* first the beginning of the range *)
    assert (Hfirst : exists s1,
               (if begin range <? begin (viewport s)
                then renderRowGroupContents
                       (Z.max (frozenRowsTop (options s)) (begin range))
                       (Z.min (end_ range) (begin (viewport s)))
                       ScrollingGroup true None s0
                else if begin (viewport s) <? begin range
                     then OK (destroyRows
                                (js_slice (scrollinggroup s) 0
                                   (begin range - begin (viewport s))) s0)
                     else OK s0) = OK s1
               /\ keeps_viewport s0 s1
               /\ forall i, begin range <= i < end_ (viewport s) ->
                            is_undefined (workingSet s1) i = false).
    { destruct (begin range <? begin (viewport s)) eqn:E1; to_Prop.
      - rewrite Z.max_r, Z.min_r by lia.
        destruct (render_step s0 (begin range) (begin (viewport s)) true None
                    ltac:(lia) Hrc0 Hs0) as (s1 & Hs1 & Hf & Hws).
        exists s1. split; [exact Hs1|]. split.
        + destruct Hf as (A & B & C & _). split; [|split]; assumption.
        + intros i Hi. rewrite Hws. case_if; [reflexivity|]. to_Prop.
          apply Hloaded.
          destruct (Z.lt_ge_cases i (begin (viewport s))); [|lia].
          destruct (begin range <=? i) eqn:E2; to_Prop; simpl in *; [|lia].
          to_Prop. lia.
      - destruct (begin (viewport s) <? begin range) eqn:E2; to_Prop;
          eexists; (split; [reflexivity|]); (split;
            [first [apply destroyRows_keeps_viewport | apply keeps_viewport_refl]|]);
          intros i Hi; apply Hloaded; lia. }
    destruct Hfirst as (s1 & -> & (Henv1 & Hvp1 & Hrc1) & Hws1). simpl.
    assert (Hs1 : subscribed s1 = true)
      by (rewrite (subscribed_environment s0 s1 Henv1); exact Hs0).
    destruct ((end_ range <? end_ (viewport s)) && (begin (viewport s) <? end_ range)) eqn:E3.
    + to_Prop. simpl. apply Hfinish; [simpl; exact Hvp1|].
      intros i Hi. simpl. apply Hws1. lia.
    + destruct (end_ (viewport s) <? end_ range) eqn:E4; to_Prop.
      * rewrite Z.max_l, Z.min_l by lia.
        destruct (render_step s1 (end_ (viewport s)) (end_ range) false None
                    ltac:(lia) ltac:(rewrite Hrc1; exact Hrc0) Hs1)
          as (s2 & Hs2 & (_ & _ & Hvp2 & _) & Hws2).
        rewrite Hs2. simpl. apply Hfinish; [rewrite Hvp2; exact Hvp1|].
        intros i Hi. rewrite Hws2. case_if; [reflexivity|].
        apply Hws1.
        destruct (end_ (viewport s) <=? i) eqn:E5; to_Prop; simpl in *; [|lia].
        to_Prop. lia.
      * simpl. apply Hfinish; [exact Hvp1|].
        intros i Hi. apply Hws1.
        assert (end_ range <= end_ (viewport s)) by lia.
        apply andb_false_iff in E3. destruct E3 as [E3|E3]; to_Prop; lia.
  - match goal with
    | |- context [if ?c then _ else _] => destruct c eqn:E1
    end; to_Prop.
    + rewrite Z.max_r, Z.min_l by lia.
      destruct (render_step (empty_group ScrollingGroup s0) (begin range) (end_ range)
                  false None ltac:(lia) Hrc0 Hs0)
        as (s2 & Hs2 & (_ & _ & Hvp2 & _) & Hws2).
      rewrite Hs2. simpl. apply Hfinish; [rewrite Hvp2; reflexivity|].
      intros i Hi. rewrite Hws2.
      replace ((begin range <=? i) && (i <? end_ range)) with true; [reflexivity|].
      symmetry. apply andb_true_iff. split; [apply Z.leb_le | apply Z.ltb_lt]; lia.
    + simpl. apply Hfinish; [reflexivity|]. intros i Hi. lia.
Qed.

(** ** Insertion returns *)

Lemma array_get_repeat_None {A : Type} (n : nat) (k : nat) :
  match nth_error (repeat (@None A) n) k with
  | Some (Some v) => Some v
  | _ => None
  end = None.
Proof.
  revert k. induction n as [|n IH]; intros k; destruct k; simpl; try reflexivity.
  apply IH.
Qed.




(** ** The two phases of the viewport update *)

Lemma renderRowGroupContents_attaches start end' g p a s s' :
  renderRowGroupContents start end' g p a s = OK s' ->
  exists fragment,
    group_rows g s' = attach (insert_method p a) fragment (group_rows g s).
Proof.
  unfold renderRowGroupContents. intros E.
  apply bind_OK in E. destruct E as ([d s1] & Hd & E).
  apply getData_frame in Hd.
  destruct Hd as (_ & Hh & Hs & Hf & _).
  apply bind_OK in E. destruct E as (holes & _ & E).
  assert (G : group_rows g (set_nextNode (nextNode s1 + length (index_range start end'))%nat s1)
              = group_rows g s) by (destruct g; simpl; assumption).
  destruct d as [data|ids].
  - destruct (populateRows _ _ _ _ _ _) as [fragment' [|]]; [|discriminate].
    inversion E; subst. exists fragment'. rewrite G. destruct g; reflexivity.
  - destruct (dataSubscriptions _) as [ref|]; [|discriminate].
    destruct (nth_error _ ref) as [q|]; [|discriminate].
    inversion E; subst. eexists. rewrite G. destruct g; reflexivity.
Qed.

(** A viewport that only grows keeps every row it has. *)
Lemma setViewport_grows range s s' :
  begin range <= begin (viewport s) ->
  end_ (viewport s) <= end_ range ->
  scrollinggroup s = [] \/ begin (viewport s) < end_ (viewport s) ->
  setViewport range s = OK s' ->
  disposed s' = disposed s
  /\ exists before after, scrollinggroup s' = before ++ scrollinggroup s ++ after.
Proof.
  intros Hb He Hrows E. unfold setViewport in E.
  apply bind_OK in E. destruct E as (s2 & E & Hv).
  apply debug_verify_OK in Hv. subst s'. simpl in E.
  unfold overlap in E.
  destruct ((begin range <? end_ (viewport s)) && (begin (viewport s) <? end_ range)) eqn:Eo.
  - apply bind_OK in E. destruct E as (s1 & E1 & E2).
    assert (H1 : disposed s1 = disposed s
                 /\ exists before, scrollinggroup s1 = before ++ scrollinggroup s).
    { destruct (begin range <? begin (viewport s)) eqn:Eb.
      - pose proof (renderRowGroupContents_frame _ _ _ _ _ _ _ E1) as (_ & _ & _ & Hd & _).
        apply renderRowGroupContents_attaches in E1. destruct E1 as (fragment & Hf).
        split; [exact Hd|]. exists fragment. exact Hf.
      - replace (begin (viewport s) <? begin range) with false in E1
          by (symmetry; apply Z.ltb_ge; lia).
        inversion E1; subst. split; [reflexivity|]. exists []. reflexivity. }
    destruct H1 as (Hd1 & before & Hr1).
    replace (end_ range <? end_ (viewport s)) with false in E2
      by (symmetry; apply Z.ltb_ge; lia).
    simpl in E2.
    destruct (end_ (viewport s) <? end_ range).
    + pose proof (renderRowGroupContents_frame _ _ _ _ _ _ _ E2) as (_ & _ & _ & Hd & _).
      apply renderRowGroupContents_attaches in E2. destruct E2 as (fragment & Hf).
      split; [congruence|]. exists before, fragment.
      simpl in Hf. rewrite Hf, Hr1, app_assoc. reflexivity.
    + inversion E2; subst. split; [exact Hd1|].
      exists before, []. rewrite app_nil_r. exact Hr1.
  - assert (Hnil : scrollinggroup s = []).
    { destruct Hrows as [Hnil|Hlt]; [exact Hnil|].
      apply andb_false_iff in Eo. destruct Eo; to_Prop; lia. }
    match type of E with
    | (if ?c then _ else _) = _ => destruct c
    end.
    + pose proof (renderRowGroupContents_frame _ _ _ _ _ _ _ E) as (_ & _ & _ & Hd & _).
      apply renderRowGroupContents_attaches in E. destruct E as (fragment & Hf).
      simpl in Hd, Hf. rewrite Hnil, app_nil_r in Hd.
      split; [exact Hd|]. exists [], fragment. rewrite Hf, Hnil. reflexivity.
    + inversion E; subst. simpl. rewrite Hnil, app_nil_r.
      split; [reflexivity|]. exists [], []. reflexivity.
Qed.

Lemma visibleRows_environment s s' :
  same_environment s s' -> recordCount s' = recordCount s ->
  visibleRows s' = visibleRows s /\ rowsInViewWithExcess s' = rowsInViewWithExcess s.
Proof.
  intros (Ho & _ & Ht & Hh & _) Hrc.
  assert (Hloop : forall top bottom n x ct b,
             rowsInView_loop s' top bottom n x ct b = rowsInView_loop s top bottom n x ct b).
  { intros top bottom n. induction n as [|n IH]; intros x ct b; simpl; [reflexivity|].
    unfold rowHeight. rewrite Ho, !IH. reflexivity. }
  assert (Hv : visibleRows s' = visibleRows s).
  { unfold visibleRows, rowsInView, getRecordCount.
    rewrite Ho, Ht, Hh, Hrc, Hloop. reflexivity. }
  split; [exact Hv|].
  unfold rowsInViewWithExcess, getRecordCount. rewrite Hv, Ho, Hrc. reflexivity.
Qed.

(** ** The rows of a viewport patch *)

Lemma count_from_app start n m :
  count_from start n ++ count_from (start + Z.of_nat n) m = count_from start (n + m).
Proof.
  revert start. induction n as [|n IH]; intros start; simpl.
  - f_equal. lia.
  - f_equal. rewrite <- IH. do 2 f_equal. lia.
Qed.

Lemma index_range_app a b c :
  a <= b <= c -> index_range a b ++ index_range b c = index_range a c.
Proof.
  intros H. unfold index_range.
  replace b with (a + Z.of_nat (Z.to_nat (b - a))) at 2 by lia.
  rewrite count_from_app. f_equal. lia.
Qed.

Lemma skipn_count_from k start n :
  skipn k (count_from start n) = count_from (start + Z.of_nat k) (n - k).
Proof.
  revert start n. induction k as [|k IH]; intros start n; simpl.
  - f_equal; lia.
  - destruct n as [|n]; simpl; [reflexivity|].
    rewrite IH. f_equal. lia.
Qed.

Lemma firstn_count_from k start n :
  firstn k (count_from start n) = count_from start (Nat.min k n).
Proof.
  revert start n. induction k as [|k IH]; intros start n; simpl; [reflexivity|].
  destruct n as [|n]; simpl; [reflexivity|].
  rewrite IH. reflexivity.
Qed.

Lemma skipn_index_range a b k :
  0 <= k -> skipn (Z.to_nat k) (index_range a b) = index_range (a + k) (Z.max (a + k) b).
Proof.
  intros Hk. unfold index_range. rewrite skipn_count_from.
  f_equal; lia.
Qed.

Lemma firstn_index_range a b k :
  0 <= k -> a + k <= b -> firstn (Z.to_nat k) (index_range a b) = index_range a (a + k).
Proof.
  intros Hk Hb. unfold index_range. rewrite firstn_count_from.
  f_equal. lia.
Qed.

Lemma is_among_In rows r :
  is_among rows r = true <-> In (node r) (map node rows).
Proof.
  unfold is_among. rewrite existsb_exists. split.
  - intros (d & Hin & Heq). apply Nat.eqb_eq in Heq. rewrite <- Heq.
    apply in_map. assumption.
  - intros Hin. apply in_map_iff in Hin. destruct Hin as (d & Heq & Hin).
    exists d. split; [assumption | apply Nat.eqb_eq; assumption].
Qed.

Lemma detach_none rows l :
  (forall r, In r l -> ~ In (node r) (map node rows)) -> detach rows l = l.
Proof.
  unfold detach. induction l as [|r l IH]; intros H; simpl; [reflexivity|].
  destruct (is_among rows r) eqn:E.
  - apply is_among_In in E. exfalso. apply (H r); [left; reflexivity | assumption].
  - simpl. f_equal. apply IH. intros r' Hr'. apply H. right. assumption.
Qed.

Lemma detach_all rows l :
  (forall r, In r l -> In (node r) (map node rows)) -> detach rows l = [].
Proof.
  unfold detach. induction l as [|r l IH]; intros H; simpl; [reflexivity|].
  replace (is_among rows r) with true
    by (symmetry; apply is_among_In; apply H; left; reflexivity).
  simpl. apply IH. intros r' Hr'. apply H. right. assumption.
Qed.

Lemma detach_app rows l1 l2 :
  detach rows (l1 ++ l2) = detach rows l1 ++ detach rows l2.
Proof. unfold detach. apply filter_app. Qed.

Lemma NoDup_app_disjoint {A : Type} (l1 l2 : list A) :
  NoDup (l1 ++ l2) -> forall x, In x l1 -> ~ In x l2.
Proof.
  induction l1 as [|a l1 IH]; intros H x Hin; [contradiction|].
  simpl in H. inversion H as [|? ? Hnotin Hnd]; subst.
  destruct Hin as [->|Hin].
  - intros Hin2. apply Hnotin. apply in_or_app. right. assumption.
  - apply IH; assumption.
Qed.

(** Detaching the first rows of a group leaves the others, and the other
    way round. *)
Lemma detach_prefix l n :
  NoDup (map node l) -> detach (firstn n l) l = skipn n l.
Proof.
  intros Hnd. rewrite <- (firstn_skipn n l) at 2. rewrite detach_app.
  rewrite <- (firstn_skipn n l) in Hnd. rewrite map_app in Hnd.
  rewrite detach_all by (intros r Hr; apply in_map; assumption).
  rewrite detach_none; [reflexivity|].
  intros r Hr Hin.
  apply (NoDup_app_disjoint _ _ Hnd (node r)); [assumption | apply in_map; assumption].
Qed.

Lemma detach_suffix l n :
  NoDup (map node l) -> detach (skipn n l) l = firstn n l.
Proof.
  intros Hnd. rewrite <- (firstn_skipn n l) at 2. rewrite detach_app.
  rewrite <- (firstn_skipn n l) in Hnd. rewrite map_app in Hnd.
  rewrite (detach_all _ (skipn n l)) by (intros r Hr; apply in_map; assumption).
  rewrite detach_none; [apply app_nil_r|].
  intros r Hr Hin.
  apply (NoDup_app_disjoint _ _ Hnd (node r)); [apply in_map; assumption | assumption].
Qed.

Lemma populate_loop_tags data start rows xs l :
  map row_idx (fst (populate_loop data start rows xs l)) = map row_idx l
  /\ map node (fst (populate_loop data start rows xs l)) = map node l.
Proof.
  revert l. induction xs as [|x xs IH]; intros l; simpl; [split; reflexivity|].
  destruct (nth_record data (x - start)) as [rec|]; [|split; reflexivity].
  destruct (lookup_row x rows) as [n|]; [|split; reflexivity].
  destruct (IH (set_row_id n (rec_id rec) l)) as (I1 & I2).
  rewrite I1, I2. unfold set_row_id. rewrite !map_map.
  split; apply map_ext; intros r; destruct (Nat.eqb (node r) n); reflexivity.
Qed.

(** The rows a rendering inserts. *)
Lemma renderRowGroupContents_rows start end' g p a s s' :
  renderRowGroupContents start end' g p a s = OK s' ->
  nextNode s' = (nextNode s + length (index_range start end'))%nat
  /\ exists fragment,
       group_rows g s' = attach (insert_method p a) fragment (group_rows g s)
       /\ map row_idx fragment = index_range start end'
       /\ map node fragment = seq (nextNode s) (length (index_range start end')).
Proof.
  unfold renderRowGroupContents. intros E.
  apply bind_OK in E. destruct E as ([d s1] & Hd & E).
  apply getData_frame in Hd.
  destruct Hd as (_ & Hh & Hs & Hf & Hnext & _).
  apply bind_OK in E. destruct E as (holes & _ & E).
  assert (G : forall n, group_rows g (set_nextNode n s1) = group_rows g s)
    by (intros n; destruct g; simpl; assumption).
  destruct (shells_tags (nextNode s) (index_range start end')) as (S1 & S2).
  rewrite Hnext in E.
  destruct d as [data|ids].
  - unfold populateRows in E.
    destruct (populate_bounds _ _ _) as [lo hi].
    match type of E with
    | context [populate_loop ?d ?st ?rows ?xs ?l] =>
        pose proof (populate_loop_tags d st rows xs l) as (T1 & T2);
        destruct (populate_loop d st rows xs l) as [fragment' [|]]
    end; [|discriminate].
    simpl in T1, T2. inversion E; subst.
    split; [destruct g; reflexivity|].
    exists fragment'. rewrite G.
    split; [destruct g; reflexivity|]. split; congruence.
  - destruct (dataSubscriptions _) as [ref|]; [|discriminate].
    destruct (nth_error _ ref) as [q|]; [|discriminate].
    inversion E; subst.
    split; [destruct g; reflexivity|].
    eexists. rewrite G.
    split; [destruct g; reflexivity|]. split; assumption.
Qed.

Lemma NoDup_fresh_app (old : list nat) (n0 k : nat) :
  NoDup old -> Forall (fun n => (n < n0)%nat) old ->
  NoDup (seq n0 k ++ old) /\ NoDup (old ++ seq n0 k)
  /\ Forall (fun n => (n < n0 + k)%nat) (seq n0 k ++ old)
  /\ Forall (fun n => (n < n0 + k)%nat) (old ++ seq n0 k).
Proof.
  intros Hnd Hold. rewrite Forall_forall in Hold.
  assert (Hdisj : forall x, In x (seq n0 k) -> ~ In x old).
  { intros x Hx Hin. apply in_seq in Hx. specialize (Hold x Hin). lia. }
  assert (Hfresh : NoDup (seq n0 k ++ old)).
  { apply NoDup_app; [apply seq_NoDup | assumption | exact Hdisj]. }
  assert (Hall : forall x, In x (seq n0 k ++ old) -> (x < n0 + k)%nat).
  { intros x Hx. apply in_app_or in Hx. destruct Hx as [Hx|Hx].
    - apply in_seq in Hx. lia.
    - specialize (Hold x Hx). lia. }
  split; [exact Hfresh|]. split.
  - apply NoDup_app; [assumption | apply seq_NoDup |].
    intros x Hx Hin. apply (Hdisj x); assumption.
  - split; apply Forall_forall; intros x Hx; apply Hall.
    + assumption.
    + apply in_or_app. apply in_app_or in Hx. destruct Hx; [right | left]; assumption.
Qed.

Lemma window_prepend t t' a b c :
  window_materialized t b c -> a <= b <= c ->
  renderRowGroupContents a b ScrollingGroup true None t = OK t' ->
  window_materialized t' a c.
Proof.
  intros (Hidx & Hnd & Hlt) Habc E.
  apply renderRowGroupContents_rows in E.
  destruct E as (Hnext & fragment & Hrows & Fidx & Fnode).
  simpl in Hrows.
  destruct (NoDup_fresh_app _ (nextNode t) (length (index_range a b)) Hnd Hlt)
    as (N1 & _ & L1 & _).
  unfold window_materialized. rewrite Hrows, Hnext, !map_app, Fidx, Fnode, Hidx.
  split; [apply index_range_app; assumption|]. split; assumption.
Qed.

Lemma window_append t t' a b c :
  window_materialized t a b -> a <= b <= c ->
  renderRowGroupContents b c ScrollingGroup false None t = OK t' ->
  window_materialized t' a c.
Proof.
  intros (Hidx & Hnd & Hlt) Habc E.
  apply renderRowGroupContents_rows in E.
  destruct E as (Hnext & fragment & Hrows & Fidx & Fnode).
  simpl in Hrows.
  destruct (NoDup_fresh_app _ (nextNode t) (length (index_range b c)) Hnd Hlt)
    as (_ & N2 & _ & L2).
  unfold window_materialized. rewrite Hrows, Hnext, !map_app, Fidx, Fnode, Hidx.
  split; [apply index_range_app; assumption|]. split; assumption.
Qed.

Lemma NoDup_skipn {A : Type} (l : list A) n : NoDup l -> NoDup (skipn n l).
Proof.
  intros H. rewrite <- (firstn_skipn n l) in H. apply NoDup_app_remove_l in H. exact H.
Qed.

Lemma NoDup_firstn {A : Type} (l : list A) n : NoDup l -> NoDup (firstn n l).
Proof.
  intros H. rewrite <- (firstn_skipn n l) in H. apply NoDup_app_remove_r in H. exact H.
Qed.

Lemma Forall_skipn {A : Type} (P : A -> Prop) (l : list A) n :
  Forall P l -> Forall P (skipn n l).
Proof.
  intros H. rewrite <- (firstn_skipn n l) in H. apply Forall_app in H. apply H.
Qed.

Lemma Forall_firstn {A : Type} (P : A -> Prop) (l : list A) n :
  Forall P l -> Forall P (firstn n l).
Proof.
  intros H. rewrite <- (firstn_skipn n l) in H. apply Forall_app in H. apply H.
Qed.

Lemma window_destroy_prefix t a c k :
  window_materialized t a c -> 0 <= k -> a + k <= c ->
  window_materialized (destroyRows (js_slice (scrollinggroup t) 0 k) t) (a + k) c.
Proof.
  intros (Hidx & Hnd & Hlt) Hk Hc. unfold window_materialized. simpl.
  rewrite js_slice_prefix by assumption. rewrite detach_prefix by assumption.
  rewrite <- !skipn_map. rewrite Hidx, skipn_index_range by assumption.
  split; [f_equal; lia|].
  split; [apply NoDup_skipn | apply Forall_skipn]; assumption.
Qed.

Lemma window_destroy_suffix t a c k :
  window_materialized t a c -> 0 <= k -> a + k <= c ->
  window_materialized (destroyRows (js_slice_from (scrollinggroup t) k) t) a (a + k).
Proof.
  intros (Hidx & Hnd & Hlt) Hk Hc. unfold window_materialized. simpl.
  rewrite js_slice_from_suffix by assumption. rewrite detach_suffix by assumption.
  rewrite <- !firstn_map. rewrite Hidx, firstn_index_range by assumption.
  split; [reflexivity|].
  split; [apply NoDup_firstn | apply Forall_firstn]; assumption.
Qed.

Lemma window_empty t a :
  window_materialized (empty_group ScrollingGroup t) a a.
Proof.
  unfold window_materialized. simpl. unfold index_range.
  rewrite Z.sub_diag. simpl. split; [reflexivity|]. split; constructor.
Qed.

Lemma window_same_rows t t' a b :
  window_materialized t a b ->
  scrollinggroup t' = scrollinggroup t -> nextNode t' = nextNode t ->
  window_materialized t' a b.
Proof. unfold window_materialized. intros H -> ->. exact H. Qed.

Lemma Z_list_eqb_eq (a b : list Z) : Z_list_eqb a b = true <-> a = b.
Proof.
  unfold Z_list_eqb. revert b. induction a as [|x a IH]; intros b; destruct b as [|y b];
    simpl; split; intros H; try reflexivity; try discriminate.
  - apply andb_true_iff in H. destruct H as (Hl & H).
    apply andb_true_iff in H. destruct H as (Hxy & H).
    apply Z.eqb_eq in Hxy. subst y. f_equal. apply IH.
    apply andb_true_iff. split; assumption.
  - inversion H; subst.
    assert (H' : Nat.eqb (length b) (length b)
                 && forallb (fun p : Z * Z => fst p =? snd p) (combine b b) = true)
      by (apply IH; reflexivity).
    apply andb_true_iff in H'. destruct H' as (Hl & H').
    rewrite Hl, Z.eqb_refl, H'. reflexivity.
Qed.

Lemma distinct_NoDup (l : list nat) : distinct l = true <-> NoDup l.
Proof.
  induction l as [|n l IH]; simpl.
  - split; [constructor | reflexivity].
  - rewrite andb_true_iff, negb_true_iff, IH. split.
    + intros (Hn & Hnd). constructor; [|assumption].
      intros Hin. assert (existsb (Nat.eqb n) l = true); [|congruence].
      apply existsb_exists. exists n. split; [assumption | apply Nat.eqb_refl].
    + intros H. inversion H as [|? ? Hnotin Hnd]; subst. split; [|assumption].
      destruct (existsb (Nat.eqb n) l) eqn:E; [|reflexivity].
      apply existsb_exists in E. destruct E as (m & Hin & Heq).
      apply Nat.eqb_eq in Heq. subst m. contradiction.
Qed.

Lemma rows_materialized_spec s :
  rows_materialized s = true
  <-> window_materialized s (begin (viewport s)) (end_ (viewport s)).
Proof.
  unfold rows_materialized, window_materialized.
  rewrite !andb_true_iff, Z_list_eqb_eq, distinct_NoDup, forallb_forall, Forall_forall.
  split.
  - intros ((H1 & H2) & H3). split; [assumption|]. split; [assumption|].
    intros n Hn. apply Nat.ltb_lt. apply H3. assumption.
  - intros (H1 & H2 & H3). split; [split; assumption|].
    intros n Hn. apply Nat.ltb_lt. apply H3. assumption.
Qed.

(** The patch of [setViewport] materializes the rows of the new viewport:
    between the frozen rows, it keeps the invariant of the scrolling
    group. *)
Lemma setViewport_materializes s range s' :
  between_frozen_rows s (viewport s) ->
  between_frozen_rows s range ->
  rows_materialized s = true ->
  setViewport range s = OK s' ->
  rows_materialized s' = true.
Proof.
  intros (P1 & P2 & P3) (R1 & R2 & R3) Hrows E.
  pose proof (setViewport_frame _ _ _ E) as (_ & Hvp & _).
  apply rows_materialized_spec. rewrite Hvp. clear Hvp.
  apply rows_materialized_spec in Hrows.
  unfold setViewport, getRecordCount in E.
  apply bind_OK in E. destruct E as (s2 & E & Hv).
  apply debug_verify_OK in Hv. subst s'. simpl in E. unfold overlap in E.
  assert (Hstart : window_materialized (set_viewport range s)
                 (begin (viewport s)) (end_ (viewport s))) by exact Hrows.
  destruct ((begin range <? end_ (viewport s)) && (begin (viewport s) <? end_ range)) eqn:Eo.
  - to_Prop.
    apply bind_OK in E. destruct E as (s1 & E1 & E2).
    assert (Hfirst : window_materialized s1 (begin range) (end_ (viewport s))).
    { destruct (begin range <? begin (viewport s)) eqn:Eb; to_Prop.
      - rewrite Z.max_r, Z.min_r in E1 by lia.
        eapply window_prepend; [exact Hstart | lia | exact E1].
      - destruct (begin (viewport s) <? begin range) eqn:Eb2; to_Prop;
          inversion E1; subst.
        + replace (begin range) with
            (begin (viewport s) + (begin range - begin (viewport s))) at 2 by lia.
          apply (window_destroy_prefix (set_viewport range s)); [exact Hstart | lia | lia].
        + replace (begin range) with (begin (viewport s)) by lia. exact Hstart. }
    destruct ((end_ range <? end_ (viewport s)) && (begin (viewport s) <? end_ range)) eqn:Ee.
    + to_Prop. inversion E2; subst.
      replace (end_ range) with (begin range + (end_ range - begin range)) at 2 by lia.
      apply (window_destroy_suffix s1 (begin range) (end_ (viewport s)));
        [exact Hfirst | lia | lia].
    + destruct (end_ (viewport s) <? end_ range) eqn:Ee2; to_Prop.
      * rewrite Z.max_l, Z.min_l in E2 by lia.
        eapply window_append; [exact Hfirst | lia | exact E2].
      * inversion E2; subst.
        apply andb_false_iff in Ee.
        replace (end_ range) with (end_ (viewport s))
          by (destruct Ee; to_Prop; lia).
        exact Hfirst.
  - match type of E with
    | (if ?c then _ else _) = _ => destruct c eqn:Ec
    end; to_Prop.
    + rewrite Z.max_r, Z.min_l in E by lia.
      eapply window_append;
        [apply (window_empty (set_viewport range s) (begin range)) | lia | exact E].
    + inversion E; subst.
      replace (end_ range) with (begin range) by lia. apply window_empty.
Qed.

(** The two phases, one after the other. *)
Lemma updateViewport_phases (s : Grid) :
  0 <= virtualScrollingExcess (options s) ->
  0 <= frozenRowsTop (options s) ->
  0 <= frozenRowsBottom (options s) ->
  between_frozen_rows s (viewport s) ->
  between_frozen_rows s (visibleRows s) ->
  viewport_loaded s = true ->
  subscribed s = true ->
  rows_materialized s = true ->
  exists s1 s2,
    updateViewportImmediate false s = OK s1
    /\ viewport s1
       = (if overlap (viewport s) (rowsInViewWithExcess s)
          then hull (visibleRows s) (viewport s)
          else visibleRows s)
    /\ rows_materialized s1 = true
    /\ (overlap (viewport s) (rowsInViewWithExcess s) = true ->
        disposed s1 = disposed s
        /\ exists before after,
             scrollinggroup s1 = before ++ scrollinggroup s ++ after)
    /\ updateViewportImmediate true s1 = OK s2
    /\ viewport s2 = rowsInViewWithExcess s
    /\ rows_materialized s2 = true.
Proof.
  intros Hex Htop Hbottom Hvp Hvis Hloaded Hsub Hrows.
  pose proof Hvp as (P1 & P2 & P3). pose proof Hvis as (V1 & V2 & V3).
  set (range1 := if overlap (viewport s) (rowsInViewWithExcess s)
                 then hull (visibleRows s) (viewport s)
                 else visibleRows s).
  assert (Hrange1 : between_frozen_rows s range1).
  { subst range1. unfold between_frozen_rows, hull.
    destruct (overlap _ _); simpl; lia. }
  destruct (setViewport_returns s range1 Htop Hbottom Hvp Hrange1 Hloaded Hsub)
    as (s1 & Hs1 & Hl1).
  pose proof (setViewport_frame _ _ _ Hs1) as (Henv1 & Hvp1 & Hrc1).
  pose proof (setViewport_materializes s range1 s1 Hvp Hrange1 Hrows Hs1) as Hrows1.
  destruct (visibleRows_environment s s1 Henv1 Hrc1) as (Hvis1 & Hexc1).
  pose proof Henv1 as (Ho & _).
  assert (Hb1 : between_frozen_rows s1 (viewport s1)).
  { rewrite Hvp1. unfold between_frozen_rows in *. rewrite Ho, Hrc1. exact Hrange1. }
  assert (Hb2 : between_frozen_rows s1 (rowsInViewWithExcess s1)).
  { rewrite Hexc1. unfold between_frozen_rows, rowsInViewWithExcess, getRecordCount.
    rewrite Ho, Hrc1. simpl. lia. }
  destruct (setViewport_returns s1 (rowsInViewWithExcess s1)
              ltac:(rewrite Ho; exact Htop) ltac:(rewrite Ho; exact Hbottom)
              Hb1 Hb2 Hl1
              ltac:(rewrite (subscribed_environment s s1 Henv1); exact Hsub))
    as (s2 & Hs2 & _).
  pose proof (setViewport_materializes s1 _ s2 Hb1 Hb2 Hrows1 Hs2) as Hrows2.
  exists s1, s2.
  split; [exact Hs1|].
  split; [exact Hvp1|].
  split; [exact Hrows1|].
  split.
  - intros Ho'. apply (setViewport_grows range1 s s1); try assumption.
    + subst range1. rewrite Ho'. unfold hull. simpl. lia.
    + subst range1. rewrite Ho'. unfold hull. simpl. lia.
    + destruct (Z.eq_dec (begin (viewport s)) (end_ (viewport s))) as [Heq|Hne]; [left | right; lia].
      apply rows_materialized_spec in Hrows. destruct Hrows as (Hidx & _).
      rewrite Heq in Hidx. unfold index_range in Hidx. rewrite Z.sub_diag in Hidx.
      simpl in Hidx. apply map_eq_nil in Hidx. exact Hidx.
  - split; [exact Hs2|].
    split; [|exact Hrows2].
    apply setViewport_frame in Hs2. destruct Hs2 as (_ & Hvp2 & _).
    rewrite Hvp2. exact Hexc1.
Qed.

(** C4. The viewport update has two phases. The first sets the viewport to
    the smallest range holding the minimal visible range and the current
    viewport when the excess-expanded visible range overlaps the current
    viewport, and no row is removed then; otherwise the minimal visible
    range replaces the viewport. The second sets the viewport to the
    excess-expanded visible range; after either phase the rows of the
    scrolling group are those of the viewport, so that the second evicts
    the rows left outside. With no excess margin, viewport {20,60}
    and minimal visible range {30,70}: the first phase gives {20,70} and
    removes nothing, the second gives {30,70}, removes the rows [20,30) and
    creates none. *)
Theorem viewport_update_is_two_phase :
  (forall s : Grid,
      0 <= virtualScrollingExcess (options s) ->
      0 <= frozenRowsTop (options s) ->
      0 <= frozenRowsBottom (options s) ->
      between_frozen_rows s (viewport s) ->
      between_frozen_rows s (visibleRows s) ->
      viewport_loaded s = true ->
      subscribed s = true ->
      rows_materialized s = true ->
      exists s1 s2,
        updateViewportImmediate false s = OK s1
        /\ viewport s1
           = (if overlap (viewport s) (rowsInViewWithExcess s)
              then hull (visibleRows s) (viewport s)
              else visibleRows s)
        /\ rows_materialized s1 = true
        /\ (overlap (viewport s) (rowsInViewWithExcess s) = true ->
            disposed s1 = disposed s
            /\ exists before after,
                 scrollinggroup s1 = before ++ scrollinggroup s ++ after)
        /\ updateViewportImmediate true s1 = OK s2
        /\ viewport s2 = rowsInViewWithExcess s
        /\ rows_materialized s2 = true)
  /\ (exists s s1 s2,
        Scenario.scrolled Scenario.no_excess 100 1240 {| begin := 20; end_ := 60 |} 940 = OK s
        /\ viewport s = {| begin := 20; end_ := 60 |}
        /\ visibleRows s = {| begin := 30; end_ := 70 |}
        /\ updateViewportImmediate false s = OK s1
        /\ viewport s1 = {| begin := 20; end_ := 70 |}
        /\ disposed s1 = disposed s
        /\ map row_idx (scrollinggroup s1) = index_range 20 70
        /\ updateViewportImmediate true s1 = OK s2
        /\ viewport s2 = {| begin := 30; end_ := 70 |}
        /\ map row_idx (scrollinggroup s2) = index_range 30 70
        /\ map row_idx (disposed s2) = map row_idx (disposed s1) ++ index_range 20 30
        /\ nextNode s2 = nextNode s1).
Proof.
  split.
  - intros s Hex Htop Hbottom Hvp Hvis Hloaded Hsub Hrows.
    apply updateViewport_phases; assumption.
  - eexists. eexists. eexists.
    split; [vm_compute; reflexivity|].
    split; [reflexivity|].
    split; [vm_compute; reflexivity|].
    split; [vm_compute; reflexivity|].
    split; [reflexivity|].
    split; [reflexivity|].
    split; [vm_compute; reflexivity|].
    split; [vm_compute; reflexivity|].
    split; [reflexivity|].
    repeat split; vm_compute; reflexivity.
Qed.

(** The general part of C4 on a grid where the two ranges differ: excess
    margin 10, viewport {0,10}, minimal visible range {14,25}. *)
Lemma viewport_update_is_two_phase_witness :
  exists s,
    Scenario.scrolled defaultOptions 100 310 {| begin := 0; end_ := 10 |} 470 = OK s
    /\ exists s1 s2,
         updateViewportImmediate false s = OK s1
         /\ viewport s1 = {| begin := 0; end_ := 25 |}
         /\ rows_materialized s1 = true
         /\ updateViewportImmediate true s1 = OK s2
         /\ viewport s2 = {| begin := 4; end_ := 35 |}
         /\ rows_materialized s2 = true.
Proof.
  eexists. split; [vm_compute; reflexivity|].
  match goal with
  | |- exists s1 s2, updateViewportImmediate false ?s = _ /\ _ =>
      destruct (proj1 viewport_update_is_two_phase s
                  ltac:(vm_compute; discriminate) ltac:(vm_compute; discriminate)
                  ltac:(vm_compute; discriminate)
                  ltac:(vm_compute; repeat split; discriminate)
                  ltac:(vm_compute; repeat split; discriminate)
                  ltac:(vm_compute; reflexivity) ltac:(vm_compute; reflexivity)
                  ltac:(vm_compute; reflexivity))
        as (s1 & s2 & H1 & Hv1 & Hm1 & _ & H2 & Hv2 & Hm2)
  end.
  exists s1, s2.
  split; [exact H1|]. split; [rewrite Hv1; reflexivity|]. split; [exact Hm1|].
  split; [exact H2|]. split; [rewrite Hv2; reflexivity | exact Hm2].
Defined.

(** Against C4 as stated: the minimal visible range {14,25} is disjoint from
    the viewport {0,10}, and the first phase does not replace the viewport
    by it: the excess-expanded range {4,35} overlaps the viewport, so the
    result is {0,25}. *)
Lemma disjoint_visible_range_does_not_replace_viewport :
  exists s s1,
    Scenario.scrolled defaultOptions 100 310 {| begin := 0; end_ := 10 |} 470 = OK s
    /\ viewport s = {| begin := 0; end_ := 10 |}
    /\ visibleRows s = {| begin := 14; end_ := 25 |}
    /\ overlap (viewport s) (visibleRows s) = false
    /\ updateViewportImmediate false s = OK s1
    /\ viewport s1 = {| begin := 0; end_ := 25 |}
    /\ viewport s1 <> visibleRows s.
Proof.
  eexists. eexists.
  split; [vm_compute; reflexivity|].
  split; [reflexivity|].
  split; [vm_compute; reflexivity|].
  split; [vm_compute; reflexivity|].
  split; [vm_compute; reflexivity|].
  split; [reflexivity|].
  vm_compute. discriminate.
Qed.

(** ** Preconditions of the mutation handlers *)



(** * Further properties *)

(** ** The handlers and the rows of the viewport *)








Lemma window_viewport t r a b :
  window_materialized t a b -> window_materialized (set_viewport r t) a b.
Proof. intros H. exact H. Qed.







(** X1. [setViewport], between the frozen rows: the call returns, the
    viewport is the range asked for, and the scrolling group holds exactly
    the rows of that range, every one a node of its own, with their working
    set entries in place. *)
Theorem setViewport_keeps_rows_in_step (s : Grid) (range : Range) :
  0 <= frozenRowsTop (options s) ->
  0 <= frozenRowsBottom (options s) ->
  between_frozen_rows s (viewport s) ->
  between_frozen_rows s range ->
  viewport_loaded s = true ->
  subscribed s = true ->
  rows_materialized s = true ->
  exists s',
    setViewport range s = OK s'
    /\ viewport s' = range
    /\ rows_materialized s' = true
    /\ viewport_loaded s' = true
    /\ recordCount s' = recordCount s.
Proof.
  intros Ht Hb Hvp Hrange Hloaded Hsub Hrows.
  destruct (setViewport_returns s range Ht Hb Hvp Hrange Hloaded Hsub)
    as (s' & E & Hloaded').
  exists s'. split; [exact E|].
  pose proof (setViewport_frame _ _ _ E) as (_ & Hv & Hrc).
  split; [exact Hv|]. split; [|split; assumption].
  eapply setViewport_materializes; eassumption.
Qed.

(** From the viewport {40,60} of 100 records to {50,75}: the rows 50..74. *)
Lemma setViewport_keeps_rows_in_step_witness :
  exists s s',
    Scenario.showing defaultOptions 100 310 {| begin := 40; end_ := 60 |} = OK s
    /\ setViewport {| begin := 50; end_ := 75 |} s = OK s'
    /\ viewport s' = {| begin := 50; end_ := 75 |}
    /\ map row_idx (scrollinggroup s') = index_range 50 75.
Proof.
  eexists.
  match goal with
  | |- exists s', ?shown = OK ?s /\ _ =>
      assert (E : shown = OK s) by (vm_compute; reflexivity)
  end.
  match type of E with
  | _ = OK ?s =>
      destruct (setViewport_keeps_rows_in_step s {| begin := 50; end_ := 75 |}
                  ltac:(vm_compute; discriminate) ltac:(vm_compute; discriminate)
                  ltac:(unfold between_frozen_rows; simpl; lia)
                  ltac:(unfold between_frozen_rows; simpl; lia)
                  ltac:(vm_compute; reflexivity) ltac:(vm_compute; reflexivity)
                  ltac:(vm_compute; reflexivity))
        as (s' & Hs' & Hvp & Hrows & _)
  end.
  exists s'.
  split; [exact E|]. split; [exact Hs'|]. split; [exact Hvp|].
  apply rows_materialized_spec in Hrows. destruct Hrows as (Hidx & _).
  rewrite Hidx, Hvp. reflexivity.
Defined.







(** ** The working set as a store of records *)

Lemma array_get_array_set {A : Type} (a : list (option A)) (i j : Z) (v : A) :
  0 <= i ->
  array_get (array_set a i v) j = if j =? i then Some v else array_get a j.
Proof.
  intros Hi. unfold array_get, array_set.
  destruct (i <? 0) eqn:Ei; [apply Z.ltb_lt in Ei; lia|].
  destruct (j <? 0) eqn:Ej.
  - apply Z.ltb_lt in Ej. destruct (j =? i) eqn:E; [apply Z.eqb_eq in E; lia|reflexivity].
  - apply Z.ltb_ge in Ej. rewrite array_get_array_set_nat.
    destruct (j =? i) eqn:E.
    + apply Z.eqb_eq in E. subst. rewrite Nat.eqb_refl. reflexivity.
    + apply Z.eqb_neq in E.
      replace (Nat.eqb (Z.to_nat j) (Z.to_nat i)) with false
        by (symmetry; apply Nat.eqb_neq; lia).
      reflexivity.
Qed.

Lemma array_get_store_records ws i e records j :
  0 <= i ->
  array_get (store_records ws i e records) j
  = if (i <=? j) && (j <? i + Z.of_nat (length records))
    then match nth_error records (Z.to_nat (j - i)) with
         | Some r => Some {| entry := (e + Z.to_nat (j - i))%nat; record := Some r |}
         | None => None
         end
    else array_get ws j.
Proof.
  revert ws i e. induction records as [|r rest IH]; intros ws i e Hi.
  - simpl. replace ((i <=? j) && (j <? i + 0)) with false; [reflexivity|].
    symmetry. apply andb_false_iff.
    destruct (Z.le_gt_cases i j); [right; apply Z.ltb_ge | left; apply Z.leb_gt]; lia.
  - cbn [store_records length]. rewrite IH by lia.
    rewrite array_get_array_set by assumption.
    destruct (j =? i) eqn:Eji; to_Prop.
    + subst j.
      replace ((i + 1 <=? i) && (i <? i + 1 + Z.of_nat (length rest))) with false
        by (symmetry; apply andb_false_iff; left; apply Z.leb_gt; lia).
      replace ((i <=? i) && (i <? i + Z.of_nat (S (length rest)))) with true
        by (symmetry; apply andb_true_iff; split; [apply Z.leb_le | apply Z.ltb_lt]; lia).
      rewrite Z.sub_diag. simpl. rewrite Nat.add_0_r. reflexivity.
    + destruct ((i + 1 <=? j) && (j <? i + 1 + Z.of_nat (length rest))) eqn:E1.
      * to_Prop.
        replace ((i <=? j) && (j <? i + Z.of_nat (S (length rest)))) with true
          by (symmetry; apply andb_true_iff; split; [apply Z.leb_le | apply Z.ltb_lt]; lia).
        replace (Z.to_nat (j - i)) with (S (Z.to_nat (j - (i + 1)))) by lia.
        simpl. destruct (nth_error rest _); [|reflexivity].
        do 2 f_equal. lia.
      * replace ((i <=? j) && (j <? i + Z.of_nat (S (length rest)))) with false;
          [reflexivity|].
        symmetry. apply andb_false_iff. apply andb_false_iff in E1.
        destruct E1; to_Prop; [left; apply Z.leb_gt | right; apply Z.ltb_ge]; lia.
Qed.

Lemma nth_error_source_getData ds start end' j :
  start <= j < end' ->
  nth_error (source_getData ds start end') (Z.to_nat (j - start)) = Some (source_row ds j).
Proof.
  intros Hj. pose proof (nth_record_source_getData ds start end' j Hj) as H.
  unfold nth_record in H.
  destruct (j - start <? 0) eqn:E; [apply Z.ltb_lt in E; lia | exact H].
Qed.

(** X5. [getDataSync] over a synchronous source returns the records of the
    source and stores them: afterwards [getRow] answers every index of the
    range with the record of the source, and every other index as before.
    Over a source that answers with promises it throws, and nothing is
    stored. *)
Theorem getDataSync_stores_the_records (s : Grid) (start end' : Z) :
  0 <= start ->
  (synchronous (dataSource s) = true ->
   exists s',
     getDataSync start end' s = inl (source_getData (dataSource s) start end', s')
     /\ forall j, getRow s' j = if (start <=? j) && (j <? end')
                                then Some (source_row (dataSource s) j)
                                else getRow s j)
  /\ (synchronous (dataSource s) = false ->
      getDataSync start end' s = inr SynchronousRequired).
Proof.
  intros Hstart. unfold getDataSync. split; intros Hsync; rewrite Hsync; [|reflexivity].
  eexists. split; [reflexivity|].
  intros j. unfold getRow. simpl.
  assert (Hor : js_or start 0 = start)
    by (unfold js_or; destruct (start =? 0) eqn:E; to_Prop; lia).
  rewrite Hor, array_get_store_records by assumption.
  rewrite length_source_getData, length_index_range.
  destruct (start <=? j) eqn:E1; simpl; [|reflexivity].
  destruct (j <? end') eqn:E2; to_Prop.
  - replace (j <? start + Z.of_nat (Z.to_nat (end' - start))) with true
      by (symmetry; apply Z.ltb_lt; lia).
    rewrite nth_error_source_getData by lia. reflexivity.
  - replace (j <? start + Z.of_nat (Z.to_nat (end' - start))) with false
      by (symmetry; apply Z.ltb_ge; lia).
    reflexivity.
Qed.

(** The source answers at once, where [getDataSync] is called on the grid
    that shows the rows 40..59 of 100 records: the rows 70..74 are loaded. *)
Lemma getDataSync_stores_the_records_witness :
  exists s s',
    Scenario.showing defaultOptions 100 310 {| begin := 40; end_ := 60 |} = OK s
    /\ getRow s 72 = None
    /\ getDataSync 70 75 s = inl (source_getData Scenario.source 70 75, s')
    /\ getRow s' 72 = Some (source_row Scenario.source 72)
    /\ getRow s' 45 = getRow s 45.
Proof.
  eexists.
  match goal with
  | |- exists s', ?shown = OK ?s /\ _ =>
      assert (E : shown = OK s) by (vm_compute; reflexivity)
  end.
  match type of E with
  | _ = OK ?s =>
      destruct (getDataSync_stores_the_records s 70 75 ltac:(lia)) as (Hsync & _);
      destruct (Hsync ltac:(reflexivity)) as (s' & Hs' & Hrow)
  end.
  exists s'.
  split; [exact E|]. split; [reflexivity|]. split; [exact Hs'|].
  split; [rewrite Hrow; reflexivity | rewrite Hrow; reflexivity].
Defined.

Lemma array_get_fold_entries start n n0 ws j :
  0 <= start ->
  array_get
    (fold_left (fun ws xe => array_set ws (fst xe) {| entry := snd xe; record := None |})
       (combine (count_from start n) (seq n0 n)) ws) j
  = if (start <=? j) && (j <? start + Z.of_nat n)
    then Some {| entry := (n0 + Z.to_nat (j - start))%nat; record := None |}
    else array_get ws j.
Proof.
  revert start n0 ws. induction n as [|n IH]; intros start n0 ws Hstart.
  - simpl. replace ((start <=? j) && (j <? start + 0)) with false; [reflexivity|].
    symmetry. apply andb_false_iff.
    destruct (Z.le_gt_cases start j); [right; apply Z.ltb_ge | left; apply Z.leb_gt]; lia.
  - cbn [count_from seq combine fold_left fst snd]. rewrite IH by lia.
    rewrite array_get_array_set by assumption.
    destruct (j =? start) eqn:Ej; to_Prop.
    + subst j.
      replace ((start + 1 <=? start) && (start <? start + 1 + Z.of_nat n)) with false
        by (symmetry; apply andb_false_iff; left; apply Z.leb_gt; lia).
      replace ((start <=? start) && (start <? start + Z.of_nat (S n))) with true
        by (symmetry; apply andb_true_iff; split; [apply Z.leb_le | apply Z.ltb_lt]; lia).
      rewrite Z.sub_diag. simpl. rewrite Nat.add_0_r. reflexivity.
    + destruct (start <=? j) eqn:E1; to_Prop.
      * replace (start + 1 <=? j) with true by (symmetry; apply Z.leb_le; lia).
        replace (j <? start + 1 + Z.of_nat n) with (j <? start + Z.of_nat (S n))
          by (f_equal; lia).
        cbn [andb].
        destruct (j <? start + Z.of_nat (S n)); [|reflexivity].
        do 2 f_equal. lia.
      * replace (start + 1 <=? j) with false by (symmetry; apply Z.leb_gt; lia).
        reflexivity.
Qed.

Lemma array_get_set_entry_record e r ws j :
  array_get (set_entry_record e r ws) j
  = match array_get ws j with
    | Some en => if Nat.eqb (entry en) e
                 then Some {| entry := e; record := Some r |}
                 else Some en
    | None => None
    end.
Proof.
  unfold array_get, set_entry_record.
  destruct (j <? 0); [reflexivity|].
  rewrite nth_error_map.
  destruct (nth_error ws (Z.to_nat j)) as [[en|]|]; simpl; try reflexivity.
  destruct (Nat.eqb (entry en) e); reflexivity.
Qed.

(** [processData] fills the entries it is given, found by their identity. *)
Lemma array_get_processData n0 data ws j :
  array_get (fst (processData (seq n0 (length data)) data ws)) j
  = match array_get ws j with
    | Some en =>
        if ((n0 <=? entry en) && (entry en <? n0 + length data))%nat
        then Some {| entry := entry en; record := nth_error data (entry en - n0) |}
        else Some en
    | None => None
    end.
Proof.
  revert n0 ws. induction data as [|r data IH]; intros n0 ws.
  - simpl. destruct (array_get ws j) as [en|]; [|reflexivity].
    replace ((n0 <=? entry en) && (entry en <? n0 + 0))%nat with false; [reflexivity|].
    symmetry. apply andb_false_iff.
    destruct (Nat.le_gt_cases n0 (entry en));
      [right; apply Nat.ltb_ge | left; apply Nat.leb_gt]; lia.
  - cbn [length seq processData]. rewrite IH, array_get_set_entry_record.
    destruct (array_get ws j) as [en|]; [|reflexivity].
    destruct (Nat.eqb (entry en) n0) eqn:E.
    + apply Nat.eqb_eq in E. cbn [entry record].
      replace ((S n0 <=? n0) && (n0 <? S n0 + length data))%nat with false
        by (symmetry; apply andb_false_iff; left; apply Nat.leb_gt; lia).
      replace ((n0 <=? entry en) && (entry en <? n0 + S (length data)))%nat with true
        by (symmetry; apply andb_true_iff; split;
            [apply Nat.leb_le | apply Nat.ltb_lt]; lia).
      rewrite E, Nat.sub_diag. reflexivity.
    + apply Nat.eqb_neq in E.
      destruct (n0 <=? entry en)%nat eqn:E1.
      * apply Nat.leb_le in E1.
        replace (S n0 <=? entry en)%nat with true by (symmetry; apply Nat.leb_le; lia).
        cbn [andb].
        replace (entry en <? S n0 + length data)%nat
          with (entry en <? n0 + S (length data))%nat by (f_equal; lia).
        destruct (entry en <? n0 + S (length data))%nat; [|reflexivity].
        replace (entry en - n0)%nat with (S (entry en - S n0)) by lia.
        reflexivity.
      * apply Nat.leb_gt in E1.
        replace (S n0 <=? entry en)%nat with false by (symmetry; apply Nat.leb_gt; lia).
        reflexivity.
Qed.

Lemma entries_allocated_spec s :
  entries_allocated s = true
  <-> forall j e, array_get (workingSet s) j = Some e -> (entry e < nextEntry s)%nat.
Proof.
  unfold entries_allocated. rewrite forallb_forall. split.
  - intros H j e Hj. unfold array_get in Hj.
    destruct (j <? 0); [discriminate|].
    destruct (nth_error (workingSet s) (Z.to_nat j)) as [[en|]|] eqn:E; try discriminate.
    inversion Hj; subst en. apply nth_error_In in E.
    specialize (H _ E). apply Nat.ltb_lt in H. exact H.
  - intros H o Ho. destruct o as [e|]; [|reflexivity].
    apply In_nth_error in Ho. destruct Ho as (k & Hk).
    apply Nat.ltb_lt. apply (H (Z.of_nat k)). unfold array_get.
    destruct (Z.of_nat k <? 0) eqn:E; [apply Z.ltb_lt in E; lia|].
    rewrite Nat2Z.id, Hk. reflexivity.
Qed.

(** What a synchronous [getData] leaves in the working set. *)
Lemma getData_entries s start end' :
  synchronous (dataSource s) = true ->
  0 <= start <= end' ->
  0 <= recordCount s ->
  exists s',
    getData start end' s = OK (SyncData (source_getData (dataSource s) start end'), s')
    /\ nextEntry s' = (nextEntry s + Z.to_nat (end' - start))%nat
    /\ forall j, array_get (workingSet s') j
       = if (start <=? j) && (j <? end')
         then Some {| entry := (nextEntry s + Z.to_nat (j - start))%nat;
                      record := Some (source_row (dataSource s) j) |}
         else match array_get (workingSet s) j with
              | Some en =>
                  if ((nextEntry s <=? entry en)
                      && (entry en <? nextEntry s + Z.to_nat (end' - start)))%nat
                  then Some {| entry := entry en;
                               record := nth_error (source_getData (dataSource s) start end')
                                           (entry en - nextEntry s) |}
                  else Some en
              | None => None
              end.
Proof.
  intros Hsync Hrange Hcount.
  unfold getData, new_Array, getRecordCount.
  replace (js_or end' (recordCount s) - start <? 0) with false
    by (symmetry; apply Z.ltb_ge; unfold js_or; destruct (end' =? 0) eqn:E; to_Prop; lia).
  simpl. rewrite Hsync.
  set (ids := seq (nextEntry s) (length (index_range start end'))).
  set (data := source_getData (dataSource s) start end').
  set (ws1 := fold_left _ _ (workingSet s)).
  assert (Hlen : length data = length (index_range start end'))
    by apply length_source_getData.
  pose proof (processData_ok ids data ws1) as Hok.
  pose proof (array_get_processData (nextEntry s) data ws1) as Hget.
  rewrite Hlen in Hget. fold ids in Hget.
  destruct (processData ids data ws1) as [ws' ok].
  simpl in Hok, Hget. rewrite Hok by (unfold ids; rewrite length_seq; lia).
  eexists. split; [reflexivity|]. simpl.
  split; [rewrite length_index_range; reflexivity|].
  intros j. rewrite Hget. unfold ws1, ids. rewrite !length_index_range.
  unfold index_range. rewrite array_get_fold_entries by lia.
  replace (start + Z.of_nat (Z.to_nat (end' - start))) with end' by lia.
  destruct ((start <=? j) && (j <? end')) eqn:E; [|reflexivity].
  to_Prop. simpl.
  replace ((nextEntry s <=? nextEntry s + Z.to_nat (j - start))
           && (nextEntry s + Z.to_nat (j - start)
               <? nextEntry s + Z.to_nat (end' - start)))%nat with true
    by (symmetry; apply andb_true_iff; split; [apply Nat.leb_le | apply Nat.ltb_lt]; lia).
  f_equal. f_equal.
  replace (nextEntry s + Z.to_nat (j - start) - nextEntry s)%nat
    with (Z.to_nat (j - start)) by lia.
  apply nth_error_source_getData. lia.
Qed.

(** X6. [getData] over a synchronous source, on a working set whose entries
    are all entries created so far: the call returns the records of the
    source for the rows [start .. end-1] and loads them, so that [getRow]
    answers every index of the range with the record of the source and every
    other index as before. *)
Theorem getData_loads_the_rows (s : Grid) (start end' : Z) :
  synchronous (dataSource s) = true ->
  0 <= start <= end' ->
  0 <= recordCount s ->
  entries_allocated s = true ->
  exists s',
    getData start end' s = OK (SyncData (source_getData (dataSource s) start end'), s')
    /\ (forall j, getRow s' j = if (start <=? j) && (j <? end')
                                then Some (source_row (dataSource s) j)
                                else getRow s j)
    /\ entries_allocated s' = true.
Proof.
  intros Hsync Hrange Hcount Halloc.
  rewrite entries_allocated_spec in Halloc.
  destruct (getData_entries s start end' Hsync Hrange Hcount) as (s' & E & Hnext & Hget).
  exists s'. split; [exact E|]. split.
  - intros j. unfold getRow. rewrite Hget.
    destruct ((start <=? j) && (j <? end')); [reflexivity|].
    destruct (array_get (workingSet s) j) as [en|] eqn:Ej; [|reflexivity].
    specialize (Halloc j en Ej).
    replace (nextEntry s <=? entry en)%nat with false
      by (symmetry; apply Nat.leb_gt; lia).
    reflexivity.
  - apply entries_allocated_spec. intros j e Hj. rewrite Hget in Hj. rewrite Hnext.
    destruct ((start <=? j) && (j <? end')) eqn:E1.
    + to_Prop. inversion Hj; subst e. simpl. lia.
    + destruct (array_get (workingSet s) j) as [en|] eqn:Ej; [|discriminate].
      specialize (Halloc j en Ej).
      replace (nextEntry s <=? entry en)%nat with false in Hj
        by (symmetry; apply Nat.leb_gt; lia).
      simpl in Hj. inversion Hj; subst e. lia.
Qed.

(** The rows 70..74 fetched on the grid that shows the rows 40..59. *)
Lemma getData_loads_the_rows_witness :
  exists s s',
    Scenario.showing defaultOptions 100 310 {| begin := 40; end_ := 60 |} = OK s
    /\ getRow s 72 = None
    /\ getData 70 75 s = OK (SyncData (source_getData Scenario.source 70 75), s')
    /\ getRow s' 72 = Some (source_row Scenario.source 72)
    /\ getRow s' 45 = Some (source_row Scenario.source 45).
Proof.
  eexists.
  match goal with
  | |- exists s', ?shown = OK ?s /\ _ =>
      assert (E : shown = OK s) by (vm_compute; reflexivity)
  end.
  match type of E with
  | _ = OK ?s =>
      destruct (getData_loads_the_rows s 70 75 ltac:(reflexivity) ltac:(lia)
                  ltac:(vm_compute; discriminate) ltac:(vm_compute; reflexivity))
        as (s' & Hs' & Hrow & _)
  end.
  exists s'.
  split; [exact E|]. split; [reflexivity|]. split; [exact Hs'|].
  split; rewrite Hrow; reflexivity.
Defined.

(** ** Rows rendered over a promise *)












(** ** The rows in view *)

(** The loop of [rowsInView] once the first row is found: it stops at the
    first row whose lower edge lies below [bottom]. *)
Lemma rowsInView_loop_end s top bottom n x ct b :
  b <> -1 ->
  exists e,
    rowsInView_loop s top bottom n x ct b = (b, e)
    /\ x <= e <= x + Z.of_nat n
    /\ (forall y, x <= y < e -> ct + (y - x + 1) * rowHeightOption (options s) <= bottom)
    /\ (e < x + Z.of_nat n -> bottom < ct + (e - x + 1) * rowHeightOption (options s)).
Proof.
  intros Hb. revert x ct. induction n as [|n IH]; intros x ct.
  - exists x. simpl. split; [reflexivity|]. split; [lia|]. split; intros; lia.
  - cbn [rowsInView_loop]. unfold rowHeight.
    replace (b =? -1) with false by (symmetry; apply Z.eqb_neq; exact Hb).
    rewrite andb_false_r.
    destruct (bottom <? ct + rowHeightOption (options s)) eqn:E; to_Prop.
    + exists x. split; [reflexivity|]. split; [lia|]. split; intros; lia.
    + destruct (IH (x + 1) (ct + rowHeightOption (options s))) as (e & He & Hr & Hin & Hout).
      exists e. split; [exact He|]. split; [lia|]. split.
      * intros y Hy. destruct (Z.eq_dec y x) as [->|Hne].
        -- replace (x - x + 1) with 1 by lia. lia.
        -- specialize (Hin y ltac:(lia)).
           replace (y - x + 1) with (1 + (y - (x + 1) + 1)) by lia. lia.
      * intros Hlt. specialize (Hout ltac:(lia)).
        replace (e - x + 1) with (1 + (e - (x + 1) + 1)) by lia. lia.
Qed.

(** The loop of [rowsInView] before the first row is found. *)
Lemma rowsInView_loop_begin s top bottom n x ct :
  top <= bottom ->
  0 <= x ->
  (exists b e,
      rowsInView_loop s top bottom n x ct (-1) = (b, e)
      /\ x <= b < e /\ e <= x + Z.of_nat n
      /\ top <= ct + (b - x + 1) * rowHeightOption (options s)
      /\ (forall y, x <= y < b -> ct + (y - x + 1) * rowHeightOption (options s) < top)
      /\ (forall y, b < y < e -> ct + (y - x + 1) * rowHeightOption (options s) <= bottom)
      /\ (e < x + Z.of_nat n -> bottom < ct + (e - x + 1) * rowHeightOption (options s)))
  \/ (rowsInView_loop s top bottom n x ct (-1) = (-1, x + Z.of_nat n)
      /\ forall y, x <= y < x + Z.of_nat n ->
                   ct + (y - x + 1) * rowHeightOption (options s) < top).
Proof.
  intros Htb. revert x ct. induction n as [|n IH]; intros x ct Hx.
  - right. simpl. split; [f_equal; lia|]. intros; lia.
  - cbn [rowsInView_loop]. unfold rowHeight. rewrite Z.eqb_refl, andb_true_r.
    destruct (top <=? ct + rowHeightOption (options s)) eqn:E; to_Prop.
    + left.
      destruct (rowsInView_loop_end s top bottom n (x + 1)
                  (ct + rowHeightOption (options s)) x ltac:(lia))
        as (e & He & Hr & Hin & Hout).
      exists x, e. split; [exact He|]. split; [lia|]. split; [lia|].
      split; [replace (x - x + 1) with 1 by lia; lia|].
      split; [intros; lia|]. split.
      * intros y Hy. specialize (Hin y ltac:(lia)).
        replace (y - x + 1) with (1 + (y - (x + 1) + 1)) by lia. lia.
      * intros Hlt. specialize (Hout ltac:(lia)).
        replace (e - x + 1) with (1 + (e - (x + 1) + 1)) by lia. lia.
    + replace (bottom <? ct + rowHeightOption (options s)) with false
        by (symmetry; apply Z.ltb_ge; lia).
      destruct (IH (x + 1) (ct + rowHeightOption (options s)) ltac:(lia))
        as [(b & e & He & Hb & Hr & Htop & Hbefore & Hin & Hout) | (He & Hall)].
      * left. exists b, e. split; [exact He|]. split; [lia|]. split; [lia|].
        split; [replace (b - x + 1) with (1 + (b - (x + 1) + 1)) by lia; lia|].
        split; [|split].
        -- intros y Hy. destruct (Z.eq_dec y x) as [->|Hne].
           ++ replace (x - x + 1) with 1 by lia. lia.
           ++ specialize (Hbefore y ltac:(lia)).
              replace (y - x + 1) with (1 + (y - (x + 1) + 1)) by lia. lia.
        -- intros y Hy. specialize (Hin y Hy).
           replace (y - x + 1) with (1 + (y - (x + 1) + 1)) by lia. lia.
        -- intros Hlt. specialize (Hout ltac:(lia)).
           replace (e - x + 1) with (1 + (e - (x + 1) + 1)) by lia. lia.
      * right. split; [rewrite He; f_equal; lia|].
        intros y Hy. destruct (Z.eq_dec y x) as [->|Hne].
        -- replace (x - x + 1) with 1 by lia. lia.
        -- specialize (Hall y ltac:(lia)).
           replace (y - x + 1) with (1 + (y - (x + 1) + 1)) by lia. lia.
Qed.

(** X8. [rowsInView(top, bottom, start, end)], with rows of one height laid
    out from the row [start]: either no row up to [end] has its lower edge at
    or below [top], and the answer is {0,0}; or the answer is built from the
    first row [b] whose lower edge is at or below [top] and the first later
    row [e] whose lower edge is below [bottom] ([end] when there is none):
    its end is [e], its begin is [b] moved by at most one to the parity of
    [frozenRowsTop]. *)
Theorem rowsInView_geometry (s : Grid) (top bottom start end' : Z) :
  top <= bottom ->
  0 <= start ->
  0 < end' ->
  (exists b e,
     rowsInView s top bottom start end'
     = {| begin := b - (js_mod b 2 - js_mod (frozenRowsTop (options s)) 2);
          end_ := e |}
     /\ start <= b < e /\ e <= end'
     /\ top <= lower_edge s start b
     /\ (forall y, start <= y < b -> lower_edge s start y < top)
     /\ (forall y, b < y < e -> lower_edge s start y <= bottom)
     /\ (e < end' -> bottom < lower_edge s start e))
  \/ (rowsInView s top bottom start end' = {| begin := 0; end_ := 0 |}
      /\ forall y, start <= y < end' -> lower_edge s start y < top).
Proof.
  intros Htb Hstart Hend. unfold rowsInView, lower_edge.
  assert (H0 : js_or start 0 = start)
    by (unfold js_or; destruct (start =? 0) eqn:E; to_Prop; lia).
  assert (Hl : js_or end' (getRecordCount s) = end')
    by (unfold js_or; destruct (end' =? 0) eqn:E; to_Prop; lia).
  rewrite H0, Hl.
  destruct (rowsInView_loop_begin s top bottom (Z.to_nat (end' - start)) start 0
              Htb Hstart)
    as [(b & e & He & Hb & Hr & Htop & Hbefore & Hin & Hout) | (He & Hall)];
    rewrite He.
  - left. exists b, e.
    replace (-1 <? b) with true by (symmetry; apply Z.ltb_lt; lia).
    split; [reflexivity|]. split; [exact Hb|]. split; [lia|].
    split; [lia|]. split; [|split].
    + intros y Hy. specialize (Hbefore y Hy). lia.
    + intros y Hy. specialize (Hin y Hy). lia.
    + intros Hlt. specialize (Hout ltac:(lia)). lia.
  - right. split; [reflexivity|].
    intros y Hy. specialize (Hall y ltac:(lia)). lia.
Qed.

(** Rows of 31 pixels, from row 0, in the pixels 100 to 410 of 100 rows: the
    rows 3..12 are in view, and the range is {2,13}. *)
Lemma rowsInView_geometry_witness :
  exists s,
    Scenario.showing defaultOptions 100 310 {| begin := 0; end_ := 10 |} = OK s
    /\ rowsInView s 100 410 0 100 = {| begin := 2; end_ := 13 |}
    /\ lower_edge s 0 2 < 100 <= lower_edge s 0 3
    /\ lower_edge s 0 12 <= 410 < lower_edge s 0 13.
Proof.
  eexists.
  match goal with
  | |- ?shown = OK ?s /\ _ =>
      assert (E : shown = OK s) by (vm_compute; reflexivity)
  end.
  match type of E with
  | _ = OK ?s =>
      pose proof (rowsInView_geometry s 100 410 0 100
                    ltac:(lia) ltac:(lia) ltac:(lia)) as G
  end.
  split; [exact E|].
  destruct G as [(b & e & Hr & _) | (Hr & _)]; vm_compute in Hr |- *;
    repeat split; discriminate.
Defined.

Lemma parity_adjustment b f :
  0 <= f <= b ->
  f <= b - (js_mod b 2 - js_mod f 2) <= b + 1
  /\ Z.even (b - (js_mod b 2 - js_mod f 2) - f) = true.
Proof.
  intros H. unfold js_mod. rewrite !Z.rem_mod_nonneg by lia.
  pose proof (Z.mod_pos_bound b 2 ltac:(lia)) as Hb.
  pose proof (Z.mod_pos_bound f 2 ltac:(lia)) as Hf.
  pose proof (Z.div_mod b 2 ltac:(lia)) as Db.
  pose proof (Z.div_mod f 2 ltac:(lia)) as Df.
  split; [lia|].
  replace (b - (b mod 2 - f mod 2) - f) with (2 * (b / 2 - f / 2)) by lia.
  apply Z.even_mul.
Qed.

(** X9. The ranges of a viewport update: unless no row is found in view
    (range {0,0}), the visible range that [updateViewportImmediate] computes
    lies between the frozen rows and begins at an index of the parity of
    [frozenRowsTop], and the range with the excess rows contains it and lies
    between the frozen rows too. *)
Theorem visible_rows_lie_between_frozen_rows (s : Grid) :
  0 <= scrollAreaHeight s ->
  0 <= frozenRowsTop (options s) ->
  0 < recordCount s - frozenRowsBottom (options s) ->
  0 <= virtualScrollingExcess (options s) ->
  visibleRows s = {| begin := 0; end_ := 0 |}
  \/ (between_frozen_rows s (visibleRows s)
      /\ Z.even (begin (visibleRows s) - frozenRowsTop (options s)) = true
      /\ between_frozen_rows s (rowsInViewWithExcess s)
      /\ begin (rowsInViewWithExcess s) <= begin (visibleRows s)
      /\ end_ (visibleRows s) <= end_ (rowsInViewWithExcess s)).
Proof.
  intros Hh Ht Hb He.
  unfold rowsInViewWithExcess, between_frozen_rows. unfold visibleRows, getRecordCount.
  destruct (rowsInView_geometry s (scrollTop s) (scrollTop s + scrollAreaHeight s)
              (frozenRowsTop (options s))
              (recordCount s - frozenRowsBottom (options s))
              ltac:(lia) Ht Hb)
    as [(b & e & Hr & Hbe & Hend & _) | (Hr & _)]; rewrite Hr; [right | left; reflexivity].
  destruct (parity_adjustment b (frozenRowsTop (options s)) ltac:(lia)) as (P1 & P2).
  simpl. repeat split; try lia. exact P2.
Qed.

(** The grid of 100 records with one frozen row at the top, 310 pixels
    high: the rows 1..10 are in view, {1,21} with the excess rows. *)
Lemma visible_rows_lie_between_frozen_rows_witness :
  exists s,
    Scenario.showing Scenario.one_frozen_row 100 310 {| begin := 1; end_ := 11 |} = OK s
    /\ visibleRows s = {| begin := 1; end_ := 11 |}
    /\ rowsInViewWithExcess s = {| begin := 1; end_ := 21 |}
    /\ between_frozen_rows s (visibleRows s)
    /\ between_frozen_rows s (rowsInViewWithExcess s).
Proof.
  eexists.
  match goal with
  | |- ?shown = OK ?s /\ _ =>
      assert (E : shown = OK s) by (vm_compute; reflexivity)
  end.
  match type of E with
  | _ = OK ?s =>
      pose proof (visible_rows_lie_between_frozen_rows s
                    ltac:(vm_compute; discriminate) ltac:(vm_compute; discriminate)
                    ltac:(vm_compute; reflexivity) ltac:(vm_compute; discriminate)) as G
  end.
  split; [exact E|]. split; [reflexivity|]. split; [reflexivity|].
  destruct G as [G | (G1 & _ & G2 & _)]; [discriminate G | split; assumption].
Defined.

(** ** Rendering the data from scratch *)

(** The rows of a range inside the frozen rows, rendered into an empty row
    group with the records at hand. *)
Lemma render_frozen_group t a b g :
  synchronous (dataSource t) = true ->
  0 <= a <= b ->
  0 <= recordCount t ->
  b <= frozenRowsTop (options t) \/ recordCount t - frozenRowsBottom (options t) <= a ->
  entries_allocated t = true ->
  group_rows g t = [] ->
  exists t',
    renderRowGroupContents a b g false None t = OK t'
    /\ render_frame t t'
    /\ map row_idx (group_rows g t') = index_range a b
    /\ (forall row, In row (group_rows g t') ->
          row_id row = Some (rec_id (source_row (dataSource t) (row_idx row))))
    /\ (forall g', g' <> g -> group_rows g' t' = group_rows g' t)
    /\ (forall j, getRow t' j = if (a <=? j) && (j <? b)
                                then Some (source_row (dataSource t) j)
                                else getRow t j)
    /\ entries_allocated t' = true.
Proof.
  intros Hsync Hrange Hcount Hfrozen Halloc Hempty.
  destruct (renderRowGroupContents_synchronous t a b g false None Hsync Hrange Hcount)
    as (t1 & Hget & Hrender).
  destruct (getData_loads_the_rows t a b Hsync Hrange Hcount Halloc)
    as (t1' & Hget' & Hrow & Halloc').
  rewrite Hget in Hget'. inversion Hget'; subst t1'. clear Hget'.
  pose proof (getData_frame _ _ _ _ _ Hget) as (_ & Hh & Hs & Hf & _).
  match type of Hrender with
  | _ = OK ?x => set (t' := x) in *
  end.
  exists t'. split; [exact Hrender|].
  split; [eapply renderRowGroupContents_frame; exact Hrender|].
  assert (Hg : group_rows g t'
               = map (populated (dataSource t)
                        (index_range (fst (populate_bounds a b t))
                                     (snd (populate_bounds a b t))))
                     (shells (nextNode t) (index_range a b))).
  { replace (group_rows g t')
      with (attach (insert_method false None)
              (map (populated (dataSource t)
                      (index_range (fst (populate_bounds a b t))
                                   (snd (populate_bounds a b t))))
                   (shells (nextNode t) (index_range a b)))
              (group_rows g t))
      by (destruct g; reflexivity).
    rewrite Hempty. reflexivity. }
  rewrite Hg.
  split.
  { destruct (populated_tags (dataSource t)
                (index_range (fst (populate_bounds a b t)) (snd (populate_bounds a b t)))
                (shells (nextNode t) (index_range a b))) as (T1 & _).
    rewrite T1. apply shells_tags. }
  split.
  { intros row Hin. unfold index_range in Hin at 2.
    apply populated_shell_id in Hin. destruct Hin as (Hidx & Hid).
    rewrite Hid. unfold populate_bounds.
    replace ((b <=? frozenRowsTop (options t))
             || (recordCount t - frozenRowsBottom (options t) <=? a)) with true
      by (symmetry; apply orb_true_iff; destruct Hfrozen; [left | right];
          apply Z.leb_le; lia).
    simpl.
    replace ((a <=? row_idx row) && (row_idx row <? b)) with true; [reflexivity|].
    symmetry. apply andb_true_iff. split; [apply Z.leb_le | apply Z.ltb_lt]; lia. }
  split.
  { intros g' Hg'. destruct g, g'; simpl; try contradiction; congruence. }
  split.
  { intros j. rewrite <- Hrow. unfold getRow. destruct g; reflexivity. }
  rewrite <- Halloc'. unfold entries_allocated. destruct g; reflexivity.
Qed.

Lemma render_frozen_if (c : bool) t a b g :
  synchronous (dataSource t) = true ->
  0 <= a <= b ->
  (c = false -> a = b) ->
  0 <= recordCount t ->
  b <= frozenRowsTop (options t) \/ recordCount t - frozenRowsBottom (options t) <= a ->
  entries_allocated t = true ->
  (c = true -> group_rows g t = []) ->
  exists t',
    (if c then renderRowGroupContents a b g false None t else OK t) = OK t'
    /\ render_frame t t'
    /\ (c = true ->
        map row_idx (group_rows g t') = index_range a b
        /\ forall row, In row (group_rows g t') ->
             row_id row = Some (rec_id (source_row (dataSource t) (row_idx row))))
    /\ (forall g', g' <> g -> group_rows g' t' = group_rows g' t)
    /\ (forall j, getRow t' j = if (a <=? j) && (j <? b)
                                then Some (source_row (dataSource t) j)
                                else getRow t j)
    /\ entries_allocated t' = true.
Proof.
  intros Hsync Hrange Hc Hcount Hfrozen Halloc Hempty. destruct c.
  - destruct (render_frozen_group t a b g Hsync Hrange Hcount Hfrozen Halloc
                (Hempty eq_refl)) as (t' & E & Hf & H1 & H2 & H3 & H4 & H5).
    exists t'. split; [exact E|]. split; [exact Hf|].
    split; [intros _; split; assumption|]. repeat split; assumption.
  - exists t. split; [reflexivity|].
    split; [unfold render_frame, same_environment; repeat split|].
    split; [discriminate|]. split; [reflexivity|]. split; [|exact Halloc].
    intros j. rewrite (Hc eq_refl).
    replace ((b <=? j) && (j <? b)) with false; [reflexivity|].
    symmetry. apply andb_false_iff.
    destruct (Z.le_gt_cases b j); [right; apply Z.ltb_ge | left; apply Z.leb_gt]; lia.
Qed.

Lemma setViewport_reset t :
  0 <= begin (viewport t) ->
  0 <= frozenRowsTop (options t) ->
  setViewport {| begin := 0; end_ := 0 |} t
  = OK (empty_group ScrollingGroup (set_viewport {| begin := 0; end_ := 0 |} t)).
Proof.
  intros Hb Ht. unfold setViewport, this_previousViewport, overlap, getRecordCount.
  cbn [begin end_ orb viewport set_viewport options recordCount].
  replace (begin (viewport t) <? 0) with false by (symmetry; apply Z.ltb_ge; lia).
  rewrite andb_false_r.
  replace (Z.max (frozenRowsTop (options t)) 0
           <? Z.min 0 (recordCount t - frozenRowsBottom (options t))) with false
    by (symmetry; apply Z.ltb_ge; lia).
  reflexivity.
Qed.

Lemma getRow_new_Array n j s ws :
  new_Array n = OK ws -> getRow (set_workingSet ws s) j = None.
Proof.
  unfold new_Array. destruct (n <? 0); [discriminate|]. intros E. inversion E; subst ws.
  unfold getRow, array_get. simpl. destruct (j <? 0); [reflexivity|].
  rewrite array_get_repeat_None. reflexivity.
Qed.

Lemma entries_allocated_new_Array n s ws :
  new_Array n = OK ws -> entries_allocated (set_workingSet ws s) = true.
Proof.
  unfold new_Array. destruct (n <? 0); [discriminate|]. intros E. inversion E; subst ws.
  unfold entries_allocated. simpl. apply forallb_forall. intros o Ho.
  apply repeat_spec in Ho. subst o. reflexivity.
Qed.

(** The callback of [renderData] over a synchronous source. *)
Lemma renderData_callback_rebuilds (s : Grid) (count : Z) :
  synchronous (dataSource s) = true ->
  0 <= frozenRowsTop (options s) ->
  0 <= frozenRowsBottom (options s) ->
  frozenRowsTop (options s) + frozenRowsBottom (options s) <= count ->
  0 <= begin (viewport s) ->
  exists s',
    renderData_callback count s = OK s'
    /\ recordCount s' = count
    /\ viewport s' = {| begin := 0; end_ := 0 |}
    /\ scrollinggroup s' = []
    /\ (forall row, In row (scrollinggroup s) -> In row (disposed s'))
    /\ subscribed s' = true
    /\ updateViewportQueued s' = true
    /\ (0 < frozenRowsTop (options s) ->
        map row_idx (headergroup s') = index_range 0 (frozenRowsTop (options s))
        /\ forall row, In row (headergroup s') ->
             row_id row = Some (rec_id (source_row (dataSource s) (row_idx row))))
    /\ (0 < frozenRowsBottom (options s) ->
        map row_idx (footergroup s')
        = index_range (count - frozenRowsBottom (options s)) count
        /\ forall row, In row (footergroup s') ->
             row_id row = Some (rec_id (source_row (dataSource s) (row_idx row))))
    /\ (forall j, getRow s' j
                  = if ((0 <=? j) && (j <? frozenRowsTop (options s)))
                       || ((count - frozenRowsBottom (options s) <=? j) && (j <? count))
                    then Some (source_row (dataSource s) j)
                    else None)
    /\ options s' = options s.
Proof.
  intros Hsync Ht Hb Hroom Hvp.
  unfold renderData_callback.
  set (sA := if has_headergroup s then empty_group HeaderGroup s else s).
  set (sB := if has_footergroup sA then empty_group FooterGroup sA else sA).
  set (sD := resetDataSubscriptions (set_recordCount count sB)).
  assert (HoptA : options sA = options s /\ dataSource sA = dataSource s
                  /\ viewport sA = viewport s /\ scrollinggroup sA = scrollinggroup s
                  /\ (has_headergroup s = true -> headergroup sA = [])
                  /\ disposed sA = disposed s ++
                       (if has_headergroup s then headergroup s else []))
    by (unfold sA; destruct (has_headergroup s); simpl; rewrite ?app_nil_r;
        repeat split; discriminate).
  destruct HoptA as (HoA & HdA & HvA & HsA & HhA & HdisA).
  assert (HoptB : options sB = options s /\ dataSource sB = dataSource s
                  /\ viewport sB = viewport s /\ scrollinggroup sB = scrollinggroup s
                  /\ (has_headergroup s = true -> headergroup sB = [])
                  /\ (has_footergroup s = true -> footergroup sB = [])).
  { unfold sB, has_footergroup. rewrite HoA. fold (has_footergroup s).
    destruct (has_footergroup s); simpl; repeat split; try assumption; discriminate. }
  destruct HoptB as (HoB & HdB & HvB & HsB & HhB & HfB).
  assert (HoptD : options sD = options s /\ dataSource sD = dataSource s
                  /\ viewport sD = viewport s /\ scrollinggroup sD = scrollinggroup s
                  /\ headergroup sD = headergroup sB /\ footergroup sD = footergroup sB
                  /\ recordCount sD = count /\ subscribed sD = true
                  /\ disposed sD = disposed sB).
  { unfold sD, resetDataSubscriptions, subscribed. simpl.
    rewrite nth_error_app2 by lia. rewrite Nat.sub_diag. simpl.
    repeat split; assumption. }
  destruct HoptD as (HoD & HdD & HvD & HsD & HhD & HfD & HrD & HsubD & HdisD).
  unfold new_Array.
  replace (count <? 0) with false by (symmetry; apply Z.ltb_ge; lia).
  cbv zeta. unfold bind at 1.
  set (sE := set_workingSet (repeat None (Z.to_nat count)) sD).
  assert (HnewE : new_Array (A := WorkingSetEntry) count = OK (repeat None (Z.to_nat count))).
  { unfold new_Array.
    replace (count <? 0) with false by (symmetry; apply Z.ltb_ge; lia). reflexivity. }
  rewrite (setViewport_reset sE)
    by (unfold sE; cbn [viewport options set_workingSet]; rewrite ?HvD, ?HoD; assumption).
  unfold bind at 1.
  set (sF := empty_group ScrollingGroup _).
  assert (HF : options sF = options s /\ dataSource sF = dataSource s
               /\ recordCount sF = count /\ subscribed sF = true
               /\ headergroup sF = headergroup sB /\ footergroup sF = footergroup sB
               /\ scrollinggroup sF = [] /\ viewport sF = {| begin := 0; end_ := 0 |}
               /\ entries_allocated sF = true
               /\ (forall j, getRow sF j = None)
               /\ (forall row, In row (scrollinggroup s) -> In row (disposed sF))).
  { unfold sF. simpl. unfold subscribed in *. simpl in *.
    repeat split; try assumption.
    - apply (entries_allocated_new_Array count sD). exact HnewE.
    - intros j. apply (getRow_new_Array count j sD). exact HnewE.
    - intros row Hin. apply in_or_app. right. rewrite HsD. exact Hin. }
  destruct HF as (HoF & HdF & HrF & HsubF & HhF & HfF & HsF & HvF & HaF & HgF & HdisF).
  assert (Hhas : has_headergroup sF = has_headergroup s
                 /\ forall t, options t = options s ->
                              has_headergroup t = has_headergroup s
                              /\ has_footergroup t = has_footergroup s).
  { split; [unfold has_headergroup; rewrite HoF; reflexivity|].
    intros t E. unfold has_headergroup, has_footergroup. rewrite E. split; reflexivity. }
  destruct Hhas as (HhasF & Hhas).
  rewrite HhasF, HoF.
  assert (Hc1 : has_headergroup s = false -> 0 = frozenRowsTop (options s)).
  { unfold has_headergroup. intros E. to_Prop. lia. }
  destruct (render_frozen_if (has_headergroup s) sF 0 (frozenRowsTop (options s))
              HeaderGroup)
    as (sG & EG & FG & HG1 & HG2 & HG3 & HG4);
    try (rewrite ?HdF, ?HrF, ?HoF; first [assumption | lia]).
  rewrite EG. unfold bind at 1.
  destruct FG as ((HoG & HdG & _ & _ & HqG & HdsG) & HrG & HvG & HdisG & HuG).
  rewrite HoF in HoG. rewrite HdF in HdG. rewrite HrF in HrG.
  destruct (Hhas sG HoG) as (_ & HhasG). rewrite HhasG, HoG.
  assert (Hc2 : has_footergroup s = false -> count - frozenRowsBottom (options s) = count).
  { unfold has_footergroup. intros E. to_Prop. lia. }
  destruct (render_frozen_if (has_footergroup s) sG
              (count - frozenRowsBottom (options s)) count FooterGroup)
    as (sH & EH & FH & HH1 & HH2 & HH3 & HH4);
    try (rewrite ?HdG, ?HrG, ?HoG; first [assumption | lia]).
  { intros E. rewrite (HG2 FooterGroup) by discriminate.
    change (footergroup sF = []). rewrite HfF. apply HfB. exact E. }
  rewrite EH. unfold bind at 1.
  destruct FH as ((HoH & HdH & _ & _ & HqH & HdsH) & HrH & HvH & HdisH & HuH).
  pose proof (HH2 ScrollingGroup ltac:(discriminate)) as HsH. simpl in HsH.
  pose proof (HG2 ScrollingGroup ltac:(discriminate)) as HsG. simpl in HsG.
  pose proof (HH2 HeaderGroup ltac:(discriminate)) as HhH. simpl in HhH.
  eexists. split; [reflexivity|].
  cbn [queueUpdateViewport set_updateViewportQueued recordCount viewport scrollinggroup
       disposed updateViewportQueued headergroup footergroup].
  split; [rewrite HrH; exact HrG|].
  split; [rewrite HvH, HvG; exact HvF|].
  split; [rewrite HsH, HsG; exact HsF|].
  split.
  { intros row Hin. rewrite HdisH, HdisG. apply HdisF. exact Hin. }
  split.
  { unfold subscribed in *. cbn [queueUpdateViewport set_updateViewportQueued
                                 dataSubscriptions queues].
    rewrite HdsH, HqH, HdsG, HqG. exact HsubF. }
  split; [reflexivity|].
  split.
  { intros Hpos.
    assert (Hh : has_headergroup s = true)
      by (unfold has_headergroup; apply negb_true_iff; apply Z.eqb_neq; lia).
    destruct (HG1 Hh) as (T1 & T2). rewrite HdF in T2. simpl in T1, T2.
    rewrite HhH. split; assumption. }
  split.
  { intros Hpos.
    assert (Hf : has_footergroup s = true)
      by (unfold has_footergroup; apply negb_true_iff; apply Z.eqb_neq; lia).
    destruct (HH1 Hf) as (T1 & T2). rewrite HdG in T2. simpl in T1, T2.
    split; assumption. }
  split; [|cbn [queueUpdateViewport set_updateViewportQueued options];
           rewrite HoH; exact HoG].
  intros j.
  change (getRow (queueUpdateViewport sH) j) with (getRow sH j).
  rewrite HH3, HG3, HgF, HdG, HdF.
  destruct ((count - frozenRowsBottom (options s) <=? j) && (j <? count)) eqn:E2;
    [rewrite orb_true_r; reflexivity|].
  rewrite orb_false_r. reflexivity.
Qed.


(** X10. The callback of [renderData], over a synchronous source and with
    room for the frozen rows: the grid is rebuilt from scratch. It takes the
    record count, a new data subscription queue and the empty viewport, the
    scrolling group is emptied (its rows are destroyed) and a viewport
    update is queued; a header group and a footer group, where there are
    frozen rows, hold exactly those rows, every one with the id of its
    record; the working set holds the records of the frozen rows and
    nothing else. *)
Theorem renderData_rebuilds_the_grid (s : Grid) (count : Z) :
  synchronous (dataSource s) = true ->
  0 <= frozenRowsTop (options s) ->
  0 <= frozenRowsBottom (options s) ->
  frozenRowsTop (options s) + frozenRowsBottom (options s) <= count ->
  0 <= begin (viewport s) ->
  exists s',
    renderData_callback count s = OK s'
    /\ recordCount s' = count
    /\ viewport s' = {| begin := 0; end_ := 0 |}
    /\ scrollinggroup s' = []
    /\ (forall row, In row (scrollinggroup s) -> In row (disposed s'))
    /\ subscribed s' = true
    /\ updateViewportQueued s' = true
    /\ (0 < frozenRowsTop (options s) ->
        map row_idx (headergroup s') = index_range 0 (frozenRowsTop (options s))
        /\ forall row, In row (headergroup s') ->
             row_id row = Some (rec_id (source_row (dataSource s) (row_idx row))))
    /\ (0 < frozenRowsBottom (options s) ->
        map row_idx (footergroup s')
        = index_range (count - frozenRowsBottom (options s)) count
        /\ forall row, In row (footergroup s') ->
             row_id row = Some (rec_id (source_row (dataSource s) (row_idx row))))
    /\ (forall j, getRow s' j
                  = if ((0 <=? j) && (j <? frozenRowsTop (options s)))
                       || ((count - frozenRowsBottom (options s) <=? j) && (j <? count))
                    then Some (source_row (dataSource s) j)
                    else None).
Proof.
  intros Hsync Ht Hb Hroom Hvp.
  destruct (renderData_callback_rebuilds s count Hsync Ht Hb Hroom Hvp)
    as (s' & H1 & H2 & H3 & H4 & H5 & H6 & H7 & H8 & H9 & H10 & _).
  exists s'. repeat (split; [assumption|]). exact H10.
Qed.

(** The grid of 100 records with one frozen row at the top and two at the
    bottom, showing the rows 1..10, is rendered again for 50 records. *)
Lemma renderData_rebuilds_the_grid_witness :
  exists s s',
    Scenario.showing
      {| virtualScrollingExcess := 10; frozenRowsTop := 1; frozenRowsBottom := 2;
         rowHeightOption := 31 |} 100 310 {| begin := 1; end_ := 11 |} = OK s
    /\ length (scrollinggroup s) = 10%nat
    /\ renderData_callback 50 s = OK s'
    /\ recordCount s' = 50
    /\ scrollinggroup s' = []
    /\ map row_idx (headergroup s') = [0]
    /\ map row_idx (footergroup s') = [48; 49]
    /\ map row_id (footergroup s') = [Some 1048; Some 1049].
Proof.
  eexists.
  match goal with
  | |- exists s', ?shown = OK ?s /\ _ =>
      assert (E : shown = OK s) by (vm_compute; reflexivity)
  end.
  match type of E with
  | _ = OK ?s =>
      destruct (renderData_rebuilds_the_grid s 50
                  ltac:(reflexivity) ltac:(vm_compute; discriminate)
                  ltac:(vm_compute; discriminate) ltac:(vm_compute; discriminate)
                  ltac:(vm_compute; discriminate))
        as (s' & Hs' & Hrc & _ & Hs & _ & _ & _ & Hh & Hf & _)
  end.
  exists s'.
  split; [exact E|]. split; [reflexivity|]. split; [exact Hs'|].
  split; [exact Hrc|]. split; [exact Hs|].
  destruct (Hh ltac:(reflexivity)) as (Hh1 & _).
  destruct (Hf ltac:(reflexivity)) as (Hf1 & Hf2).
  split; [rewrite Hh1; reflexivity|]. split; [rewrite Hf1; reflexivity|].
  vm_compute in Hs'. inversion Hs'; subst s'. reflexivity.
Defined.

(** X11. For the rows that [renderData] renders into the header group,
    [getRowGroupFor] names the header group. For the rows it renders into
    the footer group, [getRowGroupFor] names the footer group, but for the
    first of them, the row [recordCount - frozenRowsBottom], it names the
    scrolling group. *)
Theorem getRowGroupFor_frozen_rows (s : Grid) (count : Z) :
  synchronous (dataSource s) = true ->
  0 <= frozenRowsTop (options s) ->
  0 <= frozenRowsBottom (options s) ->
  frozenRowsTop (options s) + frozenRowsBottom (options s) <= count ->
  0 <= begin (viewport s) ->
  exists s',
    renderData_callback count s = OK s'
    /\ (0 < frozenRowsTop (options s) ->
        forall row, In row (headergroup s') ->
          getRowGroupFor s' (row_idx row) = HeaderGroup)
    /\ (0 < frozenRowsBottom (options s) ->
        forall row, In row (footergroup s') ->
          getRowGroupFor s' (row_idx row)
          = if row_idx row =? count - frozenRowsBottom (options s)
            then ScrollingGroup else FooterGroup).
Proof.
  intros Hsync Ht Hb Hroom Hvp.
  destruct (renderData_callback_rebuilds s count Hsync Ht Hb Hroom Hvp)
    as (s' & H1 & Hrc & _ & _ & _ & _ & _ & Hh & Hf & _ & Ho).
  exists s'. split; [exact H1|].
  unfold getRowGroupFor, getRecordCount. rewrite Hrc, Ho. split.
  - intros Hpos row Hin. destruct (Hh Hpos) as (Hidx & _).
    assert (Hr : In (row_idx row) (index_range 0 (frozenRowsTop (options s))))
      by (rewrite <- Hidx; apply in_map; exact Hin).
    apply In_index_range in Hr.
    replace (row_idx row <? frozenRowsTop (options s)) with true
      by (symmetry; apply Z.ltb_lt; lia).
    reflexivity.
  - intros Hpos row Hin. destruct (Hf Hpos) as (Hidx & _).
    assert (Hr : In (row_idx row)
                    (index_range (count - frozenRowsBottom (options s)) count))
      by (rewrite <- Hidx; apply in_map; exact Hin).
    apply In_index_range in Hr.
    replace (row_idx row <? frozenRowsTop (options s)) with false
      by (symmetry; apply Z.ltb_ge; lia).
    destruct (row_idx row =? count - frozenRowsBottom (options s)) eqn:E.
    + apply Z.eqb_eq in E.
      replace (count - frozenRowsBottom (options s) <? row_idx row) with false
        by (symmetry; apply Z.ltb_ge; lia).
      reflexivity.
    + apply Z.eqb_neq in E.
      replace (count - frozenRowsBottom (options s) <? row_idx row) with true
        by (symmetry; apply Z.ltb_lt; lia).
      reflexivity.
Qed.

(** The grid of 50 records with one frozen row at the top and two at the
    bottom: the rows 48 and 49 are in the footer group. *)
Lemma getRowGroupFor_frozen_rows_witness :
  exists s s',
    Scenario.showing
      {| virtualScrollingExcess := 10; frozenRowsTop := 1; frozenRowsBottom := 2;
         rowHeightOption := 31 |} 100 310 {| begin := 1; end_ := 11 |} = OK s
    /\ renderData_callback 50 s = OK s'
    /\ map row_idx (footergroup s') = [48; 49]
    /\ map (getRowGroupFor s') [0; 48; 49] = [HeaderGroup; ScrollingGroup; FooterGroup].
Proof.
  eexists.
  match goal with
  | |- exists s', ?shown = OK ?s /\ _ =>
      assert (E : shown = OK s) by (vm_compute; reflexivity)
  end.
  match type of E with
  | _ = OK ?s =>
      destruct (getRowGroupFor_frozen_rows s 50
                  ltac:(reflexivity) ltac:(vm_compute; discriminate)
                  ltac:(vm_compute; discriminate) ltac:(vm_compute; discriminate)
                  ltac:(vm_compute; discriminate))
        as (s' & Hs' & _)
  end.
  exists s'. split; [exact E|]. split; [exact Hs'|].
  vm_compute in Hs'. inversion Hs'; subst s'. split; reflexivity.
Defined.

(** ** The view of the tree grid data source *)

Section TreeView.
Import SyncTreeGridDataSource.

(** Induction on a tree, with the children as a list. *)
Lemma TreeRecord_induction (P : TreeRecord -> Prop) :
  (forall i cs, Forall P cs -> P (TreeNode i cs)) -> forall t, P t.
Proof.
  intros H. fix IH 1. intros [i cs]. apply H.
  induction cs as [|c cs IHcs]; constructor; [apply IH | exact IHcs].
Qed.

Lemma flat_unfold E lvl node :
  flat E lvl node
  = (node, lvl) :: (if isExpanded E node
                    then expected_view E (lvl + 1) (children node)
                    else []).
Proof. destruct node; reflexivity. Qed.

Lemma nodes_of_unfold node :
  nodes_of node = node :: flat_map nodes_of (children node).
Proof. destruct node; reflexivity. Qed.

Lemma expected_view_cons E lvl c cs :
  expected_view E lvl (c :: cs) = flat E lvl c ++ expected_view E lvl cs.
Proof. reflexivity. Qed.

(** *** Numbering *)

Lemma numbered_app n0 l1 l2 :
  numbered n0 (l1 ++ l2) = numbered n0 l1 ++ numbered (n0 + length l1) l2.
Proof.
  unfold numbered. revert n0. induction l1 as [|x l1 IH]; intros n0.
  - simpl. rewrite Nat.add_0_r. reflexivity.
  - cbn [app length seq combine map]. rewrite IH.
    replace (S n0 + length l1)%nat with (n0 + S (length l1))%nat by lia.
    reflexivity.
Qed.

Lemma numbered_length n0 l : length (numbered n0 l) = length l.
Proof.
  unfold numbered. rewrite length_map, length_combine, length_seq. lia.
Qed.

Lemma numbered_records n0 l :
  map (fun n => (record n, level n)) (numbered n0 l) = l.
Proof.
  unfold numbered. revert n0. induction l as [|[r lv] l IH]; intros n0; simpl;
    [reflexivity|]. f_equal. apply IH.
Qed.

Lemma numbered_objs n0 l : map obj (numbered n0 l) = seq n0 (length l).
Proof.
  unfold numbered. revert n0. induction l as [|x l IH]; intros n0; simpl;
    [reflexivity|]. f_equal. apply IH.
Qed.

Lemma registered_app l1 l2 m :
  registered (l1 ++ l2) m = registered l2 (registered l1 m).
Proof. unfold registered. apply fold_left_app. Qed.

(** *** The walk of [flattenTree] *)

Lemma fold_flatten_spec E lvl cs :
  Forall (fun c => forall lvl w,
            flatten E lvl c w
            = {| list_ := list_ w ++ numbered (next w) (flat E lvl c);
                 byId := registered (numbered (next w) (flat E lvl c)) (byId w);
                 next := next w + length (flat E lvl c) |}) cs ->
  forall w,
    fold_left (fun w c => flatten E lvl c w) cs w
    = {| list_ := list_ w ++ numbered (next w) (expected_view E lvl cs);
         byId := registered (numbered (next w) (expected_view E lvl cs)) (byId w);
         next := next w + length (expected_view E lvl cs) |}.
Proof.
  induction 1 as [|c cs Hc _ IH]; intros w.
  - simpl. rewrite app_nil_r, Nat.add_0_r. destruct w; reflexivity.
  - cbn [fold_left]. rewrite Hc, IH. cbn [list_ byId next].
    rewrite expected_view_cons, numbered_app, registered_app, length_app.
    rewrite <- app_assoc. f_equal. lia.
Qed.

Lemma flatten_spec E node : forall lvl w,
  flatten E lvl node w
  = {| list_ := list_ w ++ numbered (next w) (flat E lvl node);
       byId := registered (numbered (next w) (flat E lvl node)) (byId w);
       next := next w + length (flat E lvl node) |}.
Proof.
  induction node as [i cs IH] using TreeRecord_induction. intros lvl w.
  rewrite flat_unfold. cbn [flatten].
  destruct (isExpanded E (TreeNode i cs)).
  - rewrite (fold_flatten_spec E (lvl + 1) cs IH). cbn [list_ byId next children].
    change ((TreeNode i cs, lvl) :: expected_view E (lvl + 1) cs)
      with ([(TreeNode i cs, lvl)] ++ expected_view E (lvl + 1) cs).
    rewrite numbered_app, registered_app, <- app_assoc.
    cbn [length app]. replace (next w + 1)%nat with (S (next w)) by lia.
    f_equal. lia.
  - cbn [length]. f_equal. lia.
Qed.

Lemma flattenTree_spec nodes lvl s :
  flattenTree nodes lvl s
  = (numbered (nextObj s) (expected_view (expandedById s) lvl nodes),
     mkDataSource (treesource s) (expandedById s)
       (registered (numbered (nextObj s) (expected_view (expandedById s) lvl nodes))
          (nodesById s))
       (view s)
       (nextObj s + length (expected_view (expandedById s) lvl nodes))
       (triggered s)).
Proof.
  unfold flattenTree. rewrite fold_flatten_spec.
  - reflexivity.
  - apply Forall_forall. intros c _. apply flatten_spec.
Qed.

(** *** The expected view *)

Lemma isExpanded_cons i b E x :
  isExpanded ((i, b) :: E) x = if i =? id x then b else isExpanded E x.
Proof.
  unfold isExpanded. simpl. destruct (i =? id x); [destruct b|]; reflexivity.
Qed.

(** The ids of the records a view shows. *)
Lemma shown_ids_cons E lvl c cs :
  map (fun x => id (fst x)) (expected_view E lvl (c :: cs))
  = map (fun x => id (fst x)) (flat E lvl c)
    ++ map (fun x => id (fst x)) (expected_view E lvl cs).
Proof. rewrite expected_view_cons. apply map_app. Qed.

(** The expansion state of a record that is not shown does not matter. *)
Lemma hidden_tree i b E t : forall lvl,
  ~ In i (map (fun x => id (fst x)) (flat E lvl t)) ->
  flat ((i, b) :: E) lvl t = flat E lvl t.
Proof.
  induction t as [j cs IH] using TreeRecord_induction. intros lvl Hi.
  rewrite !flat_unfold in *. cbn [map fst id children] in *.
  rewrite isExpanded_cons. cbn [id].
  destruct (i =? j) eqn:E1; [apply Z.eqb_eq in E1; subst; exfalso; apply Hi; left; reflexivity|].
  f_equal. destruct (isExpanded E (TreeNode j cs)); [|reflexivity].
  assert (Hcs : ~ In i (map (fun x => id (fst x)) (expected_view E (lvl + 1) cs)))
    by (intros H; apply Hi; right; exact H).
  clear Hi. revert Hcs. generalize (lvl + 1). clear lvl.
  induction IH as [|c cs Hc _ IHcs]; intros lvl Hcs; [reflexivity|].
  rewrite !expected_view_cons. rewrite shown_ids_cons in Hcs.
  rewrite Hc, IHcs; [reflexivity | |]; intros H; apply Hcs; apply in_or_app; auto.
Qed.

Lemma hidden_forest i b E cs : forall lvl,
  ~ In i (map (fun x => id (fst x)) (expected_view E lvl cs)) ->
  expected_view ((i, b) :: E) lvl cs = expected_view E lvl cs.
Proof.
  induction cs as [|c cs IH]; intros lvl Hi; [reflexivity|].
  rewrite !expected_view_cons. rewrite shown_ids_cons in Hi.
  rewrite hidden_tree, IH; [reflexivity | |]; intros H; apply Hi; apply in_or_app; auto.
Qed.

(** The records a view shows are records of the tree. *)
Lemma shown_tree E t : forall lvl x,
  In x (flat E lvl t) -> In (fst x) (nodes_of t) /\ lvl <= snd x.
Proof.
  induction t as [j cs IH] using TreeRecord_induction. intros lvl x Hx.
  rewrite flat_unfold in Hx. rewrite nodes_of_unfold. cbn [children] in *.
  destruct Hx as [<-|Hx]; [split; [left; reflexivity | simpl; lia]|].
  destruct (isExpanded E (TreeNode j cs)); [|contradiction].
  assert (G : In (fst x) (flat_map nodes_of cs) /\ lvl + 1 <= snd x).
  { revert Hx. generalize (lvl + 1). intros l Hx.
    induction IH as [|c cs Hc _ IHcs]; [contradiction|].
    rewrite expected_view_cons in Hx. apply in_app_or in Hx. cbn [flat_map].
    destruct Hx as [Hx|Hx].
    - destruct (Hc _ _ Hx). split; [apply in_or_app; left|]; assumption.
    - destruct (IHcs Hx). split; [apply in_or_app; right|]; assumption. }
  destruct G. split; [right; assumption | lia].
Qed.

Lemma shown_forest E cs : forall lvl x,
  In x (expected_view E lvl cs) -> In (fst x) (flat_map nodes_of cs) /\ lvl <= snd x.
Proof.
  induction cs as [|c cs IH]; intros lvl x Hx; [contradiction|].
  rewrite expected_view_cons in Hx. apply in_app_or in Hx. cbn [flat_map].
  destruct Hx as [Hx|Hx].
  - destruct (shown_tree _ _ _ _ Hx). split; [apply in_or_app; left|]; assumption.
  - destruct (IH _ _ Hx). split; [apply in_or_app; right|]; assumption.
Qed.

Lemma shown_ids_forest E cs lvl i :
  In i (map (fun x => id (fst x)) (expected_view E lvl cs)) ->
  In i (map id (flat_map nodes_of cs)).
Proof.
  intros H. apply in_map_iff in H. destruct H as (x & <- & Hx).
  apply in_map. apply (shown_forest E cs lvl x Hx).
Qed.

Lemma shown_ids_tree E t lvl i :
  In i (map (fun x => id (fst x)) (flat E lvl t)) -> In i (map id (nodes_of t)).
Proof.
  intros H. apply in_map_iff in H. destruct H as (x & <- & Hx).
  apply in_map. apply (shown_tree E t lvl x Hx).
Qed.

Lemma ids_nodes_cons c cs :
  map id (flat_map nodes_of (c :: cs))
  = map id (nodes_of c) ++ map id (flat_map nodes_of cs).
Proof. cbn [flat_map]. apply map_app. Qed.

Lemma NoDup_app_parts {A : Type} (l1 l2 : list A) :
  NoDup (l1 ++ l2) ->
  NoDup l1 /\ NoDup l2 /\ (forall x, In x l1 -> ~ In x l2).
Proof.
  intros H. split; [eapply NoDup_app_remove_r; exact H|].
  split; [eapply NoDup_app_remove_l; exact H|].
  apply NoDup_app_disjoint. exact H.
Qed.

(** Where an element of a concatenation lies. *)
Lemma split_app {T : Type} (A B pre post : list T) (y : T) :
  A ++ B = pre ++ y :: post ->
  (exists a, A = pre ++ y :: a /\ post = a ++ B)
  \/ (exists b, B = b ++ y :: post /\ pre = A ++ b).
Proof.
  revert pre. induction A as [|a A IH]; intros pre H.
  - right. exists pre. split; [exact H | reflexivity].
  - destruct pre as [|p pre]; simpl in H; inversion H; subst.
    + left. exists A. split; reflexivity.
    + destruct (IH pre H2) as [(a' & -> & ->) | (b & -> & ->)].
      * left. exists a'. split; reflexivity.
      * right. exists b. split; reflexivity.
Qed.

(** In a tree whose ids are unique, no id is shown twice. *)
Lemma shown_once_tree E t : forall lvl,
  NoDup (map id (nodes_of t)) ->
  NoDup (map (fun x => id (fst x)) (flat E lvl t)).
Proof.
  induction t as [j cs IH] using TreeRecord_induction. intros lvl Hnd.
  rewrite flat_unfold. rewrite nodes_of_unfold in Hnd. cbn [children map fst id] in *.
  inversion Hnd as [|? ? Hj Hcs]; subst.
  destruct (isExpanded E (TreeNode j cs)); [|repeat constructor; intros []].
  constructor.
  - intros H. apply Hj. eapply shown_ids_forest. exact H.
  - clear Hj Hnd. generalize (lvl + 1). intros l.
    induction IH as [|c cs Hc _ IHcs]; [constructor|].
    rewrite shown_ids_cons. rewrite ids_nodes_cons in Hcs.
    apply NoDup_app_parts in Hcs. destruct Hcs as (N1 & N2 & D).
    apply NoDup_app; [apply Hc; exact N1 | apply IHcs; exact N2 |].
    intros i H1 H2. apply (D i).
    + eapply shown_ids_tree. exact H1.
    + eapply shown_ids_forest. exact H2.
Qed.

Lemma shown_once_forest E cs : forall lvl,
  NoDup (map id (flat_map nodes_of cs)) ->
  NoDup (map (fun x => id (fst x)) (expected_view E lvl cs)).
Proof.
  induction cs as [|c cs IH]; intros lvl Hnd; [constructor|].
  rewrite shown_ids_cons. rewrite ids_nodes_cons in Hnd.
  apply NoDup_app_parts in Hnd. destruct Hnd as (N1 & N2 & D).
  apply NoDup_app; [apply shown_once_tree; exact N1 | apply IH; exact N2 |].
  intros i H1 H2. apply (D i).
  - eapply shown_ids_tree. exact H1.
  - eapply shown_ids_forest. exact H2.
Qed.

Lemma in_shown (x : TreeRecord) (l : Z) pre post (v : list (TreeRecord * Z)) :
  v = pre ++ (x, l) :: post -> In (id x) (map (fun y => id (fst y)) v).
Proof.
  intros ->. rewrite map_app. apply in_or_app. right. left. reflexivity.
Qed.

(** What expanding a shown record adds to the view: its children, shown
    under the new expansion state, right after it. *)
Lemma expand_tree E x l t : forall lvl pre post,
  NoDup (map id (nodes_of t)) ->
  isExpanded E x = false ->
  flat E lvl t = pre ++ (x, l) :: post ->
  flat ((id x, true) :: E) lvl t
  = pre ++ (x, l) :: expected_view ((id x, true) :: E) (l + 1) (children x) ++ post.
Proof.
  induction t as [j cs IH] using TreeRecord_induction. intros lvl pre post Hnd Hx Hv.
  rewrite flat_unfold in *. rewrite nodes_of_unfold in Hnd. cbn [children map id] in *.
  inversion Hnd as [|? ? Hj Hcs]; subst.
  rewrite isExpanded_cons. cbn [id].
  destruct pre as [|p pre]; simpl in Hv.
  - (* the record is the root *)
    injection Hv as Hroot Hl Hrest. subst x l.
    rewrite Hx in Hrest. subst post. cbn [id children]. rewrite Z.eqb_refl.
    rewrite app_nil_r. reflexivity.
  - (* the record is below the root *)
    injection Hv as Hp Hrest. subst p.
    destruct (isExpanded E (TreeNode j cs)) eqn:Ej;
      [|destruct pre; discriminate].
    assert (Hne : id x <> j).
    { intros Heq. apply Hj. rewrite <- Heq.
      eapply shown_ids_forest. eapply in_shown. exact Hrest. }
    replace (id x =? j) with false by (symmetry; apply Z.eqb_neq; exact Hne).
    simpl. f_equal.
    clear Hj Hnd Ej Hne. revert pre post Hrest. generalize (lvl + 1). intros lv.
    induction IH as [|c cs Hc _ IHcs]; intros pre post Hrest.
    + destruct pre; discriminate.
    + rewrite expected_view_cons in *. rewrite ids_nodes_cons in Hcs.
      apply NoDup_app_parts in Hcs. destruct Hcs as (N1 & N2 & D).
      apply split_app in Hrest.
      destruct Hrest as [(a & Ha & ->) | (b & Hb & ->)].
      * rewrite (Hc lv pre a N1 Hx Ha).
        rewrite (hidden_forest (id x) true E cs lv).
        -- rewrite <- !app_assoc. simpl. rewrite <- app_assoc. reflexivity.
        -- intros H. apply (D (id x)).
           ++ eapply shown_ids_tree. eapply in_shown. exact Ha.
           ++ eapply shown_ids_forest. exact H.
      * rewrite (IHcs N2 b post Hb).
        rewrite (hidden_tree (id x) true E c lv).
        -- rewrite <- app_assoc. reflexivity.
        -- intros H. apply (D (id x)).
           ++ eapply shown_ids_tree. exact H.
           ++ eapply shown_ids_forest. eapply in_shown. exact Hb.
Qed.

Lemma expand_forest E x l cs : forall lvl pre post,
  NoDup (map id (flat_map nodes_of cs)) ->
  isExpanded E x = false ->
  expected_view E lvl cs = pre ++ (x, l) :: post ->
  expected_view ((id x, true) :: E) lvl cs
  = pre ++ (x, l) :: expected_view ((id x, true) :: E) (l + 1) (children x) ++ post.
Proof.
  induction cs as [|c cs IH]; intros lvl pre post Hnd Hx Hv.
  - destruct pre; discriminate.
  - rewrite expected_view_cons in *. rewrite ids_nodes_cons in Hnd.
    apply NoDup_app_parts in Hnd. destruct Hnd as (N1 & N2 & D).
    apply split_app in Hv.
    destruct Hv as [(a & Ha & ->) | (b & Hb & ->)].
    + rewrite (expand_tree E x l c lvl pre a N1 Hx Ha).
      rewrite (hidden_forest (id x) true E cs lvl).
      * rewrite <- !app_assoc. simpl. rewrite <- app_assoc. reflexivity.
      * intros H. apply (D (id x)).
        -- eapply shown_ids_tree. eapply in_shown. exact Ha.
        -- eapply shown_ids_forest. exact H.
    + rewrite (IH lvl b post N2 Hx Hb).
      rewrite (hidden_tree (id x) true E c lvl).
      * rewrite <- app_assoc. reflexivity.
      * intros H. apply (D (id x)).
        -- eapply shown_ids_tree. exact H.
        -- eapply shown_ids_forest. eapply in_shown. exact Hb.
Qed.

Lemma expected_view_head E lvl cs p rest :
  expected_view E lvl cs = p :: rest -> snd p = lvl.
Proof.
  destruct cs as [|c cs]; [discriminate|].
  rewrite expected_view_cons, flat_unfold. simpl. intros H. inversion H. reflexivity.
Qed.

(** What collapsing a shown record removes from the view: the nodes right
    after it that lie deeper, which are its descendants; the node that
    follows them, if any, does not lie deeper. *)
Lemma collapse_tree E x l t : forall lvl pre rest,
  NoDup (map id (nodes_of t)) ->
  isExpanded E x = true ->
  flat E lvl t = pre ++ (x, l) :: rest ->
  exists post,
    rest = expected_view E (l + 1) (children x) ++ post
    /\ flat ((id x, false) :: E) lvl t = pre ++ (x, l) :: post
    /\ (forall p post', post = p :: post' -> snd p <= l)
    /\ lvl <= l.
Proof.
  induction t as [j cs IH] using TreeRecord_induction. intros lvl pre rest Hnd Hx Hv.
  rewrite flat_unfold in *. rewrite nodes_of_unfold in Hnd. cbn [children map id] in *.
  inversion Hnd as [|? ? Hj Hcs]; subst.
  rewrite isExpanded_cons. cbn [id].
  destruct pre as [|p pre]; simpl in Hv.
  - (* the record is the root *)
    injection Hv as Hroot Hl Hrest. subst x l.
    rewrite Hx in Hrest. subst rest. cbn [id children]. rewrite Z.eqb_refl.
    exists []. rewrite app_nil_r.
    split; [reflexivity|]. split; [reflexivity|]. split; [discriminate | lia].
  - (* the record is below the root *)
    injection Hv as Hp Hrest. subst p.
    destruct (isExpanded E (TreeNode j cs)) eqn:Ej;
      [|destruct pre; discriminate].
    assert (Hne : id x <> j).
    { intros Heq. apply Hj. rewrite <- Heq.
      eapply shown_ids_forest. eapply in_shown. exact Hrest. }
    replace (id x =? j) with false by (symmetry; apply Z.eqb_neq; exact Hne).
    assert (G : exists post,
               rest = expected_view E (l + 1) (children x) ++ post
               /\ expected_view ((id x, false) :: E) (lvl + 1) cs = pre ++ (x, l) :: post
               /\ (forall p post', post = p :: post' -> snd p <= l)
               /\ lvl + 1 <= l).
    { clear Hj Hnd Ej Hne. revert pre rest Hrest. generalize (lvl + 1). intros lv.
      induction IH as [|c cs Hc _ IHcs]; intros pre rest Hrest.
      - destruct pre; discriminate.
      - rewrite expected_view_cons in *. rewrite ids_nodes_cons in Hcs.
        apply NoDup_app_parts in Hcs. destruct Hcs as (N1 & N2 & D).
        apply split_app in Hrest.
        destruct Hrest as [(a & Ha & ->) | (b & Hb & ->)].
        + destruct (Hc lv pre a N1 Hx Ha) as (post & -> & Hc' & Hhead & Hlv).
          exists (post ++ expected_view E lv cs).
          split; [rewrite app_assoc; reflexivity|].
          split; [|split; [|exact Hlv]].
          * rewrite Hc'. rewrite (hidden_forest (id x) false E cs lv).
            -- rewrite <- app_assoc. reflexivity.
            -- intros H. apply (D (id x)).
               ++ eapply shown_ids_tree. eapply in_shown. exact Ha.
               ++ eapply shown_ids_forest. exact H.
          * intros p post' Hp. destruct post as [|q post].
            -- simpl in Hp. apply expected_view_head in Hp. lia.
            -- simpl in Hp. inversion Hp; subst. eapply Hhead. reflexivity.
        + destruct (IHcs N2 b rest Hb) as (post & -> & Hcs' & Hhead & Hlv).
          exists post. split; [reflexivity|].
          split; [|split; assumption].
          rewrite Hcs'. rewrite (hidden_tree (id x) false E c lv).
          * rewrite <- app_assoc. reflexivity.
          * intros H. apply (D (id x)).
            -- eapply shown_ids_tree. exact H.
            -- eapply shown_ids_forest. eapply in_shown. exact Hb. }
    destruct G as (post & -> & G2 & G3 & G4).
    exists post. split; [reflexivity|]. split; [|split; [exact G3 | lia]].
    simpl. rewrite G2. reflexivity.
Qed.

Lemma collapse_forest E x l cs : forall lvl pre rest,
  NoDup (map id (flat_map nodes_of cs)) ->
  isExpanded E x = true ->
  expected_view E lvl cs = pre ++ (x, l) :: rest ->
  exists post,
    rest = expected_view E (l + 1) (children x) ++ post
    /\ expected_view ((id x, false) :: E) lvl cs = pre ++ (x, l) :: post
    /\ (forall p post', post = p :: post' -> snd p <= l)
    /\ lvl <= l.
Proof.
  induction cs as [|c cs IH]; intros lvl pre rest Hnd Hx Hv.
  - destruct pre; discriminate.
  - rewrite expected_view_cons in *. rewrite ids_nodes_cons in Hnd.
    apply NoDup_app_parts in Hnd. destruct Hnd as (N1 & N2 & D).
    apply split_app in Hv.
    destruct Hv as [(a & Ha & ->) | (b & Hb & ->)].
    + destruct (collapse_tree E x l c lvl pre a N1 Hx Ha) as (post & -> & Hc' & Hhead & Hlv).
      exists (post ++ expected_view E lvl cs).
      split; [rewrite app_assoc; reflexivity|].
      split; [|split; [|exact Hlv]].
      * rewrite Hc'. rewrite (hidden_forest (id x) false E cs lvl).
        -- rewrite <- app_assoc. reflexivity.
        -- intros H. apply (D (id x)).
           ++ eapply shown_ids_tree. eapply in_shown. exact Ha.
           ++ eapply shown_ids_forest. exact H.
      * intros p post' Hp. destruct post as [|q post].
        -- simpl in Hp. apply expected_view_head in Hp. lia.
        -- simpl in Hp. inversion Hp; subst. eapply Hhead. reflexivity.
    + destruct (IH lvl b rest N2 Hx Hb) as (post & -> & Hcs' & Hhead & Hlv).
      exists post. split; [reflexivity|].
      split; [|split; assumption].
      rewrite Hcs'. rewrite (hidden_tree (id x) false E c lvl).
      * rewrite <- app_assoc. reflexivity.
      * intros H. apply (D (id x)).
        -- eapply shown_ids_tree. exact H.
        -- eapply shown_ids_forest. eapply in_shown. exact Hb.
Qed.

End TreeView.

Section TreeOperations.
Import SyncTreeGridDataSource.

(** *** The index of nodes *)

Lemma lookup_registered_other i l : forall m,
  ~ In i (map (fun n => id (record n)) l) ->
  lookup i (registered l m) = lookup i m.
Proof.
  unfold registered. induction l as [|a l IH]; intros m H; [reflexivity|].
  cbn [fold_left]. rewrite IH by (intros Hin; apply H; right; exact Hin).
  simpl. replace (id (record a) =? i) with false; [reflexivity|].
  symmetry. apply Z.eqb_neq. intros Heq. apply H. left. exact Heq.
Qed.

Lemma lookup_registered_new l : forall m n,
  NoDup (map (fun n => id (record n)) l) ->
  In n l ->
  lookup (id (record n)) (registered l m) = Some n.
Proof.
  unfold registered. induction l as [|a l IH]; intros m n Hnd Hin; [contradiction|].
  cbn [fold_left]. inversion Hnd as [|? ? Ha Hl]; subst.
  destruct Hin as [->|Hin].
  - rewrite (lookup_registered_other _ l) by exact Ha.
    simpl. rewrite Z.eqb_refl. reflexivity.
  - apply IH; assumption.
Qed.

Lemma lookup_registered_found i l : forall m n,
  lookup i (registered l m) = Some n ->
  (In n l /\ id (record n) = i) \/ lookup i m = Some n.
Proof.
  unfold registered. induction l as [|a l IH]; intros m n H; [right; exact H|].
  cbn [fold_left] in H. apply IH in H. destruct H as [(Hin & Hid) | H].
  - left. split; [right; exact Hin | exact Hid].
  - simpl in H. destruct (id (record a) =? i) eqn:E.
    + inversion H; subst. left. split; [left; reflexivity | apply Z.eqb_eq; exact E].
    + right. exact H.
Qed.

Lemma numbered_In n0 l n :
  In n (numbered n0 l) ->
  (n0 <= obj n < n0 + length l)%nat /\ In (record n, level n) l.
Proof.
  intros H. split.
  - assert (Ho : In (obj n) (map obj (numbered n0 l))) by (apply in_map; exact H).
    rewrite numbered_objs in Ho. apply in_seq in Ho. exact Ho.
  - rewrite <- (numbered_records n0 l). apply (in_map (fun n => (record n, level n))).
    exact H.
Qed.

Lemma numbered_ids n0 l :
  map (fun n => id (record n)) (numbered n0 l) = map (fun x => id (fst x)) l.
Proof.
  rewrite <- (numbered_records n0 l) at 2. rewrite map_map. reflexivity.
Qed.

Lemma NoDup_map_same {A B : Type} (f : A -> B) (l : list A) a b :
  NoDup (map f l) -> In a l -> In b l -> f a = f b -> a = b.
Proof.
  induction l as [|x l IH]; intros Hnd Ha Hb Hab; [contradiction|].
  simpl in Hnd. inversion Hnd as [|? ? Hx Hl]; subst.
  destruct Ha as [->|Ha], Hb as [->|Hb].
  - reflexivity.
  - exfalso. apply Hx. rewrite Hab. apply in_map. exact Hb.
  - exfalso. apply Hx. rewrite <- Hab. apply in_map. exact Ha.
  - apply IH; assumption.
Qed.

(** *** [indexOf] *)

Lemma indexOf_from_missing o v : forall k,
  (forall m, In m v -> obj m <> o) -> indexOf_from o v k = -1.
Proof.
  induction v as [|a v IH]; intros k H; [reflexivity|]. simpl.
  replace (Nat.eqb (obj a) o) with false
    by (symmetry; apply Nat.eqb_neq; apply H; left; reflexivity).
  apply IH. intros m Hm. apply H. right. exact Hm.
Qed.

Lemma indexOf_from_found o pre n post : forall k,
  obj n = o ->
  (forall m, In m pre -> obj m <> o) ->
  indexOf_from o (pre ++ n :: post) k = k + Z.of_nat (length pre).
Proof.
  induction pre as [|a pre IH]; intros k Hn H; simpl.
  - rewrite Hn, Nat.eqb_refl. lia.
  - replace (Nat.eqb (obj a) o) with false
      by (symmetry; apply Nat.eqb_neq; apply H; left; reflexivity).
    rewrite IH; [lia | exact Hn |]. intros m Hm. apply H. right. exact Hm.
Qed.

Lemma indexOf_from_cases o v : forall k,
  (indexOf_from o v k = -1 /\ forall m, In m v -> obj m <> o)
  \/ exists pre n post,
       v = pre ++ n :: post /\ obj n = o
       /\ indexOf_from o v k = k + Z.of_nat (length pre).
Proof.
  induction v as [|a v IH]; intros k.
  - left. split; [reflexivity | intros m []].
  - simpl. destruct (Nat.eqb (obj a) o) eqn:E.
    + right. exists [], a, v. apply Nat.eqb_eq in E.
      split; [reflexivity|]. split; [exact E | simpl; lia].
    + apply Nat.eqb_neq in E.
      destruct (IH (k + 1)) as [(H1 & H2) | (pre & n & post & -> & Hn & Hi)].
      * left. split; [exact H1|]. intros m [<-|Hm]; [exact E | apply H2; exact Hm].
      * right. exists (a :: pre), n, post.
        split; [reflexivity|]. split; [exact Hn|]. rewrite Hi.
        change (length (a :: pre)) with (S (length pre)). lia.
Qed.

(** *** Slices of the view *)

Lemma js_splice_inside {A : Type} (l : list A) (start d : Z) :
  0 <= start -> 0 <= d -> start + d <= Z.of_nat (length l) ->
  js_splice l start d
  = firstn (Z.to_nat start) l ++ skipn (Z.to_nat start + Z.to_nat d) l.
Proof.
  intros Hs Hd Hl. unfold js_splice, relative_index.
  replace (start <? 0) with false by (symmetry; apply Z.ltb_ge; lia).
  rewrite (Z.min_l start) by lia. rewrite (Z.max_l d 0) by lia.
  rewrite (Z.min_l d) by lia. f_equal. f_equal. lia.
Qed.

Lemma deeper_run lvl (sub post : list ViewNode) :
  (forall n, In n sub -> lvl < level n) ->
  (forall p post', post = p :: post' -> level p <= lvl) ->
  deeper lvl (sub ++ post) = length sub.
Proof.
  intros Hsub Hpost. induction sub as [|a sub IH]; simpl.
  - destruct post as [|p post']; [reflexivity|]. simpl.
    replace (lvl <? level p) with false; [reflexivity|].
    symmetry. apply Z.ltb_ge. eapply Hpost. reflexivity.
  - replace (lvl <? level a) with true
      by (symmetry; apply Z.ltb_lt; apply Hsub; left; reflexivity).
    f_equal. apply IH. intros n Hn. apply Hsub. right. exact Hn.
Qed.

(** *** [expand] *)

Lemma shown_record roots E (v : list ViewNode) n :
  map (fun n => (record n, level n)) v = expected_view E 0 roots ->
  In n v ->
  In (record n) (flat_map nodes_of roots).
Proof.
  intros Hv Hn.
  assert (H : In (record n, level n) (expected_view E 0 roots))
    by (rewrite <- Hv; apply (in_map (fun n => (record n, level n))); exact Hn).
  apply shown_forest in H. apply H.
Qed.

Lemma consistent_hidden roots s i :
  consistent roots s ->
  (findNodeForRowId s i = None
   \/ exists nd, findNodeForRowId s i = Some nd
                 /\ forall v, view s = Some v -> forall m, In m v -> obj m <> obj nd) ->
  ~ In i (map (fun x => id (fst x)) (expected_view (expandedById s) 0 roots)).
Proof.
  intros (Hts & v & Hview & Hv & Hnd & Hin & Hlook) Hcase Hi.
  rewrite <- Hv in Hi. rewrite map_map in Hi. apply in_map_iff in Hi.
  destruct Hi as (n & Hid & Hn). simpl in Hid.
  destruct (Hin n Hn) as (_ & Hl). rewrite Hid in Hl.
  destruct Hcase as [Hnone | (nd & Hsome & Hno)].
  - congruence.
  - rewrite Hl in Hsome. inversion Hsome; subst nd.
    apply (Hno v Hview n Hn). reflexivity.
Qed.

(** A change of the expansion state of a record that is not shown leaves
    the data source consistent. *)
Lemma consistent_toggled_hidden roots s i b :
  consistent roots s ->
  ~ In i (map (fun x => id (fst x)) (expected_view (expandedById s) 0 roots)) ->
  forall es,
    consistent roots
      (mkDataSource (treesource s) ((i, b) :: expandedById s) (nodesById s) (view s)
         (nextObj s) es).
Proof.
  intros (Hts & v & Hview & Hv & Hnd & Hin & Hlook) Hi es.
  split; [exact Hts|]. exists v. cbn.
  split; [exact Hview|]. split; [|split; [exact Hnd | split; [exact Hin | exact Hlook]]].
  rewrite hidden_forest by exact Hi. exact Hv.
Qed.

(** The node of a shown record, as [expand] and [collapse] find it. *)
Lemma find_shown roots s row :
  NoDup (map id (flat_map nodes_of roots)) ->
  consistent roots s ->
  In row (flat_map nodes_of roots) ->
  forall v, view s = Some v ->
    (indexOf (findNodeForRowId s (id row)) v = -1
     /\ ~ In (id row) (map (fun x => id (fst x)) (expected_view (expandedById s) 0 roots)))
    \/ exists pre n post,
         v = pre ++ n :: post
         /\ findNodeForRowId s (id row) = Some n
         /\ record n = row
         /\ indexOf (findNodeForRowId s (id row)) v = Z.of_nat (length pre).
Proof.
  intros Huniq Hc Hrow v Hview.
  pose proof Hc as (Hts & v' & Hview' & Hv & Hnd & Hin & Hlook).
  rewrite Hview in Hview'. inversion Hview'; subst v'. clear Hview'.
  destruct (findNodeForRowId s (id row)) as [nd|] eqn:Hfind.
  - destruct (indexOf_from_cases (obj nd) v 0)
      as [(Hidx & Hno) | (pre & n & post & Hsplit & Hobj & Hidx)].
    + left. split; [exact Hidx|].
      apply (consistent_hidden roots s (id row) Hc). right.
      exists nd. split; [exact Hfind|]. intros v0 Hv0 m Hm.
      rewrite Hview in Hv0. inversion Hv0; subst v0. apply Hno. exact Hm.
    + right. exists pre, n, post.
      destruct (Hlook _ _ Hfind) as (_ & Hid & Hsame).
      assert (Hn : In n v) by (rewrite Hsplit; apply in_or_app; right; left; reflexivity).
      assert (Heq : n = nd) by (apply Hsame; assumption).
      subst nd. split; [exact Hsplit|]. split; [reflexivity|].
      split; [|simpl; rewrite Hidx; lia].
      apply (NoDup_map_same id (flat_map nodes_of roots)); try assumption.
      eapply shown_record; eassumption.
  - left. split; [reflexivity|].
    apply (consistent_hidden roots s (id row) Hc). left. exact Hfind.
Qed.

Lemma firstn_skipn_middle {A : Type} (pre : list A) (n : A) (post : list A) :
  firstn (length pre + 1) (pre ++ n :: post) = pre ++ [n]
  /\ skipn (length pre + 1) (pre ++ n :: post) = post.
Proof.
  replace (pre ++ n :: post) with ((pre ++ [n]) ++ post)
    by (rewrite <- app_assoc; reflexivity).
  replace (length pre + 1)%nat with (length (pre ++ [n]))
    by (rewrite length_app; reflexivity).
  split.
  - rewrite firstn_app, firstn_all, Nat.sub_diag. simpl. apply app_nil_r.
  - rewrite skipn_app, skipn_all, Nat.sub_diag. reflexivity.
Qed.

(** [expand] on a consistent data source. *)
Lemma expand_step roots s row :
  NoDup (map id (flat_map nodes_of roots)) ->
  consistent roots s ->
  In row (flat_map nodes_of roots) ->
  exists s',
    expand row s = OK s'
    /\ consistent roots s'
    /\ (isExpanded (expandedById s) row = true -> s' = s)
    /\ (isExpanded (expandedById s) row = false ->
        isExpanded (expandedById s') row = true
        /\ forall v, view s = Some v ->
             (~ In row (map record v)
              /\ view s' = Some v
              /\ triggered s' = triggered s ++ [treetoggled (id row) 0 true])
             \/ exists pre n post sub,
                  v = pre ++ n :: post
                  /\ record n = row
                  /\ map (fun n => (record n, level n)) sub
                     = expected_view (expandedById s') (level n + 1) (children row)
                  /\ view s' = Some (pre ++ n :: sub ++ post)
                  /\ triggered s'
                     = triggered s
                       ++ [rowsadded (Z.of_nat (length pre) + 1)
                             (Z.of_nat (length pre) + 1 + Z.of_nat (length sub));
                           treetoggled (id row) (Z.of_nat (length pre) + 1) true]).
Proof.
  intros Huniq Hc Hrow.
  pose proof Hc as (Hts & v & Hview & Hv & Hnd & Hin & Hlook).
  unfold expand.
  destruct (isExpanded (expandedById s) row) eqn:Hexp; cbn [negb].
  { exists s. split; [reflexivity|]. split; [exact Hc|].
    split; [reflexivity | discriminate]. }
  cbn [view set_expandedById]. rewrite Hview.
  change (findNodeForRowId (set_expandedById ((id row, true) :: expandedById s) s) (id row))
    with (findNodeForRowId s (id row)).
  assert (Hexp' : isExpanded ((id row, true) :: expandedById s) row = true)
    by (rewrite isExpanded_cons, Z.eqb_refl; reflexivity).
  destruct (find_shown roots s row Huniq Hc Hrow v Hview)
    as [(Hidx & Hhidden) | (pre & n & post & Hsplit & Hfind & Hrec & Hidx)];
    rewrite Hidx.
  - (* the record is not shown *)
    change (-1 + 1) with 0. change (0 <? 0) with false. cbn [bind].
    eexists. split; [reflexivity|].
    split.
    { apply (consistent_toggled_hidden roots s (id row) true Hc Hhidden). }
    split; [discriminate|]. intros _. split; [exact Hexp'|].
    intros v0 Hv0. inversion Hv0; subst v0. left.
    split; [|split; [exact Hview | reflexivity]].
    intros Hr. apply Hhidden. rewrite <- Hv, map_map. simpl.
    apply in_map_iff in Hr. destruct Hr as (m & Hm & Hmin).
    apply in_map_iff. exists m. split; [rewrite Hm; reflexivity | exact Hmin].
  - (* the record is shown *)
    replace (0 <? Z.of_nat (length pre) + 1) with true by (symmetry; apply Z.ltb_lt; lia).
    rewrite Hfind. rewrite flattenTree_spec.
    cbn [expandedById nextObj set_expandedById treesource nodesById view triggered].
    set (E' := (id row, true) :: expandedById s).
    set (sub := numbered (nextObj s) (expected_view E' (level n + 1) (children row))).
    rewrite js_slice_prefix, js_slice_from_suffix by lia.
    replace (Z.to_nat (Z.of_nat (length pre) + 1)) with (length pre + 1)%nat by lia.
    rewrite Hsplit.
    destruct (firstn_skipn_middle pre n post) as (F1 & F2). rewrite F1, F2.
    cbn [bind]. eexists. split; [reflexivity|].
    assert (Hdecomp : expected_view (expandedById s) 0 roots
                      = map (fun n => (record n, level n)) pre
                        ++ (row, level n) :: map (fun n => (record n, level n)) post).
    { rewrite <- Hv, Hsplit, map_app. simpl. rewrite Hrec. reflexivity. }
    assert (Hnew : map (fun n => (record n, level n)) ((pre ++ [n]) ++ sub ++ post)
                   = expected_view E' 0 roots).
    { unfold E'. rewrite (expand_forest _ _ _ _ _ _ _ Huniq Hexp Hdecomp).
      rewrite !map_app. unfold sub. rewrite numbered_records. simpl.
      rewrite Hrec, <- app_assoc. reflexivity. }
    assert (Hids : NoDup (map (fun n => id (record n)) ((pre ++ [n]) ++ sub ++ post))).
    { pose proof (shown_once_forest E' roots 0 Huniq) as H.
      rewrite <- Hnew, map_map in H. exact H. }
    assert (Hold : forall m, In m (pre ++ [n]) \/ In m post -> In m v).
    { intros m Hm. rewrite Hsplit.
      destruct Hm as [Hm|Hm]; [apply in_app_or in Hm; destruct Hm as [Hm|[<-|[]]]|];
        apply in_or_app; [left | right; left | right; right]; auto. }
    assert (Hsub : forall m, In m sub -> (nextObj s <= obj m)%nat
                   /\ (obj m < nextObj s + length (expected_view E' (level n + 1)
                                                      (children row)))%nat).
    { intros m Hm. apply numbered_In in Hm. destruct Hm as (Hm & _). lia. }
    split.
    { split; [exact Hts|]. eexists. cbn.
      split; [reflexivity|]. split; [exact Hnew|]. split; [|split].
      - (* one object each *)
        rewrite !map_app. rewrite Hsplit, map_app in Hnd. simpl in Hnd.
        apply NoDup_app_parts in Hnd. destruct Hnd as (N1 & N2 & D).
        apply NoDup_cons_iff in N2. destruct N2 as (Hn2 & Hpost).
        assert (Hfresh : forall o, In o (map obj sub) ->
                  ~ In o (map obj pre) /\ o <> obj n /\ ~ In o (map obj post)).
        { intros o Ho. apply in_map_iff in Ho. destruct Ho as (m & <- & Hm).
          apply Hsub in Hm.
          assert (Hlt : forall m', In m' v -> (obj m' < nextObj s)%nat)
            by (intros m' Hm'; apply Hin; exact Hm').
          repeat split.
          - intros H. apply in_map_iff in H. destruct H as (m' & Ho & Hm').
            assert (In m' v) by (apply Hold; left; apply in_or_app; left; exact Hm').
            specialize (Hlt m' ltac:(assumption)). lia.
          - intros H.
            assert (In n v)
              by (apply Hold; left; apply in_or_app; right; left; reflexivity).
            specialize (Hlt n ltac:(assumption)). lia.
          - intros H. apply in_map_iff in H. destruct H as (m' & Ho & Hm').
            assert (In m' v) by (apply Hold; right; exact Hm').
            specialize (Hlt m' ltac:(assumption)). lia. }
        apply NoDup_app.
        + apply NoDup_app; [exact N1 | repeat constructor; intros [] |].
          intros o Ho [Hn'|[]]. apply (D o Ho). left. exact Hn'.
        + apply NoDup_app; [unfold sub; rewrite numbered_objs; apply seq_NoDup | exact Hpost |].
          intros o Ho Hp. apply (Hfresh o Ho). exact Hp.
        + intros o Ho Hso. apply in_app_or in Hso. apply in_app_or in Ho.
          destruct Hso as [Hso|Hso].
          * destruct (Hfresh o Hso) as (F3 & F4 & _).
            destruct Ho as [Ho|[Ho|[]]]; [apply F3; exact Ho | apply F4; symmetry; exact Ho].
          * destruct Ho as [Ho|[Ho|[]]]; [apply (D o Ho); right; exact Hso|].
            apply Hn2. rewrite Ho. exact Hso.
      - (* the index of nodes leads to the nodes of the view *)
        intros m Hm. unfold findNodeForRowId. cbn [nodesById nextObj].
        apply in_app_or in Hm. destruct Hm as [Hm|Hm];
          [|apply in_app_or in Hm; destruct Hm as [Hm|Hm]].
        + destruct (Hin m (Hold m (or_introl Hm))) as (H1 & H2).
          split; [lia|]. rewrite lookup_registered_other; [exact H2|].
          intros Hi. rewrite !map_app in Hids. apply NoDup_app_parts in Hids.
          destruct Hids as (_ & _ & D). apply (D (id (record m))).
          * rewrite <- map_app. apply (in_map (fun n => id (record n))). exact Hm.
          * apply in_or_app. left. exact Hi.
        + split; [apply Hsub; exact Hm|].
          apply lookup_registered_new; [|exact Hm].
          rewrite !map_app in Hids. apply NoDup_app_parts in Hids.
          destruct Hids as (_ & N & _). apply NoDup_app_parts in N. apply N.
        + destruct (Hin m (Hold m (or_intror Hm))) as (H1 & H2).
          split; [lia|]. rewrite lookup_registered_other; [exact H2|].
          intros Hi. rewrite !map_app in Hids. apply NoDup_app_parts in Hids.
          destruct Hids as (_ & N & _). apply NoDup_app_parts in N.
          destruct N as (_ & _ & D). apply (D (id (record m)) Hi).
          apply (in_map (fun n => id (record n))). exact Hm.
      - (* and to nothing else *)
        intros i nd Hl. unfold findNodeForRowId in Hl. cbn [nodesById nextObj] in *.
        apply lookup_registered_found in Hl. destruct Hl as [(Hnd' & Hid) | Hl].
        + split; [apply Hsub; exact Hnd'|]. split; [exact Hid|].
          intros m Hm Hobj.
          apply in_app_or in Hm. destruct Hm as [Hm|Hm];
            [|apply in_app_or in Hm; destruct Hm as [Hm|Hm]].
          * destruct (Hin m (Hold m (or_introl Hm))) as (H1 & _).
            apply Hsub in Hnd'. lia.
          * apply (NoDup_map_same obj sub); try assumption.
            unfold sub. rewrite numbered_objs. apply seq_NoDup.
          * destruct (Hin m (Hold m (or_intror Hm))) as (H1 & _).
            apply Hsub in Hnd'. lia.
        + destruct (Hlook i nd Hl) as (H1 & H2 & H3).
          split; [lia|]. split; [exact H2|].
          intros m Hm Hobj.
          apply in_app_or in Hm. destruct Hm as [Hm|Hm];
            [|apply in_app_or in Hm; destruct Hm as [Hm|Hm]].
          * apply H3; [apply Hold; left; exact Hm | exact Hobj].
          * apply Hsub in Hm. lia.
          * apply H3; [apply Hold; right; exact Hm | exact Hobj]. }
    split; [discriminate|]. intros _. cbn [expandedById trigger set_view].
    split; [exact Hexp'|].
    intros v0 Hv0. inversion Hv0; subst v0. right.
    exists pre, n, post, sub.
    split; [reflexivity|]. split; [exact Hrec|].
    split; [unfold sub; apply numbered_records|].
    split; [cbn; rewrite <- app_assoc; reflexivity|].
    cbn. rewrite <- app_assoc. reflexivity.
Qed.

(** *** [collapse] *)

Lemma NoDup_without_middle {A : Type} (l1 l2 l3 : list A) :
  NoDup (l1 ++ l2 ++ l3) -> NoDup (l1 ++ l3).
Proof.
  intros H. apply NoDup_app_parts in H. destruct H as (N1 & N23 & D).
  apply NoDup_app_parts in N23. destruct N23 as (_ & N3 & _).
  apply NoDup_app; [exact N1 | exact N3 |].
  intros x H1 H3. apply (D x H1). apply in_or_app. right. exact H3.
Qed.

(** [collapse] on a consistent data source. *)
Lemma collapse_step roots s row :
  NoDup (map id (flat_map nodes_of roots)) ->
  consistent roots s ->
  In row (flat_map nodes_of roots) ->
  exists s',
    collapse row s = OK s'
    /\ consistent roots s'
    /\ (isExpanded (expandedById s) row = false -> s' = s)
    /\ (isExpanded (expandedById s) row = true ->
        isExpanded (expandedById s') row = false
        /\ forall v, view s = Some v ->
             (~ In row (map record v)
              /\ view s' = Some v
              /\ triggered s' = triggered s ++ [treetoggled (id row) 0 false])
             \/ exists pre n sub post,
                  v = pre ++ n :: sub ++ post
                  /\ record n = row
                  /\ map (fun n => (record n, level n)) sub
                     = expected_view (expandedById s) (level n + 1) (children row)
                  /\ view s' = Some (pre ++ n :: post)
                  /\ triggered s'
                     = triggered s
                       ++ [rowsremoved (Z.of_nat (length pre) + 1)
                             (Z.of_nat (length pre) + 1 + Z.of_nat (length sub));
                           treetoggled (id row) (Z.of_nat (length pre) + 1) false]).
Proof.
  intros Huniq Hc Hrow.
  pose proof Hc as (Hts & v & Hview & Hv & Hnd & Hin & Hlook).
  unfold collapse.
  destruct (isExpanded (expandedById s) row) eqn:Hexp.
  2:{ exists s. split; [reflexivity|]. split; [exact Hc|].
      split; [reflexivity | discriminate]. }
  cbn [view set_expandedById]. rewrite Hview.
  change (findNodeForRowId (set_expandedById ((id row, false) :: expandedById s) s) (id row))
    with (findNodeForRowId s (id row)).
  assert (Hexp' : isExpanded ((id row, false) :: expandedById s) row = false)
    by (rewrite isExpanded_cons, Z.eqb_refl; reflexivity).
  destruct (find_shown roots s row Huniq Hc Hrow v Hview)
    as [(Hidx & Hhidden) | (pre & n & rest & Hsplit & Hfind & Hrec & Hidx)];
    rewrite Hidx.
  - (* the record is not shown *)
    change (-1 + 1) with 0. change (0 <? 0) with false. cbn [bind].
    eexists. split; [reflexivity|].
    split.
    { apply (consistent_toggled_hidden roots s (id row) false Hc Hhidden). }
    split; [discriminate|]. intros _. split; [exact Hexp'|].
    intros v0 Hv0. inversion Hv0; subst v0. left.
    split; [|split; [exact Hview | reflexivity]].
    intros Hr. apply Hhidden. rewrite <- Hv, map_map. simpl.
    apply in_map_iff in Hr. destruct Hr as (m & Hm & Hmin).
    apply in_map_iff. exists m. split; [rewrite Hm; reflexivity | exact Hmin].
  - (* the record is shown *)
    replace (0 <? Z.of_nat (length pre) + 1) with true by (symmetry; apply Z.ltb_lt; lia).
    rewrite Hfind.
    assert (Hdecomp : expected_view (expandedById s) 0 roots
                      = map (fun n => (record n, level n)) pre
                        ++ (row, level n) :: map (fun n => (record n, level n)) rest).
    { rewrite <- Hv, Hsplit, map_app. simpl. rewrite Hrec. reflexivity. }
    destruct (collapse_forest _ _ _ _ _ _ _ Huniq Hexp Hdecomp)
      as (post_p & Hrest & Hnew & Hhead & _).
    apply map_eq_app in Hrest. destruct Hrest as (sub & post & Hrest & Hsub & Hpost).
    subst rest.
    assert (Hdeep : deeper (level n) (sub ++ post) = length sub).
    { apply deeper_run.
      - intros m Hm.
        assert (H : In (record m, level m)
                       (expected_view (expandedById s) (level n + 1) (children row)))
          by (rewrite <- Hsub; apply (in_map (fun n => (record n, level n))); exact Hm).
        apply shown_forest in H. simpl in H. lia.
      - intros p post' Hp. subst post. simpl in Hpost.
        apply (Hhead (record p, level p) (map (fun n => (record n, level n)) post')).
        symmetry. exact Hpost. }
    destruct (firstn_skipn_middle pre n (sub ++ post)) as (F1 & F2).
    rewrite js_slice_from_suffix by lia.
    replace (Z.to_nat (Z.of_nat (length pre) + 1)) with (length pre + 1)%nat by lia.
    rewrite Hsplit, F2, Hdeep.
    replace (Z.of_nat (length pre) + 1 + Z.of_nat (length sub) - (Z.of_nat (length pre) + 1))
      with (Z.of_nat (length sub)) by lia.
    rewrite js_splice_inside
      by (rewrite ?length_app; simpl; rewrite ?length_app; lia).
    replace (Z.to_nat (Z.of_nat (length pre) + 1)) with (length pre + 1)%nat by lia.
    rewrite Nat2Z.id, F1.
    replace (skipn (length pre + 1 + length sub) (pre ++ n :: sub ++ post)) with post.
    2:{ rewrite (Nat.add_comm (length pre + 1)), <- skipn_skipn, F2, skipn_app, skipn_all, Nat.sub_diag. reflexivity. }
    cbn [bind]. eexists. split; [reflexivity|].
    assert (Hsubv : forall m, In m (pre ++ n :: post) -> In m v).
    { intros m Hm. rewrite Hsplit. apply in_app_or in Hm. apply in_or_app.
      destruct Hm as [Hm|[Hm|Hm]]; [left; exact Hm | right; left; exact Hm|].
      right. right. apply in_or_app. right. exact Hm. }
    split.
    { split; [exact Hts|]. exists (pre ++ n :: post). cbn.
      split; [rewrite <- app_assoc; reflexivity|].
      split; [rewrite Hnew, map_app, <- Hpost; simpl; rewrite Hrec; reflexivity|].
      split; [|split].
      - rewrite Hsplit in Hnd. rewrite map_app in Hnd. cbn [map] in Hnd.
        rewrite map_app in Hnd. rewrite map_app. cbn [map].
        assert (H1 : map obj pre ++ obj n :: map obj post
                     = (map obj pre ++ [obj n]) ++ map obj post)
          by (rewrite <- app_assoc; reflexivity).
        rewrite H1.
        apply (NoDup_without_middle (map obj pre ++ [obj n]) (map obj sub) (map obj post)).
        rewrite <- app_assoc. exact Hnd.
      - intros m Hm. apply Hin. apply Hsubv. exact Hm.
      - intros i nd Hl. destruct (Hlook i nd Hl) as (H1 & H2 & H3).
        split; [exact H1|]. split; [exact H2|].
        intros m Hm. apply H3. apply Hsubv. exact Hm. }
    split; [discriminate|]. intros _. cbn [expandedById trigger set_view].
    split; [exact Hexp'|].
    intros v0 Hv0. inversion Hv0; subst v0. right.
    exists pre, n, sub, post.
    split; [reflexivity|]. split; [exact Hrec|]. split; [exact Hsub|].
    split; [cbn; rewrite <- app_assoc; reflexivity|].
    unfold trigger, set_view, set_expandedById. cbn [triggered].
    rewrite <- app_assoc. reflexivity.
Qed.

End TreeOperations.

Section TreeRuns.
Import SyncTreeGridDataSource.

Lemma Z_distinct_NoDup l : Z_distinct l = true -> NoDup l.
Proof.
  induction l as [|x t IH]; intros H; [constructor|].
  simpl in H. apply andb_true_iff in H. destruct H as (Hx & Ht).
  constructor; [|apply IH; exact Ht].
  intros Hin. apply negb_true_iff in Hx.
  assert (existsb (Z.eqb x) t = true)
    by (apply existsb_exists; exists x; split; [exact Hin | apply Z.eqb_refl]).
  congruence.
Qed.

Lemma getRecordById_among_found i nodes r :
  Forall (fun c => forall r, getRecordById_in i c = Some r -> In r (nodes_of c) /\ id r = i)
    nodes ->
  getRecordById_among i nodes = Some r ->
  In r (flat_map nodes_of nodes) /\ id r = i.
Proof.
  induction 1 as [|c cs Hc Hcs IH]; intros Hr; [discriminate|].
  cbn [getRecordById_among] in Hr. cbn [flat_map].
  destruct (getRecordById_in i c) as [r'|] eqn:E.
  - inversion Hr; subst r'. destruct (Hc r eq_refl) as (H1 & H2).
    split; [apply in_or_app; left; exact H1 | exact H2].
  - destruct (IH Hr) as (H1 & H2).
    split; [apply in_or_app; right; exact H1 | exact H2].
Qed.

Lemma getRecordById_in_unfold i j cs :
  getRecordById_in i (TreeNode j cs)
  = if j =? i then Some (TreeNode j cs) else getRecordById_among i cs.
Proof.
  simpl. destruct (j =? i); [reflexivity|].
  induction cs as [|c cs IH]; [reflexivity|].
  simpl. destruct (getRecordById_in i c); [reflexivity | exact IH].
Qed.

Lemma getRecordById_in_found i t : forall r,
  getRecordById_in i t = Some r -> In r (nodes_of t) /\ id r = i.
Proof.
  induction t as [j cs IH] using TreeRecord_induction. intros r Hr.
  rewrite nodes_of_unfold. cbn [children].
  rewrite getRecordById_in_unfold in Hr.
  destruct (j =? i) eqn:E.
  - inversion Hr; subst r. apply Z.eqb_eq in E. split; [left; reflexivity | exact E].
  - destruct (getRecordById_among_found i cs r IH Hr) as (H1 & H2).
    split; [right; exact H1 | exact H2].
Qed.

Lemma getRecordById_found i roots r :
  getRecordById_among i roots = Some r ->
  In r (flat_map nodes_of roots) /\ id r = i.
Proof.
  apply getRecordById_among_found. apply Forall_forall. intros c _ r'.
  apply getRecordById_in_found.
Qed.

(** The view depends on the expansion state of the records only. *)
Lemma flat_same_state E E' :
  (forall x, isExpanded E x = isExpanded E' x) ->
  forall t lvl, flat E lvl t = flat E' lvl t.
Proof.
  intros Hext t. induction t as [j cs IH] using TreeRecord_induction. intros lvl.
  rewrite !flat_unfold, <- Hext. cbn [children].
  destruct (isExpanded E (TreeNode j cs)); [|reflexivity]. f_equal.
  unfold expected_view. induction IH as [|c cs' Hc _ IHcs]; [reflexivity|].
  cbn [flat_map]. rewrite Hc, IHcs. reflexivity.
Qed.

Lemma expected_view_same_state E E' lvl nodes :
  (forall x, isExpanded E x = isExpanded E' x) ->
  expected_view E lvl nodes = expected_view E' lvl nodes.
Proof.
  intros Hext. unfold expected_view. induction nodes as [|c cs IH]; [reflexivity|].
  cbn [flat_map]. rewrite IH, (flat_same_state E E' Hext). reflexivity.
Qed.

(** The constructor leaves a consistent data source. *)
Lemma load_consistent roots :
  NoDup (map id (flat_map nodes_of roots)) ->
  consistent roots (SyncTreeGridDataSource roots).
Proof.
  intros Huniq. unfold SyncTreeGridDataSource, load.
  cbn [treesource expandedById view nextObj triggered].
  rewrite flattenTree_spec.
  cbn [treesource expandedById view nextObj triggered nodesById].
  set (v := numbered 0 (expected_view [] 0 roots)).
  assert (Hids : NoDup (map (fun n => id (record n)) v))
    by (unfold v; rewrite numbered_ids; apply shown_once_forest; exact Huniq).
  assert (Hobj : NoDup (map obj v))
    by (unfold v; rewrite numbered_objs; apply seq_NoDup).
  split; [reflexivity|]. exists v. cbn.
  split; [reflexivity|].
  split; [unfold v; apply numbered_records|].
  split; [exact Hobj|].
  split.
  - intros n Hn. split.
    + apply numbered_In in Hn. lia.
    + unfold findNodeForRowId. cbn. apply lookup_registered_new; assumption.
  - intros i n Hl. unfold findNodeForRowId in Hl. cbn in Hl.
    apply lookup_registered_found in Hl. destruct Hl as [(Hn & Hi)|Hl]; [|discriminate].
    split; [apply numbered_In in Hn; lia|]. split; [exact Hi|].
    intros m Hm Ho. apply (NoDup_map_same obj v m n Hobj Hm Hn Ho).
Qed.

Lemma toggle_step roots s rowId :
  NoDup (map id (flat_map nodes_of roots)) ->
  consistent roots s ->
  getRecordById_among rowId roots <> None ->
  exists row s',
    getRecordById_among rowId roots = Some row
    /\ In row (flat_map nodes_of roots)
    /\ id row = rowId
    /\ toggle rowId s = OK s'
    /\ consistent roots s'
    /\ isExpanded (expandedById s') row = negb (isExpanded (expandedById s) row)
    /\ (forall x, id x <> rowId ->
          isExpanded (expandedById s') x = isExpanded (expandedById s) x).
Proof.
  intros Huniq Hc Hsome.
  destruct (getRecordById_among rowId roots) as [row|] eqn:Hrow; [|congruence].
  destruct (getRecordById_found _ _ _ Hrow) as (Hin & Hid).
  exists row. unfold toggle, getRecordById.
  replace (treesource s) with roots by (symmetry; apply Hc). rewrite Hrow.
  destruct (isExpanded (expandedById s) row) eqn:Hexp.
  - destruct (collapse_step roots s row Huniq Hc Hin) as (s' & Hrun & Hc' & _ & Hyes).
    destruct (Hyes Hexp) as (Hexp' & _).
    exists s'. repeat (split; [first [reflexivity | assumption]|]).
    intros x Hx. unfold collapse in Hrun. rewrite Hexp in Hrun.
    destruct (view (set_expandedById ((id row, false) :: expandedById s) s)) as [v|];
      [|discriminate].
    cbv zeta in Hrun.
    assert (Hstate : expandedById s' = (id row, false) :: expandedById s).
    { destruct (0 <? _) in Hrun.
      - destruct (findNodeForRowId _ _) in Hrun; [|discriminate].
        cbn [bind] in Hrun. inversion Hrun. reflexivity.
      - cbn [bind] in Hrun. inversion Hrun. reflexivity. }
    rewrite Hstate, isExpanded_cons.
    replace (id row =? id x) with false by (symmetry; apply Z.eqb_neq; congruence).
    reflexivity.
  - destruct (expand_step roots s row Huniq Hc Hin) as (s' & Hrun & Hc' & _ & Hno).
    destruct (Hno Hexp) as (Hexp' & _).
    exists s'. repeat (split; [first [reflexivity | assumption]|]).
    intros x Hx. unfold expand in Hrun. rewrite Hexp in Hrun. cbn [negb] in Hrun.
    destruct (view (set_expandedById ((id row, true) :: expandedById s) s)) as [v|];
      [|discriminate].
    cbv zeta in Hrun.
    assert (Hstate : expandedById s' = (id row, true) :: expandedById s).
    { destruct (0 <? _) in Hrun.
      - destruct (findNodeForRowId _ _) in Hrun; [|discriminate].
        rewrite flattenTree_spec in Hrun.
        cbn [bind] in Hrun. inversion Hrun. reflexivity.
      - cbn [bind] in Hrun. inversion Hrun. reflexivity. }
    rewrite Hstate, isExpanded_cons.
    replace (id row =? id x) with false by (symmetry; apply Z.eqb_neq; congruence).
    reflexivity.
Qed.

Lemma execute_step roots s c :
  NoDup (map id (flat_map nodes_of roots)) ->
  consistent roots s ->
  names_record roots c ->
  exists s', execute c s = OK s' /\ consistent roots s'.
Proof.
  intros Huniq Hc Hn. destruct c as [row|row|rowId]; cbn [execute names_record] in *.
  - destruct (expand_step roots s row Huniq Hc Hn) as (s' & H1 & H2 & _).
    exists s'. split; assumption.
  - destruct (collapse_step roots s row Huniq Hc Hn) as (s' & H1 & H2 & _).
    exists s'. split; assumption.
  - destruct (toggle_step roots s rowId Huniq Hc Hn) as (row & s' & _ & _ & _ & H1 & H2 & _).
    exists s'. split; assumption.
Qed.

Lemma execute_all_steps roots cmds : forall s,
  NoDup (map id (flat_map nodes_of roots)) ->
  consistent roots s ->
  Forall (names_record roots) cmds ->
  exists s', execute_all cmds s = OK s' /\ consistent roots s'.
Proof.
  induction cmds as [|c cs IH]; intros s Huniq Hc Hn.
  - exists s. split; [reflexivity | exact Hc].
  - inversion Hn as [|? ? Hc0 Hcs]; subst.
    destruct (execute_step roots s c Huniq Hc Hc0) as (s1 & H1 & Hc1).
    destruct (IH s1 Huniq Hc1 Hcs) as (s' & H2 & Hc').
    exists s'. cbn [execute_all]. rewrite H1. cbn [bind]. split; assumption.
Qed.

(** The states a grid can bring the data source of a tree into. *)
Lemma reachable_consistent roots cmds s :
  unique_ids roots = true ->
  Forall (names_record roots) cmds ->
  execute_all cmds (SyncTreeGridDataSource roots) = OK s ->
  NoDup (map id (flat_map nodes_of roots)) /\ consistent roots s.
Proof.
  intros Hu Hn Hrun. apply Z_distinct_NoDup in Hu. split; [exact Hu|].
  destruct (execute_all_steps roots cmds _ Hu (load_consistent roots Hu) Hn)
    as (s' & Hrun' & Hc).
  rewrite Hrun in Hrun'. inversion Hrun'. exact Hc.
Qed.

End TreeRuns.

Section TreeGridDataSource.
Import SyncTreeGridDataSource.

Lemma isExpanded_same_id E x y : id x = id y -> isExpanded E x = isExpanded E y.
Proof. intros H. unfold isExpanded. rewrite H. reflexivity. Qed.

Lemma map_record_levels (v : list ViewNode) (l : list (TreeRecord * Z)) :
  map (fun n => (record n, level n)) v = l -> map record v = map fst l.
Proof. intros <-. rewrite map_map. reflexivity. Qed.

(** X12. After any run of [expand], [collapse] and [toggle] calls on records of
    a tree without duplicate ids, every call has returned and the view that
    the calls have spliced together is the list [flattenTree] computes
    afresh from the root nodes: the records of the tree in document order,
    the children of a record if and only if it is expanded, each at its
    depth. [getData()] returns these records, [recordCount()] their number
    and [getTreeLevel] the depth of each of them. *)
Theorem view_is_the_flattened_tree roots cmds :
  unique_ids roots = true ->
  Forall (names_record roots) cmds ->
  exists s v,
    execute_all cmds (SyncTreeGridDataSource roots) = OK s
    /\ view s = Some v
    /\ map (fun n => (record n, level n)) v = expected_view (expandedById s) 0 roots
    /\ map (fun n => (record n, level n)) v
       = map (fun n => (record n, level n)) (fst (flattenTree roots 0 s))
    /\ getData s None None = OK (map fst (expected_view (expandedById s) 0 roots))
    /\ recordCount s = OK (Z.of_nat (length (expected_view (expandedById s) 0 roots)))
    /\ forall n, In n v -> getTreeLevel s (record n) = OK (level n).
Proof.
  intros Hu Hn. apply Z_distinct_NoDup in Hu.
  destruct (execute_all_steps roots cmds _ Hu (load_consistent roots Hu) Hn)
    as (s & Hrun & Hc).
  destruct Hc as (Hts & v & Hview & Hv & Hnd & Hin & Hlook).
  exists s, v. split; [exact Hrun|]. split; [exact Hview|]. split; [exact Hv|].
  split; [rewrite flattenTree_spec; cbn [fst]; rewrite numbered_records; exact Hv|].
  split.
  { unfold getData. rewrite Hview. rewrite js_slice_from_suffix by lia.
    cbn [Z.to_nat skipn]. f_equal. apply map_record_levels. exact Hv. }
  split.
  { unfold recordCount. rewrite Hview, <- Hv, length_map. reflexivity. }
  intros n Hn'. unfold getTreeLevel. destruct (Hin n Hn') as (_ & Hfind).
  rewrite Hfind. reflexivity.
Qed.

(** The run of calls of the scenario on the tree of the filtering tests. *)
Lemma view_is_the_flattened_tree_witness :
  exists s v,
    execute_all TreeScenario.calls (SyncTreeGridDataSource TreeScenario.tree) = OK s
    /\ view s = Some v
    /\ getData s None None
       = OK (map fst (expected_view (expandedById s) 0 TreeScenario.tree)).
Proof.
  destruct (view_is_the_flattened_tree TreeScenario.tree TreeScenario.calls
              ltac:(reflexivity)
              ltac:(unfold TreeScenario.calls;
                    repeat (apply Forall_cons;
                            [first [cbn; solve [repeat (first [left; reflexivity | right])]
                                      | vm_compute; discriminate]|]);
                    apply Forall_nil))
    as (s & v & H1 & H2 & _ & _ & H3 & _).
  exists s, v. split; [exact H1|]. split; [exact H2 | exact H3].
Defined.

(** X13. [expand(row)] of a collapsed record of the tree: if the record is
    shown, the rows of its subtree (its children, and the descendants of
    those that are expanded) are inserted right behind it, the rows before
    and behind stay as they are, and [rowsadded] announces exactly the
    range of the new rows, before [treetoggled]; if the record is hidden
    under a collapsed ancestor, the rows stay as they are and only
    [treetoggled], with index 0, is announced. *)
Theorem expand_inserts_the_subtree roots cmds s row :
  unique_ids roots = true ->
  Forall (names_record roots) cmds ->
  execute_all cmds (SyncTreeGridDataSource roots) = OK s ->
  In row (flat_map nodes_of roots) ->
  isExpanded (expandedById s) row = false ->
  exists s' v,
    expand row s = OK s'
    /\ view s = Some v
    /\ isExpanded (expandedById s') row = true
    /\ ((~ In row (map record v)
         /\ view s' = Some v
         /\ triggered s' = triggered s ++ [treetoggled (id row) 0 true])
        \/ exists pre n post sub,
             v = pre ++ n :: post
             /\ record n = row
             /\ map (fun n => (record n, level n)) sub
                = expected_view (expandedById s') (level n + 1) (children row)
             /\ view s' = Some (pre ++ n :: sub ++ post)
             /\ triggered s'
                = triggered s
                  ++ [rowsadded (Z.of_nat (length pre) + 1)
                        (Z.of_nat (length pre) + 1 + Z.of_nat (length sub));
                      treetoggled (id row) (Z.of_nat (length pre) + 1) true]).
Proof.
  intros Hu Hn Hrun Hrow Hexp.
  destruct (reachable_consistent roots cmds s Hu Hn Hrun) as (Huniq & Hc).
  destruct (expand_step roots s row Huniq Hc Hrow) as (s' & Hs' & _ & _ & Hno).
  destruct (Hno Hexp) as (Hexp' & Hviews).
  pose proof Hc as (_ & v & Hview & _).
  exists s', v. split; [exact Hs'|]. split; [exact Hview|]. split; [exact Hexp'|].
  exact (Hviews v Hview).
Qed.

(** [expand] of the first root, collapsed after the calls of the scenario. *)
Lemma expand_inserts_the_subtree_witness :
  exists s s',
    execute_all TreeScenario.calls (SyncTreeGridDataSource TreeScenario.tree) = OK s
    /\ isExpanded (expandedById s) TreeScenario.cruft = false
    /\ expand TreeScenario.cruft s = OK s'
    /\ isExpanded (expandedById s') TreeScenario.cruft = true.
Proof.
  eexists.
  match goal with
  | |- exists s', ?run = OK ?s /\ _ =>
      assert (E : run = OK s) by (vm_compute; reflexivity)
  end.
  match type of E with
  | _ = OK ?s =>
      destruct (expand_inserts_the_subtree TreeScenario.tree TreeScenario.calls s
                  TreeScenario.cruft
                  ltac:(reflexivity)
                  ltac:(unfold TreeScenario.calls;
                        repeat (apply Forall_cons;
                                [first [cbn; solve [repeat (first [left; reflexivity | right])]
                                      | vm_compute; discriminate]|]);
                        apply Forall_nil)
                  E ltac:(cbn; repeat (first [left; reflexivity | right]))
                  ltac:(reflexivity))
        as (s' & v & H1 & _ & H3 & _)
  end.
  exists s'. split; [exact E|]. split; [reflexivity|]. split; [exact H1 | exact H3].
Defined.

(** X14. [collapse(row)] of an expanded record of the tree: if the record is
    shown, exactly the rows of its subtree, which follow it in the view,
    are removed, the rows before and behind stay as they are, and
    [rowsremoved] announces exactly the range of the removed rows, before
    [treetoggled]; if the record is hidden, the rows stay as they are and
    only [treetoggled], with index 0, is announced. *)
Theorem collapse_removes_the_subtree roots cmds s row :
  unique_ids roots = true ->
  Forall (names_record roots) cmds ->
  execute_all cmds (SyncTreeGridDataSource roots) = OK s ->
  In row (flat_map nodes_of roots) ->
  isExpanded (expandedById s) row = true ->
  exists s' v,
    collapse row s = OK s'
    /\ view s = Some v
    /\ isExpanded (expandedById s') row = false
    /\ ((~ In row (map record v)
         /\ view s' = Some v
         /\ triggered s' = triggered s ++ [treetoggled (id row) 0 false])
        \/ exists pre n sub post,
             v = pre ++ n :: sub ++ post
             /\ record n = row
             /\ map (fun n => (record n, level n)) sub
                = expected_view (expandedById s) (level n + 1) (children row)
             /\ view s' = Some (pre ++ n :: post)
             /\ triggered s'
                = triggered s
                  ++ [rowsremoved (Z.of_nat (length pre) + 1)
                        (Z.of_nat (length pre) + 1 + Z.of_nat (length sub));
                      treetoggled (id row) (Z.of_nat (length pre) + 1) false]).
Proof.
  intros Hu Hn Hrun Hrow Hexp.
  destruct (reachable_consistent roots cmds s Hu Hn Hrun) as (Huniq & Hc).
  destruct (collapse_step roots s row Huniq Hc Hrow) as (s' & Hs' & _ & _ & Hyes).
  destruct (Hyes Hexp) as (Hexp' & Hviews).
  pose proof Hc as (_ & v & Hview & _).
  exists s', v. split; [exact Hs'|]. split; [exact Hview|]. split; [exact Hexp'|].
  exact (Hviews v Hview).
Qed.

(** [collapse] of the second root, expanded after the calls of the
    scenario. *)
Lemma collapse_removes_the_subtree_witness :
  exists s s',
    execute_all TreeScenario.calls (SyncTreeGridDataSource TreeScenario.tree) = OK s
    /\ isExpanded (expandedById s) TreeScenario.nettles = true
    /\ collapse TreeScenario.nettles s = OK s'
    /\ isExpanded (expandedById s') TreeScenario.nettles = false.
Proof.
  eexists.
  match goal with
  | |- exists s', ?run = OK ?s /\ _ =>
      assert (E : run = OK s) by (vm_compute; reflexivity)
  end.
  match type of E with
  | _ = OK ?s =>
      destruct (collapse_removes_the_subtree TreeScenario.tree TreeScenario.calls s
                  TreeScenario.nettles
                  ltac:(reflexivity)
                  ltac:(unfold TreeScenario.calls;
                        repeat (apply Forall_cons;
                                [first [cbn; solve [repeat (first [left; reflexivity | right])]
                                      | vm_compute; discriminate]|]);
                        apply Forall_nil)
                  E ltac:(cbn; repeat (first [left; reflexivity | right]))
                  ltac:(reflexivity))
        as (s' & v & H1 & _ & H3 & _)
  end.
  exists s'. split; [exact E|]. split; [reflexivity|]. split; [exact H1 | exact H3].
Defined.

(** X15. [toggle(rowId)] called twice on a record of the tree returns both
    times, flips the expansion state of the record and flips it back, and
    leaves the view with the records and levels it had, whether the record
    is shown or hidden. *)
Theorem toggle_twice_restores_the_rows roots cmds s rowId :
  unique_ids roots = true ->
  Forall (names_record roots) cmds ->
  execute_all cmds (SyncTreeGridDataSource roots) = OK s ->
  getRecordById s rowId <> None ->
  exists row s1 s2 v v2,
    getRecordById s rowId = Some row
    /\ toggle rowId s = OK s1
    /\ toggle rowId s1 = OK s2
    /\ isExpanded (expandedById s1) row = negb (isExpanded (expandedById s) row)
    /\ (forall x, isExpanded (expandedById s2) x = isExpanded (expandedById s) x)
    /\ view s = Some v
    /\ view s2 = Some v2
    /\ map (fun n => (record n, level n)) v2 = map (fun n => (record n, level n)) v
    /\ getData s2 None None = getData s None None.
Proof.
  intros Hu Hn Hrun Hsome.
  destruct (reachable_consistent roots cmds s Hu Hn Hrun) as (Huniq & Hc).
  unfold getRecordById in *.
  replace (treesource s) with roots in * by (symmetry; apply Hc).
  destruct (toggle_step roots s rowId Huniq Hc Hsome)
    as (row & s1 & Hrow & Hin & Hid & Hs1 & Hc1 & Hflip1 & Hkeep1).
  destruct (toggle_step roots s1 rowId Huniq Hc1 Hsome)
    as (row' & s2 & Hrow' & _ & _ & Hs2 & Hc2 & Hflip2 & Hkeep2).
  rewrite Hrow in Hrow'. inversion Hrow'; subst row'. clear Hrow'.
  assert (Hsame : forall x, isExpanded (expandedById s2) x = isExpanded (expandedById s) x).
  { intros x. destruct (Z.eq_dec (id x) rowId) as [Hx|Hx].
    - rewrite (isExpanded_same_id _ x row), (isExpanded_same_id (expandedById s) x row)
        by congruence.
      rewrite Hflip2, Hflip1. apply negb_involutive.
    - rewrite Hkeep2, Hkeep1 by exact Hx. reflexivity. }
  destruct Hc as (_ & v & Hview & Hv & _).
  destruct Hc2 as (_ & v2 & Hview2 & Hv2 & _).
  assert (Hrows : map (fun n => (record n, level n)) v2
                  = map (fun n => (record n, level n)) v).
  { rewrite Hv2, Hv. apply expected_view_same_state. exact Hsame. }
  exists row, s1, s2, v, v2.
  repeat (split; [first [assumption | reflexivity]|]).
  unfold getData. rewrite Hview, Hview2, !js_slice_from_suffix by lia.
  cbn [Z.to_nat skipn]. f_equal.
  rewrite (map_record_levels v2 _ Hrows), (map_record_levels v _ eq_refl). reflexivity.
Qed.

(** [toggle] of the second root, twice, after the calls of the scenario. *)
Lemma toggle_twice_restores_the_rows_witness :
  exists s s1 s2,
    execute_all TreeScenario.calls (SyncTreeGridDataSource TreeScenario.tree) = OK s
    /\ toggle 4 s = OK s1
    /\ toggle 4 s1 = OK s2
    /\ getData s2 None None = getData s None None.
Proof.
  eexists.
  match goal with
  | |- exists s1 s2, ?run = OK ?s /\ _ =>
      assert (E : run = OK s) by (vm_compute; reflexivity)
  end.
  match type of E with
  | _ = OK ?s =>
      destruct (toggle_twice_restores_the_rows TreeScenario.tree TreeScenario.calls s 4
                  ltac:(reflexivity)
                  ltac:(unfold TreeScenario.calls;
                        repeat (apply Forall_cons;
                                [first [cbn; solve [repeat (first [left; reflexivity | right])]
                                      | vm_compute; discriminate]|]);
                        apply Forall_nil)
                  E ltac:(vm_compute; discriminate))
        as (row & s1 & s2 & v & v2 & _ & H1 & H2 & _ & _ & _ & _ & _ & H3)
  end.
  exists s1, s2. split; [exact E|]. split; [exact H1|]. split; [exact H2 | exact H3].
Defined.

End TreeGridDataSource.

Section TreeExpansion.
Import SyncTreeGridDataSource.

Variable roots : list TreeRecord.

Hypothesis unique : NoDup (map id (flat_map nodes_of roots)).

Lemma expand_state row s s' :
  expand row s = OK s' ->
  expandedById s' = expandedById s
  \/ expandedById s' = (id row, true) :: expandedById s.
Proof.
  unfold expand. destruct (isExpanded (expandedById s) row); cbn [negb].
  - intros H. inversion H. left. reflexivity.
  - destruct (view (set_expandedById ((id row, true) :: expandedById s) s)) as [v|];
      [|discriminate].
    cbv zeta. intros H. right.
    destruct (0 <? _) in H.
    + destruct (findNodeForRowId _ _) in H; [|discriminate].
      rewrite flattenTree_spec in H. cbn [bind] in H. inversion H. reflexivity.
    + cbn [bind] in H. inversion H. reflexivity.
Qed.

(** [expand] of a record of the tree. *)
Lemma expand_expands row :
  In row (flat_map nodes_of roots) -> expands roots [row] (expand row).
Proof.
  intros Hrow s Hc.
  destruct (expand_step roots s row unique Hc Hrow) as (s' & Hs' & Hc' & Hyes & Hno).
  exists s'. split; [exact Hs'|]. split; [exact Hc'|].
  pose proof (expand_state row s s' Hs') as Hstate.
  split; [|split].
  - intros x [<-|[]]. destruct (isExpanded (expandedById s) row) eqn:E.
    + rewrite (Hyes eq_refl). exact E.
    + apply (Hno eq_refl).
  - intros x Hx. destruct Hstate as [-> | ->]; [exact Hx|].
    rewrite isExpanded_cons, Hx. destruct (id row =? id x); reflexivity.
  - intros x Hx. destruct Hstate as [E | E]; rewrite E in Hx; [left; exact Hx|].
    rewrite isExpanded_cons in Hx. destruct (id row =? id x) eqn:Eid.
    + right. exists row. split; [left; reflexivity | apply Z.eqb_eq; exact Eid].
    + left. exact Hx.
Qed.

Lemma expands_nothing : expands roots [] (fun s => OK s).
Proof.
  intros s Hc. exists s. split; [reflexivity|]. split; [exact Hc|].
  split; [intros x []|]. split; [intros x Hx; exact Hx | intros x Hx; left; exact Hx].
Qed.

(** One run after another. *)
Lemma expands_then V1 V2 run1 run2 :
  expands roots V1 run1 -> expands roots V2 run2 ->
  expands roots (V1 ++ V2) (fun s => s <- run1 s ;; run2 s).
Proof.
  intros H1 H2 s Hc.
  destruct (H1 s Hc) as (s1 & R1 & C1 & A1 & K1 & O1).
  destruct (H2 s1 C1) as (s2 & R2 & C2 & A2 & K2 & O2).
  exists s2. rewrite R1. cbn [bind]. split; [exact R2|]. split; [exact C2|].
  split; [|split].
  - intros x Hx. apply in_app_or in Hx. destruct Hx as [Hx|Hx].
    + apply K2. apply A1. exact Hx.
    + apply A2. exact Hx.
  - intros x Hx. apply K2. apply K1. exact Hx.
  - intros x Hx. destruct (O2 x Hx) as [Hx1|(v & Hv & Hid)].
    + destruct (O1 x Hx1) as [Hx0|(v & Hv & Hid)]; [left; exact Hx0|].
      right. exists v. split; [apply in_or_app; left; exact Hv | exact Hid].
    + right. exists v. split; [apply in_or_app; right; exact Hv | exact Hid].
Qed.

Lemma expands_same V run run' :
  (forall s, run s = run' s) -> expands roots V run -> expands roots V run'.
Proof.
  intros Hsame H s Hc. destruct (H s Hc) as (s' & R & rest).
  exists s'. rewrite <- Hsame. split; [exact R | exact rest].
Qed.

(** The loop over a list of nodes. *)
Lemma each_expands (f : TreeRecord -> DataSource -> result DataSource)
    (V : TreeRecord -> list TreeRecord) nodes :
  Forall (fun t => expands roots (V t) (f t)) nodes ->
  expands roots (flat_map V nodes) (each f nodes).
Proof.
  induction 1 as [|t ts Ht _ IH]; [exact expands_nothing|].
  cbn [flat_map].
  apply (expands_same _ (fun s => s <- f t s ;; each f ts s)).
  - intros s. cbn [each bind]. destruct (f t s); reflexivity.
  - apply expands_then; assumption.
Qed.

Lemma In_children_nodes t c x :
  In c (children t) -> In x (nodes_of c) -> In x (nodes_of t).
Proof.
  intros Hc Hx. rewrite nodes_of_unfold. right.
  apply in_flat_map. exists c. split; assumption.
Qed.

Variable hasChildren : TreeRecord -> bool.

Hypothesis hasChildren_spec : forall row, children row <> [] -> hasChildren row = true.

Lemma expandAll_node_expands t :
  (forall x, In x (nodes_of t) -> In x (flat_map nodes_of roots)) ->
  expands roots (nodes_of t) (expandAll_node hasChildren t).
Proof.
  induction t as [i cs IH] using TreeRecord_induction. intros Hsub.
  rewrite nodes_of_unfold. cbn [children].
  apply (expands_same _ (fun s => s <- expand (TreeNode i cs) s ;;
                                  (if hasChildren (TreeNode i cs)
                                   then each (expandAll_node hasChildren) cs
                                   else fun s => OK s) s)).
  { intros s. cbn [expandAll_node]. destruct (expand (TreeNode i cs) s); cbn [bind];
      [|reflexivity].
    destruct (hasChildren (TreeNode i cs)); reflexivity. }
  apply (expands_then [TreeNode i cs]).
  - apply expand_expands. apply Hsub. rewrite nodes_of_unfold. left. reflexivity.
  - assert (Hcs : expands roots (flat_map nodes_of cs)
                    (each (expandAll_node hasChildren) cs)).
    { apply each_expands. rewrite Forall_forall in *. intros c Hc. apply IH; [exact Hc|].
      intros x Hx. apply Hsub. apply (In_children_nodes (TreeNode i cs) c x Hc Hx). }
    destruct (hasChildren (TreeNode i cs)) eqn:E; [exact Hcs|].
    destruct cs as [|c cs']; [exact expands_nothing|].
    rewrite (hasChildren_spec (TreeNode i (c :: cs'))) in E by discriminate.
    discriminate.
Qed.

Lemma expandToLevel_node_expands t : forall depth,
  (forall x, In x (nodes_of t) -> In x (flat_map nodes_of roots)) ->
  expands roots (reached depth t) (expandToLevel_node depth t).
Proof.
  induction t as [i cs IH] using TreeRecord_induction. intros depth Hsub.
  apply (expands_same _ (fun s => s <- expand (TreeNode i cs) s ;;
                                  (if 1 <? depth
                                   then each (expandToLevel_node (depth - 1)) cs
                                   else fun s => OK s) s)).
  { intros s. cbn [expandToLevel_node]. destruct (expand (TreeNode i cs) s); cbn [bind];
      [|reflexivity].
    destruct (1 <? depth); reflexivity. }
  change (reached depth (TreeNode i cs))
    with ([TreeNode i cs]
          ++ (if 1 <? depth then flat_map (reached (depth - 1)) cs else [])).
  apply expands_then.
  - apply expand_expands. apply Hsub. rewrite nodes_of_unfold. left. reflexivity.
  - destruct (1 <? depth); [|exact expands_nothing].
    apply each_expands. rewrite Forall_forall in *. intros c Hc. apply IH; [exact Hc|].
    intros x Hx. apply Hsub. apply (In_children_nodes (TreeNode i cs) c x Hc Hx).
Qed.

(** With every record expanded the view holds every record. *)
Lemma flat_all_expanded E t : forall lvl,
  (forall x, In x (nodes_of t) -> isExpanded E x = true) ->
  map fst (flat E lvl t) = nodes_of t.
Proof.
  induction t as [i cs IH] using TreeRecord_induction. intros lvl Hall.
  rewrite flat_unfold, nodes_of_unfold.
  rewrite (Hall (TreeNode i cs)) by (rewrite nodes_of_unfold; left; reflexivity).
  cbn [map fst children]. f_equal. unfold expected_view.
  assert (Hcs : forall c x, In c cs -> In x (nodes_of c) -> isExpanded E x = true)
    by (intros c x Hc Hx; apply Hall; apply (In_children_nodes (TreeNode i cs) c x Hc Hx)).
  clear Hall. induction IH as [|c cs' Hc _ IHcs]; [reflexivity|].
  cbn [flat_map]. rewrite map_app, Hc, IHcs.
  - reflexivity.
  - intros c' x Hc' Hx. apply (Hcs c' x (or_intror Hc') Hx).
  - intros x Hx. apply (Hcs c x (or_introl eq_refl) Hx).
Qed.

Lemma expected_view_all_expanded E lvl nodes :
  (forall x, In x (flat_map nodes_of nodes) -> isExpanded E x = true) ->
  map fst (expected_view E lvl nodes) = flat_map nodes_of nodes.
Proof.
  unfold expected_view. induction nodes as [|t ts IH]; intros Hall; [reflexivity|].
  cbn [flat_map]. rewrite map_app, flat_all_expanded, IH.
  - reflexivity.
  - intros x Hx. apply Hall. cbn [flat_map]. apply in_or_app. right. exact Hx.
  - intros x Hx. apply Hall. cbn [flat_map]. apply in_or_app. left. exact Hx.
Qed.

End TreeExpansion.

Section TreeExpandAll.
Import SyncTreeGridDataSource.

Lemma getData_all roots s :
  consistent roots s ->
  getData s None None = OK (map fst (expected_view (expandedById s) 0 roots))
  /\ recordCount s = OK (Z.of_nat (length (expected_view (expandedById s) 0 roots))).
Proof.
  intros (_ & v & Hview & Hv & _). unfold getData, recordCount. rewrite Hview.
  rewrite js_slice_from_suffix by lia. cbn [Z.to_nat skipn].
  rewrite <- Hv, map_map, length_map. split; reflexivity.
Qed.

Lemma reached_nodes t : forall depth x, In x (reached depth t) -> In x (nodes_of t).
Proof.
  induction t as [i cs IH] using TreeRecord_induction. intros depth x Hx.
  rewrite nodes_of_unfold. cbn [children].
  change (reached depth (TreeNode i cs))
    with (TreeNode i cs
          :: (if 1 <? depth then flat_map (reached (depth - 1)) cs else [])) in Hx.
  destruct Hx as [Hx|Hx]; [left; exact Hx|]. right.
  destruct (1 <? depth); [|contradiction].
  apply in_flat_map in Hx. destruct Hx as (c & Hc & Hx).
  apply in_flat_map. exists c. split; [exact Hc|].
  rewrite Forall_forall in IH. apply (IH c Hc (depth - 1) x Hx).
Qed.

(** X16. [expandAll()], where the tree source says of every record with
    children that it has children: the call returns, every record of the
    tree is expanded, and the view holds every record of the tree, in
    document order. *)
Theorem expandAll_shows_the_whole_tree roots cmds s hasChildren :
  unique_ids roots = true ->
  Forall (names_record roots) cmds ->
  execute_all cmds (SyncTreeGridDataSource roots) = OK s ->
  (forall row, children row <> [] -> hasChildren row = true) ->
  exists s',
    expandAll hasChildren None s = OK s'
    /\ (forall row, In row (flat_map nodes_of roots) ->
          isExpanded (expandedById s') row = true)
    /\ getData s' None None = OK (flat_map nodes_of roots)
    /\ recordCount s' = OK (Z.of_nat (length (flat_map nodes_of roots))).
Proof.
  intros Hu Hn Hrun Hhas.
  destruct (reachable_consistent roots cmds s Hu Hn Hrun) as (Huniq & Hc).
  assert (Hall : expands roots (flat_map nodes_of roots)
                   (each (expandAll_node hasChildren) roots)).
  { apply each_expands. apply Forall_forall. intros t Ht.
    apply (expandAll_node_expands roots Huniq hasChildren Hhas).
    intros x Hx. apply in_flat_map. exists t. split; assumption. }
  destruct (Hall s Hc) as (s' & Hs' & Hc' & Hexp & _).
  exists s'. unfold expandAll.
  replace (treesource s) with roots by (symmetry; apply Hc).
  split; [exact Hs'|]. split; [exact Hexp|].
  destruct (getData_all roots s' Hc') as (Hdata & Hcount).
  rewrite Hdata, Hcount.
  rewrite <- (expected_view_all_expanded (expandedById s') 0 roots Hexp), length_map.
  split; reflexivity.
Qed.

(** [expandAll] after the calls of the scenario. *)
Lemma expandAll_shows_the_whole_tree_witness :
  exists s s',
    execute_all TreeScenario.calls (SyncTreeGridDataSource TreeScenario.tree) = OK s
    /\ expandAll (fun row => match children row with [] => false | _ => true end) None s
       = OK s'
    /\ recordCount s' = OK 13.
Proof.
  eexists.
  match goal with
  | |- exists s', ?run = OK ?s /\ _ =>
      assert (E : run = OK s) by (vm_compute; reflexivity)
  end.
  match type of E with
  | _ = OK ?s =>
      destruct (expandAll_shows_the_whole_tree TreeScenario.tree TreeScenario.calls s
                  (fun row => match children row with [] => false | _ => true end)
                  ltac:(reflexivity)
                  ltac:(unfold TreeScenario.calls;
                        repeat (apply Forall_cons;
                                [first [cbn; solve [repeat (first [left; reflexivity | right])]
                                      | vm_compute; discriminate]|]);
                        apply Forall_nil)
                  E
                  ltac:(intros [i [|c cs]] H;
                        [exfalso; apply H; reflexivity | reflexivity]))
        as (s' & H1 & _ & _ & H3)
  end.
  exists s'. split; [exact E|]. split; [exact H1 | exact H3].
Defined.

(** X17. [expandToLevel(depth)] returns and expands the records of the first
    levels of the tree: the root nodes always, and with a depth above one
    the records of the [depth - 1] levels below them. The expansion state
    of every other record of the tree stays what it was, and the view is
    the tree flattened under the new expansion states. *)
Theorem expandToLevel_expands_the_first_levels roots cmds s depth :
  unique_ids roots = true ->
  Forall (names_record roots) cmds ->
  execute_all cmds (SyncTreeGridDataSource roots) = OK s ->
  exists s',
    expandToLevel depth s = OK s'
    /\ (forall x, In x (flat_map (reached depth) roots) ->
          isExpanded (expandedById s') x = true)
    /\ (forall x, In x (flat_map nodes_of roots) ->
          ~ In x (flat_map (reached depth) roots) ->
          isExpanded (expandedById s') x = isExpanded (expandedById s) x)
    /\ getData s' None None = OK (map fst (expected_view (expandedById s') 0 roots)).
Proof.
  intros Hu Hn Hrun.
  destruct (reachable_consistent roots cmds s Hu Hn Hrun) as (Huniq & Hc).
  assert (Hall : expands roots (flat_map (reached depth) roots)
                   (each (expandToLevel_node depth) roots)).
  { apply each_expands. apply Forall_forall. intros t Ht.
    apply (expandToLevel_node_expands roots Huniq).
    intros x Hx. apply in_flat_map. exists t. split; assumption. }
  destruct (Hall s Hc) as (s' & Hs' & Hc' & Hexp & Hkeep & Honly).
  exists s'. unfold expandToLevel.
  replace (treesource s) with roots by (symmetry; apply Hc).
  split; [exact Hs'|]. split; [exact Hexp|].
  split; [|apply (getData_all roots s' Hc')].
  intros x Hx Hout.
  destruct (isExpanded (expandedById s) x) eqn:E; [apply Hkeep; exact E|].
  destruct (isExpanded (expandedById s') x) eqn:E'; [|reflexivity].
  exfalso. destruct (Honly x E') as [H|(v & Hv & Hid)]; [congruence|].
  apply Hout.
  assert (Hvx : v = x).
  { apply (NoDup_map_same id (flat_map nodes_of roots) v x Huniq); [|exact Hx | exact Hid].
    apply in_flat_map in Hv. destruct Hv as (t & Ht & Hv).
    apply in_flat_map. exists t. split; [exact Ht|].
    apply (reached_nodes t depth v Hv). }
  rewrite <- Hvx. exact Hv.
Qed.

(** [expandToLevel(2)] after the calls of the scenario. *)
Lemma expandToLevel_expands_the_first_levels_witness :
  exists s s',
    execute_all TreeScenario.calls (SyncTreeGridDataSource TreeScenario.tree) = OK s
    /\ expandToLevel 2 s = OK s'
    /\ isExpanded (expandedById s') TreeScenario.cruft = true.
Proof.
  eexists.
  match goal with
  | |- exists s', ?run = OK ?s /\ _ =>
      assert (E : run = OK s) by (vm_compute; reflexivity)
  end.
  match type of E with
  | _ = OK ?s =>
      destruct (expandToLevel_expands_the_first_levels TreeScenario.tree
                  TreeScenario.calls s 2
                  ltac:(reflexivity)
                  ltac:(unfold TreeScenario.calls;
                        repeat (apply Forall_cons;
                                [first [cbn; solve [repeat (first [left; reflexivity | right])]
                                      | vm_compute; discriminate]|]);
                        apply Forall_nil)
                  E)
        as (s' & H1 & H2 & _)
  end.
  exists s'. split; [exact E|]. split; [exact H1|].
  apply H2. left. reflexivity.
Defined.

End TreeExpandAll.

Section ColumnWidths.
Import Columns.


Lemma visible_width_cons c l :
  visible_width (c :: l) = (if isColumnHidden c then 0 else width c) + visible_width l.
Proof.
  unfold visible_width. simpl. destruct (isColumnHidden c); simpl; lia.
Qed.

Lemma column_at_inside cols x :
  0 <= x < Z.of_nat (length cols) ->
  exists c, column_at cols x = Some c /\ skipn (Z.to_nat x) cols = c :: skipn (S (Z.to_nat x)) cols.
Proof.
  intros H. unfold column_at.
  replace (x <? 0) with false by (symmetry; apply Z.ltb_ge; lia).
  destruct (nth_error cols (Z.to_nat x)) as [c|] eqn:E.
  - exists c. split; [reflexivity|].
    clear H. revert E. generalize (Z.to_nat x). intros n. revert cols.
    induction n as [|n IH]; intros [|a cols] E; try discriminate.
    + simpl in E. inversion E. reflexivity.
    + simpl in E. apply IH in E. exact E.
  - apply nth_error_None in E. lia.
Qed.

Lemma column_at_outside cols x :
  x < 0 \/ Z.of_nat (length cols) <= x -> column_at cols x = None.
Proof.
  intros H. unfold column_at. destruct (x <? 0) eqn:E; [reflexivity|].
  apply Z.ltb_ge in E. apply nth_error_None. lia.
Qed.

(** The width of the columns [a .. a+n-1]. *)
Lemma columnWidth_loop_inside cols n : forall a sum,
  0 <= a -> a + Z.of_nat n <= Z.of_nat (length cols) ->
  columnWidth_loop cols n a sum
  = OK (sum + visible_width (firstn n (skipn (Z.to_nat a) cols))).
Proof.
  induction n as [|n IH]; intros a sum Ha Hn.
  - simpl. f_equal. unfold visible_width. simpl. lia.
  - cbn [columnWidth_loop]. unfold columnWidth_of.
    destruct (column_at_inside cols a ltac:(lia)) as (c & Hc & Hskip).
    rewrite Hc. cbn [bind]. rewrite IH by lia. rewrite Hskip.
    cbn [firstn]. rewrite visible_width_cons.
    replace (Z.to_nat (a + 1)) with (S (Z.to_nat a)) by lia. f_equal. lia.
Qed.

(** The loop throws as soon as it leaves the columns. *)
Lemma columnWidth_loop_outside cols n : forall a sum,
  (0 < n)%nat -> a < 0 \/ Z.of_nat (length cols) < a + Z.of_nat n ->
  columnWidth_loop cols n a sum = Throw TypeError.
Proof.
  induction n as [|n IH]; intros a sum Hpos Hout; [lia|].
  cbn [columnWidth_loop]. unfold columnWidth_of.
  destruct (column_at cols a) as [c|] eqn:Hc; [|reflexivity].
  cbn [bind].
  assert (0 <= a < Z.of_nat (length cols)).
  { unfold column_at in Hc. destruct (a <? 0) eqn:E; [discriminate|].
    apply Z.ltb_ge in E. split; [exact E|].
    assert (nth_error cols (Z.to_nat a) <> None) by congruence.
    apply nth_error_Some in H. lia. }
  apply IH; lia.
Qed.

Lemma columnWidth_inside o a b :
  0 <= a <= b -> b <= Z.of_nat (length (columns o)) ->
  columnWidth o a (Some b)
  = OK (visible_width (firstn (Z.to_nat (b - a)) (skipn (Z.to_nat a) (columns o)))).
Proof.
  intros Ha Hb. unfold columnWidth. rewrite columnWidth_loop_inside by lia.
  reflexivity.
Qed.

Lemma columnWidth_empty o a b : b <= a -> columnWidth o a (Some b) = OK 0.
Proof.
  intros H. unfold columnWidth. replace (Z.to_nat (b - a)) with O by lia. reflexivity.
Qed.

Lemma columnWidth_outside o a b :
  a < b -> a < 0 \/ Z.of_nat (length (columns o)) < b ->
  columnWidth o a (Some b) = Throw TypeError.
Proof.
  intros Hlt Hout. unfold columnWidth. apply columnWidth_loop_outside; lia.
Qed.

Lemma columnWidth_all o :
  columnWidth o 0 (Some (Z.of_nat (length (columns o)))) = OK (visible_width (columns o)).
Proof.
  rewrite columnWidth_inside by lia. rewrite Z.sub_0_r, Nat2Z.id. simpl.
  rewrite firstn_all. reflexivity.
Qed.

Lemma firstn_skipn_split {A : Type} (l : list A) (a n m : nat) :
  firstn (n + m) (skipn a l) = firstn n (skipn a l) ++ firstn m (skipn (a + n) l).
Proof.
  rewrite Nat.add_comm with (n := a), <- skipn_skipn.
  generalize (skipn a l). intros l'. revert l'.
  induction n as [|n IH]; intros [|x l']; simpl; try reflexivity.
  - rewrite firstn_nil. reflexivity.
  - rewrite IH. reflexivity.
Qed.


(** *** [adjustWidths] *)

(** The loop over the columns behind a column returns inside the columns,
    with [true] if all of them are hidden. *)
Lemma fullWidth_loop_inside cols n : forall xx,
  0 <= xx -> xx + Z.of_nat n <= Z.of_nat (length cols) ->
  fullWidth_loop cols n xx
  = OK (forallb isColumnHidden (firstn n (skipn (Z.to_nat xx) cols))).
Proof.
  induction n as [|n IH]; intros xx Hx Hn; [reflexivity|].
  cbn [fullWidth_loop].
  destruct (column_at_inside cols xx ltac:(lia)) as (c & Hc & Hskip).
  rewrite Hc, Hskip. cbn [firstn forallb].
  destruct (isColumnHidden c); cbn [negb andb]; [|reflexivity].
  rewrite IH by lia. replace (Z.to_nat (xx + 1)) with (S (Z.to_nat xx)) by lia.
  reflexivity.
Qed.

Lemma adjustWidths_column_inside o x styles :
  0 <= frozenColumnsRight o ->
  0 <= x < Z.of_nat (length (columns o)) ->
  exists c,
    column_at (columns o) x = Some c
    /\ adjustWidths_column o x styles = OK (styles ++ [style_of o x c]).
Proof.
  intros Hfr Hx. unfold adjustWidths_column.
  destruct (column_at_inside (columns o) x Hx) as (c & Hc & _).
  exists c. split; [exact Hc|]. rewrite Hc.
  unfold columnWidth, columnWidth_of. rewrite Hc. cbn [bind].
  unfold style_of, nothing_visible_behind.
  destruct (fullWidth o); cbn [andb]; [|reflexivity].
  destruct (x <? Z.of_nat (length (columns o)) - frozenColumnsRight o) eqn:E;
    cbn [andb bind]; [|reflexivity].
  apply Z.ltb_lt in E. rewrite fullWidth_loop_inside by lia. reflexivity.
Qed.

Lemma adjustWidths_columns_inside o xs : forall styles,
  0 <= frozenColumnsRight o ->
  (forall x, In x xs -> 0 <= x < Z.of_nat (length (columns o))) ->
  exists added,
    adjustWidths_columns o xs styles = OK (styles ++ added)
    /\ Forall2 (fun x st => exists c, column_at (columns o) x = Some c
                                      /\ st = style_of o x c) xs added.
Proof.
  induction xs as [|x xs IH]; intros styles Hfr Hin.
  - exists []. split; [rewrite app_nil_r; reflexivity | constructor].
  - cbn [adjustWidths_columns].
    destruct (adjustWidths_column_inside o x styles Hfr (Hin x (or_introl eq_refl)))
      as (c & Hc & Hrun).
    rewrite Hrun. cbn [bind].
    destruct (IH (styles ++ [style_of o x c]) Hfr
                 (fun y Hy => Hin y (or_intror Hy))) as (added & Hadded & Hall).
    exists (style_of o x c :: added). split.
    + rewrite Hadded, <- app_assoc. reflexivity.
    + constructor; [exists c; split; [exact Hc | reflexivity] | exact Hall].
Qed.

Lemma adjustWidths_inside o :
  0 <= frozenColumnsLeft o <= Z.of_nat (length (columns o)) ->
  0 <= frozenColumnsRight o <= Z.of_nat (length (columns o)) ->
  exists styles leading middle trailing,
    Forall2 (fun x st => exists c, column_at (columns o) x = Some c
                                   /\ st = style_of o x c)
      (index_range 0 (Z.of_nat (length (columns o)))) styles
    /\ columnWidth o 0 (Some (frozenColumnsLeft o)) = OK leading
    /\ columnWidth o (frozenColumnsLeft o)
         (Some (Z.of_nat (length (columns o)) - frozenColumnsRight o)) = OK middle
    /\ columnWidth o (Z.of_nat (length (columns o)) - frozenColumnsRight o)
         (Some (Z.of_nat (length (columns o)))) = OK trailing
    /\ adjustWidths o
       = OK {| columnStyles := styles;
               leadingWidth := leading;
               middleWidth := middle;
               trailingWidth := trailing;
               scrollFillerWidth := leading + middle + trailing;
               containerWidth := if autoResize o
                                 then Some (visible_width (columns o))
                                 else None |}.
Proof.
  intros Hfl Hfr. unfold adjustWidths.
  destruct (adjustWidths_columns_inside o (index_range 0 (Z.of_nat (length (columns o))))
              [] ltac:(lia) ltac:(intros x Hx; apply In_index_range in Hx; lia))
    as (styles & Hstyles & Hall).
  rewrite Hstyles. cbn [bind app].
  assert (Hmiddle : exists middle,
             columnWidth o (frozenColumnsLeft o)
               (Some (Z.of_nat (length (columns o)) - frozenColumnsRight o)) = OK middle).
  { destruct (Z_le_gt_dec (frozenColumnsLeft o)
                (Z.of_nat (length (columns o)) - frozenColumnsRight o)).
    - rewrite columnWidth_inside by lia. eexists. reflexivity.
    - rewrite columnWidth_empty by lia. eexists. reflexivity. }
  destruct Hmiddle as (middle & Hmiddle).
  exists styles. eexists. exists middle. eexists.
  split; [exact Hall|].
  rewrite Hmiddle.
  rewrite (columnWidth_inside o 0) by lia.
  rewrite (columnWidth_inside o (Z.of_nat (length (columns o)) - frozenColumnsRight o))
    by lia.
  split; [reflexivity|]. split; [reflexivity|]. split; [reflexivity|].
  cbn [bind]. rewrite columnWidth_all.
  destruct (autoResize o); reflexivity.
Qed.

End ColumnWidths.


Section ColumnPositions.
Import Columns.













End ColumnPositions.

Section ColumnLayout.
Import Columns.






Lemma adjustWidths_frozen_columns o w :
  adjustWidths o = OK w ->
  0 <= frozenColumnsLeft o <= Z.of_nat (length (columns o))
  /\ 0 <= frozenColumnsRight o <= Z.of_nat (length (columns o)).
Proof.
  unfold adjustWidths. intros H.
  apply bind_OK in H. destruct H as (styles & _ & H).
  apply bind_OK in H. destruct H as (leading & Hleading & H).
  apply bind_OK in H. destruct H as (middle & Hmiddle & H).
  apply bind_OK in H. destruct H as (trailing & Htrailing & _).
  set (l := Z.of_nat (length (columns o))) in *.
  assert (Hl : 0 <= l) by (unfold l; lia).
  assert (H1 : frozenColumnsLeft o <= l).
  { destruct (Z_le_gt_dec (frozenColumnsLeft o) l) as [|Hgt]; [assumption|].
    rewrite columnWidth_outside in Hleading by (fold l; lia). discriminate. }
  assert (H2 : frozenColumnsRight o <= l).
  { destruct (Z_le_gt_dec (frozenColumnsRight o) l) as [|Hgt]; [assumption|].
    rewrite columnWidth_outside in Htrailing by (fold l; lia). discriminate. }
  destruct (Z_le_gt_dec (l - frozenColumnsRight o) (frozenColumnsLeft o)) as [Hle|Hgt];
    [lia|].
  destruct (Z_lt_le_dec (frozenColumnsLeft o) 0) as [Hneg|];
    [rewrite columnWidth_outside in Hmiddle by (fold l; lia); discriminate|].
  destruct (Z_lt_le_dec (frozenColumnsRight o) 0) as [Hneg|]; [|lia].
  rewrite columnWidth_outside in Hmiddle by (fold l; lia). discriminate.
Qed.




Lemma Forall2_count_from {B : Type} (R : Z -> B -> Prop) n : forall a l,
  Forall2 R (count_from a n) l ->
  forall i, (i < n)%nat -> exists st, nth_error l i = Some st /\ R (a + Z.of_nat i) st.
Proof.
  induction n as [|n IH]; intros a l H i Hi; [lia|].
  cbn [count_from] in H. inversion H as [|? st ? l' Hst Hrest]; subst.
  destruct i as [|i].
  - exists st. split; [reflexivity|]. rewrite Z.add_0_r. exact Hst.
  - destruct (IH (a + 1) l' Hrest i ltac:(lia)) as (st' & Hn & HR).
    exists st'. split; [exact Hn|].
    replace (a + Z.of_nat (S i)) with (a + 1 + Z.of_nat i) by lia. exact HR.
Qed.

Lemma column_at_range cols x c :
  column_at cols x = Some c -> 0 <= x < Z.of_nat (length cols).
Proof.
  unfold column_at. destruct (x <? 0) eqn:E; [discriminate|]. intros H.
  apply Z.ltb_ge in E. split; [exact E|].
  assert (Hn : nth_error cols (Z.to_nat x) <> None) by congruence.
  apply nth_error_Some in Hn. lia.
Qed.

Lemma hidden_between cols (a n : nat) :
  forallb isColumnHidden (firstn n (skipn a cols)) = true
  <-> forall y c, Z.of_nat a <= y < Z.of_nat a + Z.of_nat n ->
        column_at cols y = Some c -> isColumnHidden c = true.
Proof.
  rewrite forallb_forall. split.
  - intros H y c Hy Hc. apply H. unfold column_at in Hc.
    replace (y <? 0) with false in Hc by (symmetry; apply Z.ltb_ge; lia).
    apply (nth_error_In _ (Z.to_nat y - a)).
    rewrite nth_error_firstn.
    replace (Z.to_nat y - a <? n)%nat with true by (symmetry; apply Nat.ltb_lt; lia).
    rewrite nth_error_skipn. replace (a + (Z.to_nat y - a))%nat with (Z.to_nat y) by lia.
    exact Hc.
  - intros H c Hin. apply In_nth_error in Hin. destruct Hin as (i & Hi).
    rewrite nth_error_firstn in Hi. destruct (i <? n)%nat eqn:E; [|discriminate].
    apply Nat.ltb_lt in E. rewrite nth_error_skipn in Hi.
    apply (H (Z.of_nat (a + i))); [lia|]. unfold column_at.
    replace (Z.of_nat (a + i) <? 0) with false by (symmetry; apply Z.ltb_ge; lia).
    rewrite Nat2Z.id. exact Hi.
Qed.

(** X20. With [fullWidth], [adjustWidths] lets a column stretch (width auto,
    its own width as minimum) if and only if it lies before the columns
    frozen on the right and every column between it and them is hidden:
    of the columns that can be seen, the last one before the right part,
    and no other. Every other column gets its own width; a hidden column
    counts with the width zero. *)
Theorem fullWidth_stretches_the_last_visible_column o w x c :
  adjustWidths o = OK w ->
  column_at (columns o) x = Some c ->
  exists style,
    nth_error (columnStyles w) (Z.to_nat x) = Some (normalizeCssClass (key c), style)
    /\ (style = Stretched (if isColumnHidden c then 0 else width c)
        \/ style = Fixed (if isColumnHidden c then 0 else width c))
    /\ (style = Stretched (if isColumnHidden c then 0 else width c)
        <-> fullWidth o = true
            /\ x < Z.of_nat (length (columns o)) - frozenColumnsRight o
            /\ forall y c',
                 x < y < Z.of_nat (length (columns o)) - frozenColumnsRight o ->
                 column_at (columns o) y = Some c' -> isColumnHidden c' = true).
Proof.
  intros Hw Hc.
  destruct (adjustWidths_frozen_columns o w Hw) as (Hfl & Hfr).
  destruct (adjustWidths_inside o Hfl Hfr)
    as (styles & w1 & w2 & w3 & Hall & _ & _ & _ & Hw').
  rewrite Hw in Hw'. inversion Hw'; subst w. clear Hw'. cbn [columnStyles].
  pose proof (column_at_range _ _ _ Hc) as Hx.
  unfold index_range in Hall.
  destruct (Forall2_count_from _ _ _ _ Hall (Z.to_nat x) ltac:(lia))
    as (st & Hst & c' & Hc' & Hstyle).
  replace (0 + Z.of_nat (Z.to_nat x)) with x in * by lia.
  rewrite Hc in Hc'. inversion Hc'; subst c'. clear Hc'.
  unfold style_of in Hstyle.
  assert (Hbehind : nothing_visible_behind o x = true
                    <-> x < Z.of_nat (length (columns o)) - frozenColumnsRight o
                        /\ forall y c',
                             x < y < Z.of_nat (length (columns o)) - frozenColumnsRight o ->
                             column_at (columns o) y = Some c' -> isColumnHidden c' = true).
  { unfold nothing_visible_behind. rewrite andb_true_iff, Z.ltb_lt, hidden_between.
    split; intros (H1 & H2); (split; [exact H1|]); intros y c' Hy; apply H2; lia. }
  exists (if fullWidth o && nothing_visible_behind o x
          then Stretched (if isColumnHidden c then 0 else width c)
          else Fixed (if isColumnHidden c then 0 else width c)).
  split; [rewrite Hst, Hstyle; reflexivity|].
  destruct (fullWidth o); cbn [andb].
  - destruct (nothing_visible_behind o x) eqn:E.
    + split; [left; reflexivity|]. split; [intros _|reflexivity].
      split; [reflexivity|]. apply Hbehind. reflexivity.
    + split; [right; reflexivity|]. split; [discriminate|].
      intros (_ & H). apply Hbehind in H. discriminate.
  - split; [right; reflexivity|]. split; [discriminate|]. intros (H & _). discriminate.
Qed.

(** The third column of the scenario is the last one that can be seen
    before the column frozen on the right. *)
Lemma fullWidth_stretches_the_last_visible_column_witness :
  exists w style,
    adjustWidths ColumnScenario.options = OK w
    /\ nth_error (columnStyles w) 2 = Some (Index 2, style)
    /\ (style = Stretched 120 \/ style = Fixed 120).
Proof.
  eexists.
  match goal with
  | |- exists style, ?run = OK ?w /\ _ =>
      assert (E : run = OK w) by (vm_compute; reflexivity)
  end.
  match type of E with
  | _ = OK ?w =>
      destruct (fullWidth_stretches_the_last_visible_column ColumnScenario.options w 2
                  {| key := Index 2; width := 120; hidden := Some false;
                     offsetLeft := None |} E ltac:(reflexivity))
        as (style & H1 & H2 & _)
  end.
  exists style. split; [exact E|]. split; [exact H1 | exact H2].
Defined.




Lemma indexOf_from_named k keys : forall i,
  0 <= i ->
  (-1 <? indexOf_from k keys i) = existsb (fun h => Key_eqb h k) keys.
Proof.
  induction keys as [|h t IH]; intros i Hi; [reflexivity|].
  cbn [indexOf_from existsb]. destruct (Key_eqb h k); cbn [orb].
  - apply Z.ltb_lt. lia.
  - apply IH. lia.
Qed.

(** X22. After [_hideColumns(keys)] the columns that can be seen are the
    columns whose key is none of [keys], in their order, whatever was
    hidden before; the width of all columns is the width of these; and a
    second call replaces the first: a column hidden by the first call and
    not named in the second can be seen again. *)
Theorem hideColumns_hides_the_named_columns o keys :
  getVisibleColumns (_hideColumns keys o)
  = map (set_hidden false) (filter (fun c => negb (named keys c)) (columns o))
  /\ columnWidth (_hideColumns keys o) 0 (Some (Z.of_nat (length (columns o))))
     = OK (fold_right Z.add 0
             (map width (filter (fun c => negb (named keys c)) (columns o))))
  /\ forall keys', _hideColumns keys' (_hideColumns keys o) = _hideColumns keys' o.
Proof.
  assert (Hvisible : getVisibleColumns (_hideColumns keys o)
                     = map (set_hidden false)
                         (filter (fun c => negb (named keys c)) (columns o))).
  { unfold getVisibleColumns, _hideColumns. cbn [set_columns columns].
    rewrite filter_map_swap.
    assert (Hnamed : forall c, (-1 <? indexOf keys (key c)) = named keys c)
      by (intros c; unfold indexOf, named; apply indexOf_from_named; lia).
    rewrite (filter_ext _ (fun c => negb (named keys c)))
      by (intros c; unfold isColumnHidden; cbn [set_hidden hidden];
          rewrite Hnamed; reflexivity).
    apply map_ext_in. intros c Hc. apply filter_In in Hc. destruct Hc as (_ & Hc).
    rewrite Hnamed. apply negb_true_iff in Hc. rewrite Hc. reflexivity. }
  split; [exact Hvisible|]. split.
  - replace (length (columns o)) with (length (columns (_hideColumns keys o)))
      by (unfold _hideColumns; cbn [set_columns columns]; apply length_map).
    rewrite columnWidth_all. f_equal. unfold visible_width.
    fold (getVisibleColumns (_hideColumns keys o)). rewrite Hvisible, map_map.
    reflexivity.
  - intros keys'. unfold _hideColumns, set_columns.
    cbn [columns frozenColumnsLeft frozenColumnsRight fullWidth autoResize].
    rewrite map_map.
    rewrite (map_ext _ (fun column => set_hidden (-1 <? indexOf keys' (key column)) column))
      by (intros c; reflexivity).
    reflexivity.
Qed.

(** X23. [normalizeCssClass] leaves a number as it is; of a string it keeps
    the length, the letters and the digits, and puts an underscore for any
    other code unit, so that the result holds letters, digits and
    underscores only. Normalized once more, the result stays as it is. *)
Theorem normalizeCssClass_alphabet :
  (forall i, normalizeCssClass (Index i) = Index i)
  /\ (forall s, exists s',
         normalizeCssClass (Name s) = Name s'
         /\ length s' = length s
         /\ Forall (fun u => is_alphanumeric u = true \/ u = 95) s'
         /\ filter is_alphanumeric s' = filter is_alphanumeric s)
  /\ (forall c, normalizeCssClass (normalizeCssClass c) = normalizeCssClass c).
Proof.
  split; [reflexivity|]. split.
  - intros s. eexists. split; [reflexivity|].
    split; [apply length_map|]. split.
    + apply Forall_forall. intros u Hu. apply in_map_iff in Hu.
      destruct Hu as (v & <- & _). destruct (is_alphanumeric v) eqn:E; [left | right].
      * exact E.
      * reflexivity.
    + induction s as [|u s IH]; [reflexivity|].
      cbn [map filter]. destruct (is_alphanumeric u) eqn:E.
      * rewrite E, IH. reflexivity.
      * change (is_alphanumeric 95) with false. cbv iota. exact IH.
  - intros [i|s]; [reflexivity|]. cbn [normalizeCssClass]. f_equal.
    rewrite map_map. apply map_ext. intros u.
    destruct (is_alphanumeric u) eqn:E; [rewrite E; reflexivity | reflexivity].
Qed.

End ColumnLayout.

Lemma JsString_eqb_eq s : forall t, JsString_eqb s t = true <-> s = t.
Proof.
  induction s as [|a s IH]; intros [|b t]; simpl; split; intros H;
    try reflexivity; try discriminate.
  - apply andb_true_iff in H. destruct H as (H1 & H2).
    apply Z.eqb_eq in H1. apply IH in H2. congruence.
  - inversion H; subst. rewrite Z.eqb_refl. simpl. apply IH. reflexivity.
Qed.

Lemma JsString_eqb_refl s : JsString_eqb s s = true.
Proof. apply JsString_eqb_eq. reflexivity. Qed.

Lemma JsString_eqb_neq s t : s <> t -> JsString_eqb s t = false.
Proof.
  intros H. destruct (JsString_eqb s t) eqn:E; [|reflexivity].
  apply JsString_eqb_eq in E. contradiction.
Qed.

Lemma JsString_eq_dec (s t : JsString) : {s = t} + {s <> t}.
Proof.
  destruct (JsString_eqb s t) eqn:E.
  - left. apply JsString_eqb_eq. exact E.
  - right. intros H. apply JsString_eqb_eq in H. congruence.
Qed.

Section LoadOrder.
Import Extensions.

Variable plugins : list (JsString * Plugin).

Lemma before_app d k l ext : before d k l -> before d k (l ++ ext).
Proof.
  intros (l1 & l2 & -> & Hd). exists l1, (l2 ++ ext).
  split; [rewrite <- app_assoc; reflexivity | exact Hd].
Qed.

Lemma forEach_app {S : Type} (f : JsString -> S -> result S) l1 : forall l2 s,
  forEach f (l1 ++ l2) s = (s' <- forEach f l1 s ;; forEach f l2 s').
Proof.
  induction l1 as [|k l1 IH]; intros l2 s; [reflexivity|].
  cbn [app forEach]. destruct (f k s) as [s'|e]; [apply IH | reflexivity].
Qed.

Section Acyclic.

Variable rank : JsString -> nat.

Hypothesis rank_falls : forall key plugin keys d,
  property key plugins = Some plugin ->
  loadFirst plugin = Some keys ->
  In d keys ->
  (rank d < rank key)%nat.

Lemma forEach_adds f (r : nat) :
  (forall key, (rank key < r)%nat -> adds plugins rank f key) ->
  forall keys s,
    (forall key, In key keys -> (rank key < r)%nat) ->
    well_sorted plugins s ->
    exists s',
      forEach f keys s = OK s'
      /\ well_sorted plugins s'
      /\ (exists ext, sorted s' = sorted s ++ ext
                      /\ forall x, In x ext -> (rank x < r)%nat)
      /\ (forall key, In key keys -> property key plugins <> None -> In key (sorted s')).
Proof.
  intros Hf. induction keys as [|key rest IH]; intros s Hr Hs.
  - exists s. split; [reflexivity|]. split; [exact Hs|].
    split; [exists []; split; [rewrite app_nil_r; reflexivity | intros x []]|].
    intros key [].
  - cbn [forEach].
    destruct (Hf key (Hr key (or_introl eq_refl)) s Hs)
      as (s1 & H1 & Hs1 & (ext1 & Hext1 & Hrank1) & Hin1).
    rewrite H1.
    destruct (IH s1 (fun k Hk => Hr k (or_intror Hk)) Hs1)
      as (s2 & H2 & Hs2 & (ext2 & Hext2 & Hrank2) & Hin2).
    exists s2. split; [exact H2|]. split; [exact Hs2|]. split.
    + exists (ext1 ++ ext2). split; [rewrite Hext2, Hext1, app_assoc; reflexivity|].
      intros x Hx. apply in_app_or in Hx. destruct Hx as [Hx|Hx].
      * pose proof (Hrank1 x Hx). pose proof (Hr key (or_introl eq_refl)). lia.
      * apply Hrank2. exact Hx.
    + intros k [<-|Hk] Hdef.
      * rewrite Hext2. apply in_or_app. left. apply Hin1. exact Hdef.
      * apply Hin2; assumption.
Qed.

Lemma add_adds depth : forall key,
  (rank key < depth)%nat -> adds plugins rank (add depth plugins) key.
Proof.
  induction depth as [|depth IH]; intros key Hrank s Hs; [lia|].
  cbn [add].
  destruct (property key plugins) as [plugin|] eqn:Hplugin.
  2:{ exists s. split; [reflexivity|]. split; [exact Hs|].
      split; [exists []; split; [rewrite app_nil_r; reflexivity | intros x []]|].
      intros H. congruence. }
  destruct (property key (added s)) as [b|] eqn:Hadded.
  { exists s. split; [reflexivity|]. split; [exact Hs|].
    split; [exists []; split; [rewrite app_nil_r; reflexivity | intros x []]|].
    intros _. apply Hs. congruence. }
  assert (Hdeps : exists s1,
             match loadFirst plugin with
             | Some keys => forEach (add depth plugins) keys s
             | None => OK s
             end = OK s1
             /\ well_sorted plugins s1
             /\ (exists ext, sorted s1 = sorted s ++ ext
                             /\ forall x, In x ext -> (rank x < rank key)%nat)
             /\ (forall d, needs plugins key d -> In d (sorted s1))).
  { destruct (loadFirst plugin) as [keys|] eqn:Hkeys.
    - destruct (forEach_adds (add depth plugins) (rank key)
                  (fun k Hk => IH k ltac:(lia)) keys s
                  (fun k Hk => rank_falls key plugin keys k Hplugin Hkeys Hk) Hs)
        as (s1 & H1 & Hs1 & Hext & Hin).
      exists s1. split; [exact H1|]. split; [exact Hs1|]. split; [exact Hext|].
      intros d (plugin' & keys' & Hp' & Hk' & Hd & Hdef).
      rewrite Hplugin in Hp'. inversion Hp'; subst plugin'.
      rewrite Hkeys in Hk'. inversion Hk'; subst keys'.
      apply Hin; assumption.
    - exists s. split; [reflexivity|]. split; [exact Hs|].
      split; [exists []; split; [rewrite app_nil_r; reflexivity | intros x []]|].
      intros d (plugin' & keys' & Hp' & Hk' & _).
      rewrite Hplugin in Hp'. inversion Hp'; subst plugin'. congruence. }
  destruct Hdeps as (s1 & H1 & Hs1 & (ext & Hext & Hranks) & Hneeds).
  rewrite H1. cbn [bind]. eexists. split; [reflexivity|].
  destruct Hs as (Ha & Hnd & Hdef & Hord).
  destruct Hs1 as (Ha1 & Hnd1 & Hdef1 & Hord1).
  assert (Hfresh : ~ In key (sorted s1)).
  { rewrite Hext. intros Hin. apply in_app_or in Hin. destruct Hin as [Hin|Hin].
    - apply Ha in Hin. congruence.
    - apply Hranks in Hin. lia. }
  split; [|split].
  - split; [|split; [|split]]; cbn [sorted added].
    + intros k. cbn [property]. destruct (JsString_eqb key k) eqn:E.
      * apply JsString_eqb_eq in E. subst k. split; [|discriminate].
        intros _. apply in_or_app. right. left. reflexivity.
      * rewrite Ha1. split.
        -- intros H. apply in_or_app. left. exact H.
        -- intros H. apply in_app_or in H. destruct H as [H|[H|[]]]; [exact H|].
           subst k. rewrite JsString_eqb_refl in E. discriminate.
    + apply NoDup_app; [exact Hnd1 | repeat constructor; intros [] |].
      intros x Hx [<-|[]]. contradiction.
    + intros k Hk. apply in_app_or in Hk. destruct Hk as [Hk|[<-|[]]].
      * apply Hdef1. exact Hk.
      * congruence.
    + intros k d Hk Hn. apply in_app_or in Hk. destruct Hk as [Hk|[<-|[]]].
      * apply before_app. apply Hord1; assumption.
      * exists (sorted s1), []. split; [reflexivity|]. apply Hneeds. exact Hn.
  - exists (ext ++ [key]). cbn [sorted]. split; [rewrite Hext, app_assoc; reflexivity|].
    intros x Hx. apply in_app_or in Hx. destruct Hx as [Hx|[<-|[]]].
    + apply Hranks in Hx. lia.
    + lia.
  - intros _. cbn [sorted]. apply in_or_app. right. left. reflexivity.
Qed.

Lemma sortByLoadOrder_acyclic depth pluginList :
  (forall key, In key pluginList -> (rank key < depth)%nat) ->
  exists list_,
    sortByLoadOrder depth pluginList plugins = OK list_
    /\ NoDup list_
    /\ (forall key, In key list_ -> property key plugins <> None)
    /\ (forall key, In key pluginList -> property key plugins <> None -> In key list_)
    /\ (forall key d, In key list_ -> needs plugins key d -> before d key list_).
Proof.
  intros Hdepth. unfold sortByLoadOrder.
  assert (Hinit : well_sorted plugins {| sorted := []; added := [] |}).
  { split; [|split; [|split]]; cbn.
    - intros k. split; [congruence | intros []].
    - constructor.
    - intros k [].
    - intros k d []. }
  destruct (forEach_adds (add depth plugins) depth (add_adds depth) pluginList _
              Hdepth Hinit) as (s & Hs & (Ha & Hnd & Hdef & Hord) & _ & Hin).
  rewrite Hs. cbn [bind]. exists (sorted s).
  split; [reflexivity|]. split; [exact Hnd|]. split; [exact Hdef|].
  split; [exact Hin | exact Hord].
Qed.

End Acyclic.

Section Cycle.

Variable C : JsString -> Prop.

Hypothesis cycle : forall key, C key -> exists d, needs plugins key d /\ C d.

Lemma cycle_defined key : C key -> property key plugins <> None.
Proof.
  intros H. destruct (cycle key H) as (d & (plugin & keys & Hp & _) & _). congruence.
Qed.

Lemma add_marks depth key s s' :
  add depth plugins key s = OK s' ->
  property key plugins <> None ->
  property key (added s) = None ->
  property key (added s') = Some true.
Proof.
  intros H Hdef Hnew. destruct depth as [|depth]; [discriminate|].
  cbn [add] in H. destruct (property key plugins) as [plugin|]; [|congruence].
  rewrite Hnew in H. apply bind_OK in H. destruct H as (s1 & _ & H).
  inversion H. cbn [added property]. rewrite JsString_eqb_refl. reflexivity.
Qed.

Lemma forEach_clear_of_cycle f :
  (forall key s s', f key s = OK s' -> clear_of_cycle C s -> clear_of_cycle C s') ->
  forall keys s s',
    forEach f keys s = OK s' -> clear_of_cycle C s -> clear_of_cycle C s'.
Proof.
  intros Hf. induction keys as [|key rest IH]; intros s s' H Hs.
  - inversion H; subst. exact Hs.
  - cbn [forEach] in H. destruct (f key s) as [s1|e] eqn:E; [|discriminate].
    apply (IH s1 s' H). apply (Hf key s s1 E Hs).
Qed.

(** A call of [add] for an extension of the cycle cannot return. *)
Lemma forEach_meets_cycle f :
  (forall key s s', f key s = OK s' -> clear_of_cycle C s -> clear_of_cycle C s') ->
  (forall key s s', f key s = OK s' -> property key plugins <> None ->
                    property key (added s) = None ->
                    property key (added s') = Some true) ->
  forall keys s s' d,
    In d keys -> C d -> clear_of_cycle C s -> forEach f keys s = OK s' -> False.
Proof.
  intros Hclear Hmarks keys s s' d Hd HC Hs H.
  apply in_split in Hd. destruct Hd as (l1 & l2 & ->).
  rewrite forEach_app in H. apply bind_OK in H. destruct H as (s1 & H1 & H2).
  cbn [forEach] in H2. destruct (f d s1) as [s2|e] eqn:E; [|discriminate].
  pose proof (forEach_clear_of_cycle f Hclear l1 s s1 H1 Hs) as Hs1.
  pose proof (Hclear d s1 s2 E Hs1) as Hs2.
  pose proof (Hmarks d s1 s2 E (cycle_defined d HC) (Hs1 d HC)) as Hmark.
  rewrite (Hs2 d HC) in Hmark. discriminate.
Qed.

Lemma add_clear_of_cycle depth : forall key s s',
  add depth plugins key s = OK s' -> clear_of_cycle C s -> clear_of_cycle C s'.
Proof.
  induction depth as [|depth IH]; intros key s s' H Hs; [discriminate|].
  cbn [add] in H.
  destruct (property key plugins) as [plugin|] eqn:Hplugin;
    [|inversion H; subst; exact Hs].
  destruct (property key (added s)) as [b|] eqn:Hadded;
    [inversion H; subst; exact Hs|].
  apply bind_OK in H. destruct H as (s1 & H1 & H).
  inversion H; subst s'. clear H.
  assert (Hs1 : clear_of_cycle C s1).
  { destruct (loadFirst plugin) as [keys|].
    - apply (forEach_clear_of_cycle (add depth plugins) IH keys s s1 H1 Hs).
    - inversion H1; subst. exact Hs. }
  assert (Hout : ~ C key).
  { intros HC. destruct (cycle key HC) as (d & (plugin' & keys & Hp & Hk & Hd & _) & HCd).
    rewrite Hplugin in Hp. inversion Hp; subst plugin'. rewrite Hk in H1.
    apply (forEach_meets_cycle (add depth plugins) IH (add_marks depth)
             keys s s1 d Hd HCd Hs H1). }
  intros x Hx. cbn [added property].
  rewrite JsString_eqb_neq by (intros ->; contradiction).
  apply Hs1. exact Hx.
Qed.

Lemma forEach_RangeError f :
  (forall key (s : Sorting) e, f key s = Throw e -> e = RangeError) ->
  forall keys s e, forEach f keys s = Throw e -> e = RangeError.
Proof.
  intros Hf. induction keys as [|key rest IH]; intros s e H; [discriminate|].
  cbn [forEach] in H. destruct (f key s) as [s1|e'] eqn:E.
  - apply (IH s1 e H).
  - inversion H; subst. apply (Hf key s e E).
Qed.

Lemma add_RangeError depth : forall key s e,
  add depth plugins key s = Throw e -> e = RangeError.
Proof.
  induction depth as [|depth IH]; intros key s e H; [inversion H; reflexivity|].
  cbn [add] in H.
  destruct (property key plugins) as [plugin|]; [|discriminate].
  destruct (property key (added s)); [discriminate|].
  destruct (loadFirst plugin) as [keys|]; [|discriminate].
  destruct (forEach (add depth plugins) keys s) as [s1|e'] eqn:E; [discriminate|].
  inversion H; subst. apply (forEach_RangeError (add depth plugins) IH keys s e E).
Qed.

Lemma sortByLoadOrder_cyclic depth pluginList key :
  In key pluginList -> C key ->
  sortByLoadOrder depth pluginList plugins = Throw RangeError.
Proof.
  intros Hin HC. unfold sortByLoadOrder.
  destruct (forEach (add depth plugins) pluginList {| sorted := []; added := [] |})
    as [s|e] eqn:E.
  - exfalso.
    apply (forEach_meets_cycle (add depth plugins) (add_clear_of_cycle depth)
             (add_marks depth) pluginList {| sorted := []; added := [] |} s key Hin HC
             ltac:(intros x _; reflexivity) E).
  - cbn [bind]. f_equal.
    apply (forEach_RangeError (add depth plugins) (add_RangeError depth) _ _ _ E).
Qed.

End Cycle.

End LoadOrder.

(** X24. Where no extension needs itself, directly or through others (every
    key that an extension names in [loadFirst] has a smaller rank), and the
    call stack has room for the longest chain, [sortByLoadOrder] returns a
    list without duplicates that holds extensions only, holds every
    extension of the plugin list, and holds every extension behind all the
    extensions that it asks to be loaded first; keys that are no extensions
    are left out. *)
Theorem sortByLoadOrder_loads_dependencies_first
    (plugins : list (JsString * Extensions.Plugin)) (rank : JsString -> nat)
    (depth : nat) (pluginList : list JsString) :
  (forall key plugin keys d,
      property key plugins = Some plugin ->
      Extensions.loadFirst plugin = Some keys ->
      In d keys ->
      (rank d < rank key)%nat) ->
  (forall key, In key pluginList -> (rank key < depth)%nat) ->
  exists list_,
    Extensions.sortByLoadOrder depth pluginList plugins = OK list_
    /\ NoDup list_
    /\ (forall key, In key list_ -> property key plugins <> None)
    /\ (forall key, In key pluginList -> property key plugins <> None ->
                    In key list_)
    /\ (forall key d, In key list_ -> Extensions.needs plugins key d ->
                      Extensions.before d key list_).
Proof.
  intros Hrank Hdepth.
  exact (sortByLoadOrder_acyclic plugins rank Hrank depth pluginList Hdepth).
Qed.

(** The extensions of the scenario: selection, validation, editing. *)
Lemma sortByLoadOrder_loads_dependencies_first_witness :
  exists list_,
    Extensions.sortByLoadOrder 3
      [ExtensionScenario.editing; ExtensionScenario.missing; ExtensionScenario.selection]
      ExtensionScenario.plugins = OK list_
    /\ NoDup list_
    /\ Extensions.before ExtensionScenario.selection ExtensionScenario.editing list_.
Proof.
  destruct (sortByLoadOrder_loads_dependencies_first
              ExtensionScenario.plugins ExtensionScenario.rank 3
              [ExtensionScenario.editing; ExtensionScenario.missing;
               ExtensionScenario.selection]) as (list_ & H1 & H2 & _ & H3 & H4).
  - intros key plugin keys d Hp Hk Hd.
    unfold ExtensionScenario.plugins in Hp. cbn [property] in Hp.
    repeat match type of Hp with
           | (if ?c then _ else _) = _ =>
               let E := fresh "E" in
               destruct c eqn:E;
               [apply JsString_eqb_eq in E; subst key; inversion Hp; subst plugin;
                cbn in Hk; inversion Hk; subst keys; cbn in Hd;
                repeat (destruct Hd as [<-|Hd]; [vm_compute; lia|]); destruct Hd|]
           end.
    discriminate.
  - intros key Hkey. cbn in Hkey.
    repeat (destruct Hkey as [<-|Hkey]; [vm_compute; lia|]). destruct Hkey.
  - exists list_. split; [exact H1|]. split; [exact H2|].
    apply H4.
    + apply H3; [left; reflexivity | vm_compute; discriminate].
    + exists {| Extensions.loadFirst :=
                 Some [ExtensionScenario.validation; ExtensionScenario.missing;
                       ExtensionScenario.selection] |},
        [ExtensionScenario.validation; ExtensionScenario.missing;
         ExtensionScenario.selection].
      split; [reflexivity|]. split; [reflexivity|].
      split; [right; right; left; reflexivity | vm_compute; discriminate].
Defined.

(** X25. Where the plugin list names an extension of a set of extensions
    each of which asks for another one of the set to be loaded first (a
    cycle, or what leads into one), [sortByLoadOrder] never returns: the
    calls of [add] nest until the call stack is exhausted, however deep it
    is. *)
Theorem sortByLoadOrder_never_returns_on_a_cycle
    (plugins : list (JsString * Extensions.Plugin)) (C : JsString -> Prop)
    (pluginList : list JsString) (key : JsString) (depth : nat) :
  (forall k, C k -> exists d, Extensions.needs plugins k d /\ C d) ->
  In key pluginList ->
  C key ->
  Extensions.sortByLoadOrder depth pluginList plugins = Throw RangeError.
Proof.
  intros Hcycle Hin HC.
  exact (sortByLoadOrder_cyclic plugins C Hcycle depth pluginList key Hin HC).
Qed.

(** The two extensions of the scenario that need each other. *)
Lemma sortByLoadOrder_never_returns_on_a_cycle_witness :
  Extensions.sortByLoadOrder 1000
    [ExtensionScenario.editing; ExtensionScenario.left_]
    ExtensionScenario.entangled = Throw RangeError.
Proof.
  apply (sortByLoadOrder_never_returns_on_a_cycle ExtensionScenario.entangled
           (fun k => k = ExtensionScenario.left_ \/ k = ExtensionScenario.right_)
           _ ExtensionScenario.left_ 1000).
  - intros k [->| ->].
    + exists ExtensionScenario.right_. split; [|right; reflexivity].
      exists {| Extensions.loadFirst := Some [ExtensionScenario.right_] |},
        [ExtensionScenario.right_].
      split; [reflexivity|]. split; [reflexivity|].
      split; [left; reflexivity | vm_compute; discriminate].
    + exists ExtensionScenario.left_. split; [|left; reflexivity].
      exists {| Extensions.loadFirst := Some [ExtensionScenario.left_] |},
        [ExtensionScenario.left_].
      split; [reflexivity|]. split; [reflexivity|].
      split; [left; reflexivity | vm_compute; discriminate].
  - right. left. reflexivity.
  - left. reflexivity.
Defined.

Section TouchEvents.
Import TouchScroll.

Lemma descending_tail a rest : descending (a :: rest) = true -> descending rest = true.
Proof. simpl. intros H. apply andb_true_iff in H. apply H. Qed.

Lemma descending_head a rest u :
  descending (a :: rest) = true -> In u rest -> u <= a.
Proof.
  simpl. intros H Hu. apply andb_true_iff in H. destruct H as (H & _).
  rewrite forallb_forall in H. apply Z.leb_le. apply H. exact Hu.
Qed.

Lemma descending_filter p ts : descending ts = true -> descending (filter p ts) = true.
Proof.
  induction ts as [|a rest IH]; intros H; [reflexivity|].
  pose proof (descending_tail _ _ H) as Hrest.
  cbn [filter]. destruct (p a); [|apply IH; exact Hrest].
  simpl. apply andb_true_iff. split; [|apply IH; exact Hrest].
  apply forallb_forall. intros u Hu. apply filter_In in Hu. destruct Hu as (Hu & _).
  apply Z.leb_le. apply (descending_head a rest u H Hu).
Qed.

Lemma descending_recent ts : descending ts = true -> descending (recent ts) = true.
Proof.
  destruct ts as [|a rest]; intros H; [reflexivity|].
  unfold recent. simpl. apply andb_true_iff. split.
  - apply forallb_forall. intros u Hu. apply filter_In in Hu. destruct Hu as (Hu & _).
    apply Z.leb_le. apply (descending_head a rest u H Hu).
  - apply descending_filter. apply (descending_tail _ _ H).
Qed.

Lemma filter_none {A : Type} (p : A -> bool) l :
  (forall u, In u l -> p u = false) -> filter p l = [].
Proof.
  induction l as [|a rest IH]; intros H; [reflexivity|].
  cbn [filter]. rewrite (H a (or_introl eq_refl)).
  apply IH. intros u Hu. apply H. right. exact Hu.
Qed.

(** On falling times the loop of [pruneEventQueue] passes exactly the
    entries that are not too old. *)
Lemma pruneEventQueue_loop_filter now q :
  descending (map t q) = true ->
  map t (firstn (pruneEventQueue_loop now q) q)
  = filter (fun u => now - u <=? timeUnit) (map t q).
Proof.
  induction q as [|e rest IH]; intros H; [reflexivity|].
  cbn [map] in H. pose proof (descending_tail _ _ H) as Hrest.
  cbn [pruneEventQueue_loop map filter].
  destruct (timeUnit <? now - t e) eqn:E.
  - apply Z.ltb_lt in E.
    replace (now - t e <=? timeUnit) with false by (symmetry; apply Z.leb_gt; lia).
    cbn [firstn map]. symmetry. apply filter_none. intros u Hu.
    pose proof (descending_head (t e) (map t rest) u H Hu). apply Z.leb_gt. lia.
  - apply Z.ltb_ge in E.
    replace (now - t e <=? timeUnit) with true by (symmetry; apply Z.leb_le; lia).
    cbn [firstn map]. rewrite IH by exact Hrest. reflexivity.
Qed.

Lemma filter_filter_weaker {A : Type} (p q : A -> bool) l :
  (forall u, In u l -> p u = true -> q u = true) ->
  filter p (filter q l) = filter p l.
Proof.
  induction l as [|a rest IH]; intros H; [reflexivity|].
  cbn [filter]. destruct (q a) eqn:Eq.
  - cbn [filter]. rewrite IH by (intros u Hu; apply H; right; exact Hu). reflexivity.
  - destruct (p a) eqn:Ep.
    + rewrite (H a (or_introl eq_refl) Ep) in Eq. discriminate.
    + apply IH. intros u Hu. apply H. right. exact Hu.
Qed.

Lemma filter_recent now ts :
  descending ts = true ->
  (forall u, In u ts -> u <= now) ->
  filter (fun u => now - u <=? timeUnit) (recent ts)
  = filter (fun u => now - u <=? timeUnit) ts.
Proof.
  destruct ts as [|a rest]; intros Hd Hnow; [reflexivity|].
  unfold recent. cbn [filter].
  rewrite filter_filter_weaker; [reflexivity|].
  intros u Hu Hp. apply Z.leb_le in Hp. apply Z.leb_le.
  pose proof (Hnow a (or_introl eq_refl)). lia.
Qed.

(** [pruneEventQueue] after a move at the time [now]. *)
Lemma pruneEventQueue_recent e q ts :
  map t q = recent ts ->
  descending ts = true ->
  (forall u, In u ts -> u <= t e) ->
  exists q',
    pruneEventQueue (e :: q) = OK q'
    /\ map t q' = recent (t e :: ts).
Proof.
  intros Hq Hd Hnow. unfold pruneEventQueue.
  rewrite js_slice_prefix by lia.
  replace (Z.to_nat (1 + Z.of_nat (pruneEventQueue_loop (t e) q)))
    with (S (pruneEventQueue_loop (t e) q)) by lia.
  eexists. split; [reflexivity|]. cbn [firstn map].
  rewrite pruneEventQueue_loop_filter by (rewrite Hq; apply descending_recent; exact Hd).
  rewrite Hq, filter_recent by assumption. reflexivity.
Qed.

Lemma monotone_tail a rest : monotone (a :: rest) = true -> monotone rest = true.
Proof. simpl. intros H. apply andb_true_iff in H. apply H. Qed.

Lemma monotone_head a rest u : monotone (a :: rest) = true -> In u rest -> a <= u.
Proof.
  simpl. intros H Hu. apply andb_true_iff in H. destruct H as (H & _).
  rewrite forallb_forall in H. apply Z.leb_le. apply H. exact Hu.
Qed.

Lemma last_In {A : Type} (l : list A) (d : A) : l <> [] -> In (last l d) l.
Proof.
  induction l as [|a rest IH]; intros H; [contradiction|].
  destruct rest as [|b rest']; [left; reflexivity|].
  right. apply IH. discriminate.
Qed.

(** The listeners keep the queue the recent part of the moves. *)
Lemma listeners_recent es : forall s ts,
  map t (eventQueue s) = recent ts ->
  descending ts = true ->
  spans_bounded s ->
  monotone (clock es) = true ->
  (forall u v, In u ts -> In v (clock es) -> u <= v) ->
  exists s',
    listeners es s = OK s'
    /\ map t (eventQueue s') = recent (moves es (tracking s) ts)
    /\ spans_bounded s'.
Proof.
  induction es as [|e rest IH]; intros s ts Hq Hd Hspans Hclock Hpast.
  - exists s. split; [reflexivity|]. split; [exact Hq | exact Hspans].
  - destruct e as [pageX pageY | now newX newY | now]; cbn [listeners listener moves].
    + cbn [bind].
      apply (IH (mkTracker true (JsNum pageX) (JsNum pageY) (eventQueue s) (scrolledBy s)
                   (inertialScrolls s)) ts Hq Hd Hspans Hclock Hpast).
    + cbn [clock flat_map app] in Hclock, Hpast.
      fold (clock rest) in Hclock, Hpast.
      destruct (tracking s) eqn:Htr; cbn [bind].
      * destruct (pruneEventQueue_recent
                    {| x := js_minus (lastX s) (JsNum newX);
                       y := js_minus (lastY s) (JsNum newY); t := now |}
                    (eventQueue s) ts Hq Hd
                    (fun u Hu => Hpast u now Hu (or_introl eq_refl)))
          as (q' & Hq' & Hts).
        rewrite Hq'. cbn [bind].
        apply (IH (mkTracker true _ _ q' _ _) (now :: ts)).
        -- exact Hts.
        -- simpl. apply andb_true_iff. split; [|exact Hd].
           apply forallb_forall. intros u Hu. apply Z.leb_le.
           apply (Hpast u now Hu (or_introl eq_refl)).
        -- exact Hspans.
        -- apply (monotone_tail _ _ Hclock).
        -- intros u v [<-|Hu] Hv.
           ++ apply (monotone_head _ _ v Hclock Hv).
           ++ apply (Hpast u v Hu (or_intror Hv)).
      * destruct (IH s ts Hq Hd Hspans (monotone_tail _ _ Hclock)
                    (fun u v Hu Hv => Hpast u v Hu (or_intror Hv)))
          as (s' & H1 & H2 & H3).
        rewrite Htr in H2. exists s'. split; [exact H1|]. split; [exact H2 | exact H3].
    + cbn [clock flat_map app] in Hclock, Hpast.
      fold (clock rest) in Hclock, Hpast.
      cbn [eventQueue tracking lastX lastY scrolledBy inertialScrolls].
      destruct (eventQueue s) as [|e0 q] eqn:Equeue; cbn [bind].
      * apply (IH (mkTracker false _ _ _ _ _) []).
        -- reflexivity.
        -- reflexivity.
        -- exact Hspans.
        -- apply (monotone_tail _ _ Hclock).
        -- intros u v [].
      * apply (IH (mkTracker false _ _ _ _ _) []).
        -- reflexivity.
        -- reflexivity.
        -- intros dX dY span Hin. cbn [inertialScrolls] in Hin.
           destruct (now - t e0 <? timeUnit); [|apply (Hspans dX dY span Hin)].
           apply in_app_or in Hin. destruct Hin as [Hin|[Hin|[]]];
             [apply (Hspans dX dY span Hin)|].
           assert (Hlast : In (t (last (e0 :: q) e0)) (recent ts)).
           { rewrite <- Hq. apply in_map. apply last_In. discriminate. }
           assert (Hspan : span = t e0 - t (last (e0 :: q) e0)) by congruence.
           clear Hin. rewrite Hspan. clear Hspan.
           generalize dependent (last (e0 :: q) e0). intros el Hlast.
           destruct ts as [|t0 ts']; [contradiction|].
           cbn [map] in Hq. unfold recent in Hq, Hlast. inversion Hq as [[H0 Hrest]].
           destruct Hlast as [Hlast|Hlast]; [unfold timeUnit; lia|].
           apply filter_In in Hlast. destruct Hlast as (Hin' & Hle).
           apply Z.leb_le in Hle.
           pose proof (descending_head t0 ts' _ Hd Hin'). lia.
        -- apply (monotone_tail _ _ Hclock).
        -- intros u v [].
Qed.

(** X26. With a clock that does not run backwards, every touch listener
    returns, and after every event the event queue holds exactly the moves
    of the tracked touch that are at most 100 ms older than its newest
    move, the newest first; every inertial scroll was started with a speed
    measured over at most 100 ms. *)
Theorem eventQueue_holds_the_recent_moves es :
  monotone (clock es) = true ->
  exists s,
    listeners es initTouchScrollEvents = OK s
    /\ map t (eventQueue s) = recent (moves es false [])
    /\ forall dX dY span, In (dX, dY, span) (inertialScrolls s) -> 0 <= span <= timeUnit.
Proof.
  intros Hclock.
  destruct (listeners_recent es initTouchScrollEvents [] eq_refl eq_refl
              ltac:(intros dX dY span []) Hclock ltac:(intros u v []))
    as (s & H1 & H2 & H3).
  exists s. split; [exact H1|]. split; [exact H2 | exact H3].
Qed.

(** The touches of the scenario: of the three moves of the second touch the
    last two are left. *)
Lemma eventQueue_holds_the_recent_moves_witness :
  exists s,
    listeners TouchScenario.touches initTouchScrollEvents = OK s
    /\ map t (eventQueue s) = recent (moves TouchScenario.touches false []).
Proof.
  destruct (eventQueue_holds_the_recent_moves TouchScenario.touches ltac:(reflexivity))
    as (s & H1 & H2 & _).
  exists s. split; [exact H1 | exact H2].
Defined.

End TouchEvents.

Section RenderBatches.
Import RenderQueue.








End RenderBatches.

Section ArrayData.
Import ArrayDataSource.

Lemma js_slice_inside {A : Type} (l : list A) (a b : Z) :
  0 <= a <= b -> b <= Z.of_nat (length l) ->
  js_slice l a b = firstn (Z.to_nat (b - a)) (skipn (Z.to_nat a) l).
Proof.
  intros Ha Hb. unfold js_slice, relative_index.
  replace (a <? 0) with false by (symmetry; apply Z.ltb_ge; lia).
  replace (b <? 0) with false by (symmetry; apply Z.ltb_ge; lia).
  rewrite !Z.min_l by lia. reflexivity.
Qed.

(** X28. A ready array data source answers [getData(start, end)], for a
    range inside the data that does not end at zero, with the records
    [start .. end-1]; the answers for adjacent ranges, put together, are the
    answer for the whole range. *)
Theorem getData_pages (s : ArrayDataSource.DataSource) (a b c : Z) :
  isReady s = true ->
  0 <= a <= b ->
  0 < b <= c ->
  c <= Z.of_nat (length (data s)) ->
  exists page1 page2,
    getData s (Some a) (Some b) = inl page1
    /\ getData s (Some b) (Some c) = inl page2
    /\ getData s (Some a) (Some c) = inl (page1 ++ page2)
    /\ page1 = firstn (Z.to_nat (b - a)) (skipn (Z.to_nat a) (data s))
    /\ Z.of_nat (length page1) = b - a.
Proof.
  intros Hready Ha Hb Hc.
  assert (Hget : forall x y, 0 <= x <= y -> 0 < y -> y <= Z.of_nat (length (data s)) ->
            getData s (Some x) (Some y)
            = inl (firstn (Z.to_nat (y - x)) (skipn (Z.to_nat x) (data s)))).
  { intros x y Hx Hy Hlen. unfold getData, assertReady. rewrite Hready.
    cbn [not_]. replace (y =? 0) with false by (symmetry; apply Z.eqb_neq; lia).
    rewrite andb_false_r. rewrite js_slice_inside by lia. reflexivity. }
  exists (firstn (Z.to_nat (b - a)) (skipn (Z.to_nat a) (data s))),
    (firstn (Z.to_nat (c - b)) (skipn (Z.to_nat b) (data s))).
  split; [apply Hget; lia|]. split; [apply Hget; lia|].
  split.
  { rewrite Hget by lia. f_equal.
    replace (Z.to_nat (c - a)) with (Z.to_nat (b - a) + Z.to_nat (c - b))%nat by lia.
    rewrite firstn_skipn_split.
    replace (Z.to_nat a + Z.to_nat (b - a))%nat with (Z.to_nat b) by lia. reflexivity. }
  split; [reflexivity|].
  rewrite length_firstn, length_skipn. lia.
Qed.

(** The first two and the last two records of the scenario. *)
Lemma getData_pages_witness :
  exists page1 page2,
    getData (ArrayDataSource ArrayScenario.rows false) (Some 0) (Some 2) = inl page1
    /\ getData (ArrayDataSource ArrayScenario.rows false) (Some 2) (Some 4) = inl page2
    /\ getData (ArrayDataSource ArrayScenario.rows false) (Some 0) (Some 4)
       = inl (page1 ++ page2).
Proof.
  destruct (getData_pages (ArrayDataSource ArrayScenario.rows false) 0 2 4
              ltac:(reflexivity) ltac:(lia) ltac:(lia) ltac:(vm_compute; discriminate))
    as (page1 & page2 & H1 & H2 & H3 & _).
  exists page1, page2. split; [exact H1|]. split; [exact H2 | exact H3].
Defined.

Lemma has_id_assigned id key value r :
  key <> id_key -> has_id id ((key, value) :: r) = has_id id r.
Proof.
  intros Hkey. unfold has_id. cbn [property].
  rewrite JsString_eqb_neq by exact Hkey. reflexivity.
Qed.

Lemma assign_found rowId key value rows : forall record,
  key <> id_key ->
  find (has_id rowId) rows = Some record ->
  exists rows',
    assign rowId key value rows = Some rows'
    /\ length rows' = length rows
    /\ find (has_id rowId) rows' = Some ((key, value) :: record)
    /\ forall id, id <> rowId -> find (has_id id) rows' = find (has_id id) rows.
Proof.
  induction rows as [|r rest IH]; intros record Hkey Hfind; [discriminate|].
  cbn [find assign] in *. destruct (has_id rowId r) eqn:E.
  - inversion Hfind; subst r. eexists. split; [reflexivity|].
    split; [reflexivity|]. split.
    + cbn [find]. rewrite has_id_assigned, E by exact Hkey. reflexivity.
    + intros id Hid. cbn [find]. rewrite has_id_assigned by exact Hkey.
      destruct (has_id id record) eqn:E'; [|reflexivity].
      unfold has_id in E, E'. destruct (property id_key record); [|discriminate].
      apply Z.eqb_eq in E. apply Z.eqb_eq in E'. congruence.
  - destruct (IH record Hkey Hfind) as (rows' & H1 & H2 & H3 & H4).
    rewrite H1. eexists. split; [reflexivity|].
    split; [simpl; rewrite H2; reflexivity|]. split.
    + cbn [find]. rewrite E. exact H3.
    + intros id Hid. cbn [find]. rewrite (H4 id Hid). reflexivity.
Qed.

(** X29. [setValue(rowId, key, value)] on a ready array data source that has
    a record with the id, for a property other than the id: afterwards
    [getRecordById(rowId)] returns that record with the new value of the
    property and its other properties as they were, every other id leads
    to the record it led to, the number of records is the same, and
    [datachanged] was triggered for the id and the key. *)
Theorem setValue_then_getRecordById (s : ArrayDataSource.DataSource) (rowId : Z)
    (key : JsString) (value : Z) (record : DataRow) :
  isReady s = true ->
  getRecordById s rowId = inl (Some record) ->
  key <> id_key ->
  exists s',
    setValue rowId key value s = inl s'
    /\ getRecordById s' rowId = inl (Some ((key, value) :: record))
    /\ (forall k, property k ((key, value) :: record)
                  = if JsString_eqb key k then Some value else property k record)
    /\ (forall id, id <> rowId -> getRecordById s' id = getRecordById s id)
    /\ recordCount s' = recordCount s
    /\ triggered s' = triggered s ++ [datachanged rowId key].
Proof.
  intros Hready Hrecord Hkey.
  unfold setValue, getRecordById, recordCount, assertReady, isReady in *.
  rewrite Hready in *. inversion Hrecord as [Hfind]. rewrite Hfind.
  destruct (assign_found rowId key value (data s) record Hkey Hfind)
    as (rows' & H1 & H2 & H3 & H4).
  rewrite H1. eexists. split; [reflexivity|]. cbn [ready data triggered].
  split; [rewrite H3; reflexivity|]. split; [intros k; reflexivity|].
  split; [intros id Hid; rewrite (H4 id Hid); reflexivity|].
  split; [rewrite H2; reflexivity | reflexivity].
Qed.

(** The value of the third record of the scenario is set to 35. *)
Lemma setValue_then_getRecordById_witness :
  exists s',
    setValue 3 ArrayScenario.value_key 35 (ArrayDataSource ArrayScenario.rows false)
    = inl s'
    /\ getRecordById s' 3
       = inl (Some [(ArrayScenario.value_key, 35); (id_key, 3);
                    (ArrayScenario.value_key, 30)]).
Proof.
  destruct (setValue_then_getRecordById (ArrayDataSource ArrayScenario.rows false) 3
              ArrayScenario.value_key 35
              [(id_key, 3); (ArrayScenario.value_key, 30)]
              ltac:(reflexivity) ltac:(reflexivity) ltac:(discriminate))
    as (s' & H1 & H2 & _).
  exists s'. split; [exact H1 | exact H2].
Defined.

End ArrayData.
